(** * Backtest evaluation core: strategy returns, performance metrics, DCA

    A shallow embedding of the pandas code of [qqq_analysis.py] and
    [task-3/qqq_ta_momentum_compare.py], and the properties of its
    backtest engine: the strategy-return rule, the moving averages and
    signals, the performance metrics and the dollar-cost averaging.

    Numbers.  A float64 cell is modelled by [fl]: an exact rational, one of
    the two infinities, or NaN (pandas' missing value).  Finite arithmetic
    is exact (no rounding, no overflow), the special values follow IEEE 754
    (x/0 is an infinity, 0/0 and inf-inf are NaN, every comparison with NaN
    is false); zeros carry no sign.  The square root is a parameter
    ([FloatSqrt]).

    Objects.  A Series is an index of dates with a column of cells; a
    DataFrame is an index with named columns, each with one cell per
    index entry.  DataFrames are the objects the source assigns into
    ([s["ma"] = ...], [s.loc[mask, c] = 1]), so the functions that build
    tables or series run in a store of objects, where [copy()] allocates
    and column assignment updates the object in place.  The functions
    that only read a column or a table and return numbers take it by
    value.

    Exceptions.  A Python exception is a [Raise]; the store keeps what was
    done before it. *)

From Stdlib Require Import QArith Qminmax Lqa ZArith.
From stdpp Require Import base decidable option list gmap strings pretty fin_maps.

Local Open Scope Q_scope.

(* ===================================================================== *)
(** ** Float cells *)
(* ===================================================================== *)

Inductive fl : Type :=
| Fin (q : Q)
| PInf
| NInf
| NaN.

Definition Qltb (a b : Q) : bool := negb (Qle_bool b a).

Definition finf (positive : bool) : fl := if positive then PInf else NInf.

Definition isna (x : fl) : bool :=
  match x with NaN => true | _ => false end.

Definition isfinite (x : fl) : bool :=
  match x with Fin _ => true | _ => false end.

Definition fopp (x : fl) : fl :=
  match x with
  | Fin a => Fin (- a)
  | PInf => NInf
  | NInf => PInf
  | NaN => NaN
  end.

Definition fadd (x y : fl) : fl :=
  match x, y with
  | NaN, _ | _, NaN => NaN
  | Fin a, Fin b => Fin (a + b)
  | PInf, NInf | NInf, PInf => NaN
  | PInf, _ | _, PInf => PInf
  | NInf, _ | _, NInf => NInf
  end.

Definition fsub (x y : fl) : fl := fadd x (fopp y).

Definition fmul (x y : fl) : fl :=
  match x, y with
  | NaN, _ | _, NaN => NaN
  | Fin a, Fin b => Fin (a * b)
  | Fin a, PInf | PInf, Fin a => if Qeq_bool a 0 then NaN else finf (Qltb 0 a)
  | Fin a, NInf | NInf, Fin a => if Qeq_bool a 0 then NaN else finf (Qltb a 0)
  | PInf, PInf | NInf, NInf => PInf
  | PInf, NInf | NInf, PInf => NInf
  end.

Definition fdiv (x y : fl) : fl :=
  match x, y with
  | NaN, _ | _, NaN => NaN
  | Fin a, Fin b =>
      if Qeq_bool b 0
      then (if Qeq_bool a 0 then NaN else finf (Qltb 0 a))
      else Fin (a / b)
  | Fin _, (PInf | NInf) => Fin 0
  | PInf, Fin b => finf (Qle_bool 0 b)
  | NInf, Fin b => finf (Qltb b 0)
  | (PInf | NInf), (PInf | NInf) => NaN
  end.

(** [x <= y]; false as soon as one side is NaN. *)
Definition fleb (x y : fl) : bool :=
  match x, y with
  | NaN, _ | _, NaN => false
  | Fin a, Fin b => Qle_bool a b
  | NInf, _ | _, PInf => true
  | _, _ => false
  end.

Definition fltb (x y : fl) : bool := fleb x y && negb (fleb y x).
Definition fgtb (x y : fl) : bool := fltb y x.
Definition fgeb (x y : fl) : bool := fleb y x.

Definition fle (x y : fl) : Prop := fleb x y = true.

(** Same cell: equal rationals, or the same special value. *)
Definition feq (x y : fl) : Prop :=
  match x, y with
  | Fin a, Fin b => a == b
  | PInf, PInf | NInf, NInf | NaN, NaN => True
  | _, _ => False
  end.

#[export] Instance fl_equiv : Equiv fl := feq.

Definition fmax (x y : fl) : fl := if fleb x y then y else x.
Definition fmin (x y : fl) : fl := if fleb y x then y else x.

(** [bool.astype(int)] *)
Definition of_bool (b : bool) : fl := if b then Fin 1 else Fin 0.

(** The square root of the float library: any function that is zero at
    zero and positive on positive numbers (the real square root and its
    correctly rounded version both are). *)
Class FloatSqrt : Type := {
  sqrtQ : Q -> Q;
  sqrtQ_zero : forall x, x == 0 -> sqrtQ x == 0;
  sqrtQ_pos : forall x, 0 < x -> 0 < sqrtQ x
}.

Definition fsqrt `{FloatSqrt} (x : fl) : fl :=
  match x with
  | Fin a => if Qltb a 0 then NaN else Fin (sqrtQ a)
  | PInf => PInf
  | NInf | NaN => NaN
  end.

(** A computable instance: the integer square root at 2^-32 resolution. *)
Definition sqrt_scale : positive := 4294967296.

Definition sqrt_approx (x : Q) : Q :=
  Z.sqrt (Qnum x * Z.pos (Qden x) * Z.pos (sqrt_scale * sqrt_scale))
    # (Qden x * sqrt_scale).

(* ===================================================================== *)
(** ** Columns: the positional pandas operations *)
(* ===================================================================== *)

Abbreviation column := (list fl).

(** [col.shift(1)] *)
Definition shift1 (l : column) : column := take (length l) (NaN :: l).

(** [col.fillna(v)] *)
Definition fillna (v : fl) (l : column) : column :=
  map (fun x => if isna x then v else x) l.

(** [a * b], [a / b], [a - c], [1 + a], [a * c] on columns of one index *)
Definition col_mul (a b : column) : column := zip_with fmul a b.
Definition col_div (a b : column) : column := zip_with fdiv a b.
Definition col_sub_scalar (a : column) (c : fl) : column :=
  map (fun x => fsub x c) a.
Definition col_radd_scalar (c : fl) (a : column) : column :=
  map (fun x => fadd c x) a.
Definition col_mul_scalar (a : column) (c : fl) : column :=
  map (fun x => fmul x c) a.

(** [a > b] on columns of one index *)
Definition col_gt (a b : column) : list bool := zip_with fgtb a b.

(** [col.pct_change()]: [col / col.shift(1) - 1].  Missing prices are not
    filled first (pandas before 3.0 pads them); the properties below take
    prices without missing cells, where the versions agree. *)
Definition pct_change (l : column) : column :=
  col_sub_scalar (col_div l (shift1 l)) (Fin 1).

(** Float sum, left to right from 0. *)
Definition fsum (l : column) : fl := foldl fadd (Fin 0) l.

(** [col.rolling(w).mean()]: at position [i] the window is the [w] cells
    ending at [i]; the result is NaN until [w] cells are available and
    whenever a cell of the window is not a finite number (pandas turns
    infinities into missing cells before rolling, and [min_periods]
    defaults to [w]). *)
Definition window (w : nat) (l : column) (i : nat) : column :=
  take w (drop (S i - w) l).

Definition rolling_mean (w : nat) (l : column) : column :=
  imap (fun i _ =>
          if (S i <? w)%nat then NaN
          else if forallb isfinite (window w l i)
               then fdiv (fsum (window w l i)) (Fin (inject_Z (Z.of_nat w)))
               else NaN) l.

(** [col.cumprod()]: missing cells are skipped and stay missing. *)
Fixpoint cumprod_from (acc : fl) (l : column) : column :=
  match l with
  | [] => []
  | x :: l' =>
      if isna x then NaN :: cumprod_from acc l'
      else let p := fmul acc x in p :: cumprod_from p l'
  end.

Definition cumprod (l : column) : column := cumprod_from (Fin 1) l.

(** [col.cummax()]: missing cells are skipped and stay missing. *)
Fixpoint cummax_from (acc : fl) (l : column) : column :=
  match l with
  | [] => []
  | x :: l' =>
      if isna x then NaN :: cummax_from acc l'
      else let m := fmax acc x in m :: cummax_from m l'
  end.

Definition cummax (l : column) : column := cummax_from NInf l.

Definition dropna (l : column) : column :=
  List.filter (fun x => negb (isna x)) l.

(** [col.min()]: minimum of the present cells, NaN when there is none. *)
Definition col_min (l : column) : fl :=
  match dropna l with
  | [] => NaN
  | x :: l' => foldl fmin x l'
  end.

Definition fnat (n : nat) : fl := Fin (inject_Z (Z.of_nat n)).

(** [col.mean()]: sum over count of the present cells. *)
Definition col_mean (l : column) : fl :=
  let v := dropna l in
  match v with
  | [] => NaN
  | _ => fdiv (fsum v) (fnat (length v))
  end.

(** [col.std()]: sample standard deviation ([ddof = 1]) of the present
    cells, NaN with fewer than two of them. *)
Definition col_std `{FloatSqrt} (l : column) : fl :=
  let v := dropna l in
  if (length v <=? 1)%nat then NaN
  else
    let avg := fdiv (fsum v) (fnat (length v)) in
    let sqr := map (fun x => fmul (fsub avg x) (fsub avg x)) v in
    fsqrt (fdiv (fsum sqr) (fnat (length v - 1))).

(* ===================================================================== *)
(** ** Dates, Series, DataFrames *)
(* ===================================================================== *)

Record Date : Type := mkDate { year : Z; month : Z; day : Z }.

#[export] Instance Date_eq_dec : EqDecision Date.
Proof. solve_decision. Defined.

Record Series : Type := mkSeries {
  s_index : list Date;
  s_values : column
}.

Record DataFrame : Type := mkFrame {
  df_index : list Date;
  df_cols : gmap string column
}.

(** A series has one cell per index entry. *)
Definition series_wf (s : Series) : Prop :=
  length (s_values s) = length (s_index s).

(** The cell of a series at a date (the first one, should the date repeat). *)
Fixpoint assoc_date (d : Date) (idx : list Date) (vals : column) : option fl :=
  match idx, vals with
  | d' :: idx', v :: vals' =>
      if decide (d' = d) then Some v else assoc_date d idx' vals'
  | _, _ => None
  end.

Definition ser_at (s : Series) (d : Date) : option fl :=
  assoc_date d (s_index s) (s_values s).

(* ===================================================================== *)
(** ** Exceptions and the object store *)
(* ===================================================================== *)

Inductive pyexc : Type :=
| KeyError
| ValueError
| IndexError
| TypeError
| ZeroDivisionError
| InvalidIndexError
| FileNotFoundError.

Inductive pyres (A : Type) : Type :=
| Ok (a : A)
| Raise (e : pyexc).

Arguments Ok {A} a.
Arguments Raise {A} e.

Inductive pyobj : Type :=
| OFrame (f : DataFrame)
| OSeries (s : Series).

Abbreviation loc := positive.

Abbreviation store := (gmap loc pyobj).

(** A computation reads and updates the store and either returns or
    raises; what it did to the store before raising stays done. *)
Definition M (A : Type) : Type := store -> pyres A * store.

#[export] Instance M_ret : MRet M := fun A a h => (Ok a, h).

#[export] Instance M_bind : MBind M := fun A B k m h =>
  match m h with
  | (Ok a, h') => k a h'
  | (Raise e, h') => (Raise e, h')
  end.

Definition raise {A} (e : pyexc) : M A := fun h => (Raise e, h).

Definition lift {A} (r : pyres A) : M A := fun h => (r, h).

(** A new object gets a location no object has. *)
Definition alloc (o : pyobj) : M loc := fun h =>
  let l := fresh (dom h) in (Ok l, <[l := o]> h).

Definition get_frame (l : loc) : M DataFrame := fun h =>
  match h !! l with
  | Some (OFrame f) => (Ok f, h)
  | _ => (Raise TypeError, h)
  end.

Definition get_series (l : loc) : M Series := fun h =>
  match h !! l with
  | Some (OSeries s) => (Ok s, h)
  | _ => (Raise TypeError, h)
  end.

Definition put_frame (l : loc) (f : DataFrame) : M unit := fun h =>
  (Ok tt, <[l := OFrame f]> h).

(** [df.copy()] *)
Definition df_copy (l : loc) : M loc :=
  f ← get_frame l; alloc (OFrame f).

(** [df[c]] *)
Definition df_getitem (l : loc) (c : string) : M column :=
  f ← get_frame l;
  match df_cols f !! c with
  | Some v => mret v
  | None => raise KeyError
  end.

(** [df[c] = v] with [v] a column over the table's own index: the object
    at [l] is updated in place. *)
Definition df_setitem (l : loc) (c : string) (v : column) : M unit :=
  f ← get_frame l;
  put_frame l (mkFrame (df_index f) (<[c := v]> (df_cols f))).

(** [df[c] = x] with [x] a scalar: one cell [x] per row. *)
Definition df_setitem_scalar (l : loc) (c : string) (x : fl) : M unit :=
  f ← get_frame l;
  put_frame l (mkFrame (df_index f)
                 (<[c := replicate (length (df_index f)) x]> (df_cols f))).

(** [df.loc[mask, c] = x]: the cells of column [c] on the rows where
    [mask] holds become [x], in place (a column not yet there starts as
    missing cells). *)
Definition df_loc_setitem (l : loc) (mask : list bool) (c : string) (x : fl)
  : M unit :=
  f ← get_frame l;
  let old := default (replicate (length (df_index f)) NaN) (df_cols f !! c) in
  put_frame l (mkFrame (df_index f)
                 (<[c := zip_with (fun (m : bool) y => if m then x else y) mask old]>
                    (df_cols f))).

Definition df_get_index (l : loc) : M (list Date) :=
  f ← get_frame l; mret (df_index f).

Fixpoint for_each {A} (l : list A) (body : A -> M unit) : M unit :=
  match l with
  | [] => mret tt
  | a :: l' => body a;; for_each l' body
  end.

Fixpoint map_M {A B} (f : A -> M B) (l : list A) : M (list B) :=
  match l with
  | [] => mret []
  | a :: l' => b ← f a; bs ← map_M f l'; mret (b :: bs)
  end.

(** Exceptions alone, for the functions that only read their arguments. *)
#[export] Instance pyres_ret : MRet pyres := fun A a => Ok a.

#[export] Instance pyres_bind : MBind pyres := fun A B k r =>
  match r with
  | Ok a => k a
  | Raise e => Raise e
  end.

(** [col.iloc[-1]] *)
Definition iloc_last (l : column) : pyres fl :=
  match last l with
  | Some x => Ok x
  | None => Raise IndexError
  end.

(** [df[c]] on a table value *)
Definition frame_col (f : DataFrame) (c : string) : pyres column :=
  match df_cols f !! c with
  | Some v => Ok v
  | None => Raise KeyError
  end.

(* ===================================================================== *)
(** ** qqq_analysis.py: performance metrics *)
(* ===================================================================== *)

(** The [drawdown] series inside [max_drawdown]. *)
Definition drawdown (equity : column) : column :=
  let rolling_max := cummax equity in
  col_sub_scalar (col_div equity rolling_max) (Fin 1).

Definition max_drawdown (equity : column) : fl :=
  col_min (drawdown equity).

Definition annualized_volatility `{FloatSqrt}
    (returns : column) (periods_per_year : nat) : fl :=
  fmul (col_std returns) (fsqrt (fnat periods_per_year)).

(** [rf / periods_per_year] is a division of Python numbers: it raises on
    a zero divisor.  The division by the standard deviation is a float
    division and never raises. *)
Definition sharpe_ratio `{FloatSqrt}
    (returns : column) (rf : Q) (periods_per_year : nat) : pyres fl :=
  if decide (periods_per_year = 0%nat) then Raise ZeroDivisionError
  else
    let excess_return :=
      col_sub_scalar returns (Fin (rf / inject_Z (Z.of_nat periods_per_year))) in
    Ok (fmul (fdiv (col_mean excess_return) (col_std excess_return))
          (fsqrt (fnat periods_per_year))).

Definition initial_capital : Q := 100000.

(** [(1 + df["return"].fillna(0)).cumprod() * initial_capital] *)
Definition bh_equity (ret : column) : column :=
  col_mul_scalar (cumprod (col_radd_scalar (Fin 1) (fillna (Fin 0) ret)))
    (Fin initial_capital).

(* ===================================================================== *)
(** ** qqq_analysis.py: momentum strategy *)
(* ===================================================================== *)

Definition strategy_momentum (df : loc) (lookback : nat) (initial_capital : Q)
  : M loc :=
  s ← df_copy df;
  (* 1. moving average *)
  close ← df_getitem s "close";
  df_setitem s "ma" (rolling_mean lookback close);;
  (* 2. position: 1 = long, 0 = cash *)
  df_setitem_scalar s "position" (Fin 0);;
  close ← df_getitem s "close";
  ma ← df_getitem s "ma";
  df_loc_setitem s (col_gt close ma) "position" (Fin 1);;
  (* 3. previous day's position *)
  position ← df_getitem s "position";
  ret ← df_getitem s "return";
  df_setitem s "strategy_return" (col_mul (shift1 position) ret);;
  sr ← df_getitem s "strategy_return";
  df_setitem s "strategy_return" (fillna (Fin 0) sr);;
  (* 4. equity curve *)
  sr ← df_getitem s "strategy_return";
  df_setitem s "strategy_equity"
    (col_mul_scalar (cumprod (col_radd_scalar (Fin 1) sr)) (Fin initial_capital));;
  mret s.

(* ===================================================================== *)
(** ** qqq_analysis.py: dollar-cost averaging *)
(* ===================================================================== *)

Definition month_ord (d : Date) : Z := year d * 12 + (month d - 1).

Definition is_leap (y : Z) : bool :=
  ((y mod 4 =? 0) && (negb (y mod 100 =? 0) || (y mod 400 =? 0)))%Z.

Definition days_in_month (y m : Z) : Z :=
  (if m =? 2 then (if is_leap y then 29 else 28)
   else if (m =? 4) || (m =? 6) || (m =? 9) || (m =? 11) then 30
   else 31)%Z.

Definition month_end (k : Z) : Date :=
  let y := (k / 12)%Z in
  let m := (k mod 12 + 1)%Z in
  mkDate y m (days_in_month y m).

(** The calendar months from the earliest to the latest date of the index,
    none skipped. *)
Definition month_bins (idx : list Date) : list Z :=
  match idx with
  | [] => []
  | d :: _ =>
      let lo := foldr Z.min (month_ord d) (map month_ord idx) in
      let hi := foldr Z.max (month_ord d) (map month_ord idx) in
      map (fun k => (lo + Z.of_nat k)%Z) (seq 0 (Z.to_nat (hi - lo + 1)))
  end.

(** The last present cell of the column among the rows of month [k]. *)
Definition last_in_bin (k : Z) (idx : list Date) (col : column) : fl :=
  default NaN
    (last (dropna (map snd
       (List.filter (fun p : Date * fl => (month_ord (fst p) =? k)%Z) (zip idx col))))).

(** [df.resample("ME").last()] *)
Definition resample_ME_last (f : DataFrame) : DataFrame :=
  let bins := month_bins (df_index f) in
  mkFrame (map month_end bins)
    ((fun col => map (fun k => last_in_bin k (df_index f) col) bins) <$> df_cols f).

Record DcaResult : Type := mkDca {
  total_cost : fl;
  final_value : fl;
  profit : fl;
  roi : fl;
  shares : fl;
  months : nat
}.

(** [row[c]] for the row at position [i] *)
Definition row_getitem (f : DataFrame) (i : nat) (c : string) : pyres fl :=
  match df_cols f !! c with
  | Some col => match col !! i with Some x => Ok x | None => Raise KeyError end
  | None => Raise KeyError
  end.

(** The body of the loop over [df_month.iterrows()], on the accumulators
    [(total_cost, total_shares)]. *)
Fixpoint dca_loop (monthly_invest : Q) (df_month : DataFrame)
    (rows : list nat) (acc : fl * fl) : pyres (fl * fl) :=
  match rows with
  | [] => Ok acc
  | i :: rows' =>
      price ← row_getitem df_month i "close";
      let shares := fdiv (Fin monthly_invest) price in
      dca_loop monthly_invest df_month rows'
        (fadd (fst acc) (Fin monthly_invest), fadd (snd acc) shares)
  end.

Definition strategy_dca (df : DataFrame) (monthly_invest : Q) : pyres DcaResult :=
  let df_month := resample_ME_last df in
  acc ← dca_loop monthly_invest df_month
          (seq 0 (length (df_index df_month))) (Fin 0, Fin 0);
  let total_cost := fst acc in
  let total_shares := snd acc in
  close ← frame_col df "close";
  last_close ← iloc_last close;
  let final_value := fmul total_shares last_close in
  let profit := fsub final_value total_cost in
  let roi := fdiv profit total_cost in
  Ok (mkDca total_cost final_value profit roi total_shares
        (length (df_index df_month))).

(* ===================================================================== *)
(** ** task-3/qqq_ta_momentum_compare.py *)
(* ===================================================================== *)

Definition FAANG_DIR : string := "task-3/data".
Definition FAANG_TICKERS : list string := ["AAPL"; "AMZN"; "GOOG"; "META"; "MSFT"].

(** [os.path.join(dir, name)] *)
Definition path_join (dir name : string) : string := dir +:+ "/" +:+ name.

(** [pd.to_numeric(col, errors="coerce")]: a column of float cells is
    returned as it is. *)
Definition to_numeric (l : column) : column := l.

(** [load_price_csv(path)]: the reading, cleaning, sorting and clipping of
    the file belong to the loader; [files path] is the table it returns
    (or the exception it raises), and every call makes a new object. *)
Definition load_price_csv (files : string -> pyres DataFrame) (path : string)
  : M loc :=
  f ← lift (files path); alloc (OFrame f).

Definition add_ma (df : loc) (windows : list nat) : M loc :=
  f ← get_frame df;
  if decide (is_Some (df_cols f !! "close")) then
    df ← df_copy df;
    close ← df_getitem df "close";
    df_setitem df "close" (to_numeric close);;
    for_each windows (fun w =>
      close ← df_getitem df "close";
      df_setitem df ("ma" +:+ pretty w) (rolling_mean w close));;
    mret df
  else raise ValueError.

(** [s.reindex(idx)]: the series itself when it already has that index;
    otherwise its cell at each date of [idx], missing where it has none.
    A series with a repeated date cannot be reindexed. *)
Definition reindex (s : Series) (idx : list Date) : pyres Series :=
  if decide (s_index s = idx) then Ok s
  else if decide (NoDup (s_index s))
       then Ok (mkSeries idx (map (fun d => default NaN (ser_at s d)) idx))
       else Raise ValueError.

Definition compute_strategy_returns (price signal : loc) : M loc :=
  price ← get_series price;
  signal ← get_series signal;
  let ret := mkSeries (s_index price)
               (fillna (Fin 0) (pct_change (s_values price))) in
  signal ← lift (reindex signal (s_index ret));
  let signal := mkSeries (s_index signal) (fillna (Fin 0) (s_values signal)) in
  (* both operands carry [ret.index]: the product is cell by cell *)
  let strat_ret := mkSeries (s_index ret)
                     (col_mul (s_values ret) (s_values signal)) in
  alloc (OSeries strat_ret).

Record PerformanceSummary : Type := mkSummary {
  final_equity : fl;
  total_return : fl;
  max_dd : fl;
  vol_ann : fl;
  sharpe : fl
}.

(** The five statistics [summarize_performance] prints. *)
Definition summarize_performance `{FloatSqrt} (daily_ret : column)
  : pyres PerformanceSummary :=
  let initial_equity := Fin 100000 in
  let equity :=
    col_mul_scalar (cumprod (col_radd_scalar (Fin 1) daily_ret)) initial_equity in
  last_equity ← iloc_last equity;
  let total_return := fsub (fdiv last_equity initial_equity) (Fin 1) in
  let roll_max := cummax equity in
  let drawdown := col_sub_scalar (col_div equity roll_max) (Fin 1) in
  let max_dd := col_min drawdown in
  let vol_ann := fmul (col_std daily_ret) (fsqrt (Fin 252)) in
  let sharpe :=
    if fgtb (col_std daily_ret) (Fin 0)
    then fmul (fdiv (col_mean daily_ret) (col_std daily_ret)) (fsqrt (Fin 252))
    else NaN in
  Ok (mkSummary last_equity total_return max_dd vol_ann sharpe).

Definition build_baseline_momentum_signal (qqq_with_ma : loc) : M loc :=
  close ← df_getitem qqq_with_ma "close";
  ma50 ← df_getitem qqq_with_ma "ma50";
  idx ← df_get_index qqq_with_ma;
  alloc (OSeries (mkSeries idx (map of_bool (col_gt close ma50)))).

(** Index of [pd.concat(..., axis=1)]: the dates of the first series, then
    the new dates of each next one. *)
Definition index_union (a b : list Date) : list Date :=
  a ++ list_difference b a.

(** [pd.concat(series, axis=1)]: one column per series.  Series that share
    one index are put side by side; otherwise each is looked up on the
    union of the indexes (missing where it has no such date), which needs
    every index free of repeated dates. *)
Definition concat_axis1 (l : list Series) : pyres (list Date * list column) :=
  match l with
  | [] => Raise ValueError
  | s0 :: rest =>
      if forallb (fun s => bool_decide (s_index s = s_index s0)) rest
      then Ok (s_index s0, map s_values l)
      else if forallb (fun s => bool_decide (NoDup (s_index s))) l
           then let idx := foldl index_union (s_index s0) (map s_index rest) in
                Ok (idx, map (fun s => map (fun d => default NaN (ser_at s d)) idx) l)
           else Raise InvalidIndexError
  end.

(** [combo.sum(axis=1)]: the row sums over the present cells. *)
Definition sum_axis1 (idx : list Date) (cols : list column) : column :=
  imap (fun i _ => fsum (dropna (map (fun c => default NaN (c !! i)) cols))) idx.

(** The body of the loop over [FAANG_TICKERS]: the 0/1 series telling
    where the close of [sym] is above its 200-day average. *)
Definition risk_flag (files : string -> pyres DataFrame) (sym : string)
  : M Series :=
  let path := path_join FAANG_DIR (sym +:+ ".csv") in
  df ← load_price_csv files path;
  df ← add_ma df [200%nat];
  close ← df_getitem df "close";
  ma200 ← df_getitem df "ma200";
  idx ← df_get_index df;
  let above_ma := mkSeries idx (map of_bool (col_gt close ma200)) in
  mret above_ma.

Definition build_faang_risk_on_signal (files : string -> pyres DataFrame)
  : M loc :=
  risk_flags ← map_M (risk_flag files) FAANG_TICKERS;
  combo ← lift (concat_axis1 risk_flags);
  let combo_filled := map (fillna (Fin 0)) (snd combo) in
  let count_above := sum_axis1 (fst combo) combo_filled in
  let risk_on := map (fun c => of_bool (fgeb c (Fin 3))) count_above in
  alloc (OSeries (mkSeries (fst combo) risk_on)).

(* ===================================================================== *)
(** ** qqq_analysis.py: the script after the table is loaded *)
(* ===================================================================== *)

Record Report : Type := mkReport {
  dca_result : DcaResult;
  bh_mdd : fl;
  bh_vol : fl;
  bh_sharpe : fl;
  mom_final_equity : fl;
  mom_mdd : fl;
  mom_vol : fl;
  mom_sharpe : fl
}.

(** The statements of the module, in order, on the loaded table [df]:
    daily returns, DCA, buy and hold, momentum. *)
Definition qqq_analysis `{FloatSqrt} (df : loc) : M Report :=
  close ← df_getitem df "close";
  df_setitem df "return" (pct_change close);;
  (* strategy 1 *)
  f ← get_frame df;
  dca_result ← lift (strategy_dca f 1000);
  (* buy and hold baseline *)
  ret ← df_getitem df "return";
  df_setitem df "bh_equity" (bh_equity ret);;
  ret ← df_getitem df "return";
  let bh_returns := dropna ret in
  equity ← df_getitem df "bh_equity";
  let bh_mdd := max_drawdown equity in
  let bh_vol := annualized_volatility bh_returns 252 in
  bh_sharpe ← lift (sharpe_ratio bh_returns 0 252);
  (* strategy 2 *)
  momentum_df ← strategy_momentum df 50 initial_capital;
  sr ← df_getitem momentum_df "strategy_return";
  let mom_returns := dropna sr in
  se ← df_getitem momentum_df "strategy_equity";
  let mom_mdd := max_drawdown se in
  let mom_vol := annualized_volatility mom_returns 252 in
  mom_sharpe ← lift (sharpe_ratio mom_returns 0 252);
  final ← lift (iloc_last se);
  mret (mkReport dca_result bh_mdd bh_vol bh_sharpe final mom_mdd mom_vol mom_sharpe).


(* ===================================================================== *)
(** ** task-3/qqq_ta_momentum_compare.py: main *)
(* ===================================================================== *)

Definition QQQ_DATA_PATH : string := "task-2/data/QQQ.csv".

(** [x == y] on floats: NaN equals nothing. *)
Definition feqb (x y : fl) : bool :=
  match x, y with
  | Fin a, Fin b => Qeq_bool a b
  | PInf, PInf | NInf, NInf => true
  | _, _ => false
  end.

(** [col == x] *)
Definition col_eq_scalar (a : column) (x : fl) : list bool :=
  map (fun y => feqb y x) a.

(** [a & b] on boolean columns of one index *)
Definition col_and (a b : list bool) : list bool := zip_with andb a b.

(** [df[c]] used as a series: the column under the index of its table,
    a new object. *)
Definition df_getitem_series (l : loc) (c : string) : M loc :=
  v ← df_getitem l c;
  idx ← df_get_index l;
  alloc (OSeries (mkSeries idx v)).

(** [main()]: the baseline strategy, then the strategy filtered by the
    FAANG signal; the result is the two summaries it prints. *)
Definition main `{FloatSqrt} (files : string -> pyres DataFrame)
  : M (PerformanceSummary * PerformanceSummary) :=
  (* 1) QQQ with MA(50) *)
  qqq ← load_price_csv files QQQ_DATA_PATH;
  qqq ← add_ma qqq [50%nat];
  (* 2) baseline *)
  baseline_signal ← build_baseline_momentum_signal qqq;
  price ← df_getitem_series qqq "close";
  baseline_ret ← compute_strategy_returns price baseline_signal;
  br ← get_series baseline_ret;
  baseline_summary ← lift (summarize_performance (s_values br));
  (* 3) FAANG risk-on signal *)
  risk_on ← build_faang_risk_on_signal files;
  ro ← get_series risk_on;
  idx ← df_get_index qqq;
  ro ← lift (reindex ro idx);
  let risk_on := fillna (Fin 0) (s_values ro) in
  (* 4) TA-enhanced strategy *)
  close ← df_getitem qqq "close";
  ma50 ← df_getitem qqq "ma50";
  let ta_signal :=
    map of_bool (col_and (col_gt close ma50) (col_eq_scalar risk_on (Fin 1))) in
  ta_signal ← alloc (OSeries (mkSeries idx ta_signal));
  price ← df_getitem_series qqq "close";
  strat_ret_ta ← compute_strategy_returns price ta_signal;
  tr ← get_series strat_ret_ta;
  ta_summary ← lift (summarize_performance (s_values tr));
  mret (baseline_summary, ta_summary).

(* ===================================================================== *)
(** ** task-2/fetch_data.py: the retry loop *)
(* ===================================================================== *)

Module FetchData.

(** What one run of the [try] block does, for the ticker and the dates
    of the call: it returns the table [out],
    raises an [Exception] (caught by the loop; [msg] is its [str]), or
    raises something that is not an [Exception] (KeyboardInterrupt, say),
    which the loop lets through. *)
Inductive outcome : Type :=
| Returns (out : DataFrame)
| RaisesException (msg : string)
| RaisesOther (name : string).

(** What the function raises itself:
    [RuntimeError(f"yfinance failed: {last_err}")], with [last_err] the
    last exception caught, [None] when there was none. *)
Inductive fetch_error : Type :=
| YfinanceFailed (last_err : option string)
| Uncaught (name : string).

(** The world of the loop: how many times the download was tried and how
    many times [time.sleep(0.8)] was called. *)
Record world : Type := mkWorld { tries : nat; sleeps : nat }.

(** The body of [for _ in range(max_retries)], [n] iterations left; the
    outcome of a run of the [try] block is given by how many runs came
    before it. *)
Fixpoint retry_loop (attempt : nat -> outcome) (n : nat)
    (last_err : option string) (w : world) : (fetch_error + DataFrame) * world :=
  match n with
  | O => (inl (YfinanceFailed last_err), w)
  | S n' =>
      let w1 := mkWorld (S (tries w)) (sleeps w) in
      match attempt (tries w) with
      | Returns out => (inr out, w1)
      | RaisesOther name => (inl (Uncaught name), w1)
      | RaisesException msg =>
          retry_loop attempt n' (Some msg) (mkWorld (tries w1) (S (sleeps w1)))
      end
  end.

(** [range(max_retries)] is empty for a count of 0 or less. *)
Definition fetch_with_yfinance_strict (attempt : nat -> outcome)
    (max_retries : Z) (w : world) : (fetch_error + DataFrame) * world :=
  retry_loop attempt (Z.to_nat max_retries) None w.

End FetchData.
(* ===================================================================== *)
(** ** The computable square root *)
(* ===================================================================== *)

#[export] Instance sqrt_floor : FloatSqrt.
Proof.
  refine {| sqrtQ := sqrt_approx |}.
  - unfold Qeq, sqrt_approx; simpl. intros x Hx.
    assert (Qnum x = 0%Z) as -> by lia.
    reflexivity.
  - unfold Qlt, sqrt_approx; simpl. intros x Hx.
    assert (0 < Qnum x)%Z as Hn by lia.
    assert (1 <= Z.sqrt (Qnum x * Z.pos (Qden x) * Z.pos (sqrt_scale * sqrt_scale)))%Z.
    { change 1%Z with (Z.sqrt 1). apply Z.sqrt_le_mono. nia. }
    lia.
Defined.

(* ===================================================================== *)
(** ** Vocabulary of the properties *)
(* ===================================================================== *)

(** Finite cells by sign. *)
Definition positive_cell (x : fl) : Prop := exists q, x = Fin q /\ 0 < q.
Definition nonpos_cell (d : fl) : Prop := exists q, d = Fin q /\ q <= 0.

(** A price the daily return can be taken from: finite and not 0. *)
Definition price_cell (x : fl) : Prop := exists q, x = Fin q /\ ~ q == 0.

(** An equity curve of positive finite cells. *)
Definition positive_curve (E : column) : Prop := Forall positive_cell E.

(** No cell is above the next one. *)
Definition nondecreasing (E : column) : Prop :=
  forall i x y, E !! i = Some x -> E !! S i = Some y -> fle x y.

(** [a <= x0 <= x1 <= ...] *)
Fixpoint chain (a : fl) (l : column) : Prop :=
  match l with
  | [] => True
  | x :: l' => fle a x /\ chain x l'
  end.

(** The drawdown series when the running maximum starts from [acc]. *)
Definition drawdown_from (acc : fl) (E : column) : column :=
  col_sub_scalar (col_div E (cummax_from acc E)) (Fin 1).

(** The columns [strategy_momentum] computes from the close and return
    columns of a table of [n] rows. *)
Definition momentum_ma (lookback : nat) (close : column) : column :=
  rolling_mean lookback close.

Definition momentum_position (n lookback : nat) (close : column) : column :=
  zip_with (fun (m : bool) y => if m then Fin 1 else y)
    (col_gt close (momentum_ma lookback close)) (replicate n (Fin 0)).

Definition momentum_return (n lookback : nat) (close ret : column) : column :=
  fillna (Fin 0) (col_mul (shift1 (momentum_position n lookback close)) ret).

Definition momentum_equity (n lookback : nat) (close ret : column) (cap : Q) : column :=
  col_mul_scalar
    (cumprod (col_radd_scalar (Fin 1) (momentum_return n lookback close ret)))
    (Fin cap).

Definition momentum_frame (f : DataFrame) (lookback : nat) (close ret : column)
    (cap : Q) : DataFrame :=
  let n := length (df_index f) in
  mkFrame (df_index f)
    (<["strategy_equity" := momentum_equity n lookback close ret cap]>
     (<["strategy_return" := momentum_return n lookback close ret]>
      (<["position" := momentum_position n lookback close]>
       (<["ma" := momentum_ma lookback close]> (df_cols f))))).

(** A call that returns a new table, or a new series, in the store. *)
Definition returns_frame (m : M loc) (h : store) (g : DataFrame) : Prop :=
  exists l h', m h = (Ok l, h') /\ h' !! l = Some (OFrame g) /\ h !! l = None.

Definition returns_series (m : M loc) (h : store) (s : Series) : Prop :=
  exists l h', m h = (Ok l, h') /\ h' !! l = Some (OSeries s) /\ h !! l = None.

(** Sum of rationals, left to right from 0. *)
Definition qsum (qs : list Q) : Q := foldl Qplus 0 qs.

(** The mean of the [N] closes ending at position [i]. *)
Definition trailing_mean (N : nat) (qs : list Q) (i : nat) : Q :=
  qsum (take N (drop (S i - N) qs)) / inject_Z (Z.of_nat N).

(** The moving average claimed at position [i]: missing until [N] closes
    are available. *)
Definition ma_spec (N : nat) (qs : list Q) (i : nat) : fl :=
  if (S i <? N)%nat then NaN else Fin (trailing_mean N qs i).

(** The crossover signal claimed at position [i], where the close is [q]. *)
Definition crossover_spec (N : nat) (qs : list Q) (i : nat) (q : Q) : fl :=
  if (S i <? N)%nat then Fin 0
  else if Qltb (trailing_mean N qs i) q then Fin 1 else Fin 0.

(** The columns of [add_ma]'s result. *)
Definition add_ma_cols (close : column) (windows : list nat)
    (cols : gmap string column) : gmap string column :=
  foldl (fun cs w => <["ma" +:+ pretty w := rolling_mean w close]> cs) cols windows.

(** The cells [reindex] gives a signal on the index [idx]. *)
Definition reindexed_values (sg : Series) (idx : list Date) : column :=
  if decide (s_index sg = idx) then s_values sg
  else map (fun d => default NaN (ser_at sg d)) idx.

(** The series [compute_strategy_returns] builds from a price and a
    signal. *)
Definition strategy_series (p sg : Series) : Series :=
  mkSeries (s_index p)
    (col_mul (fillna (Fin 0) (pct_change (s_values p)))
             (fillna (Fin 0) (reindexed_values sg (s_index p)))).

(** The position a signal gives for a date: its cell there, 0 when the
    date is not in the signal or the cell is missing. *)
Definition position_on (sg : Series) (d : Date) : fl :=
  match ser_at sg d with
  | Some x => if isna x then Fin 0 else x
  | None => Fin 0
  end.

(** Following the specification, not the source: the strategy returns
    under the one-day lag, [S[t] = P[t-1] * R[t]], 0 on the first day and
    where the product is missing.  The result of
    [compute_strategy_returns] is compared with it. *)
Definition lagged_returns (P R : column) : column :=
  fillna (Fin 0) (col_mul (shift1 P) R).

(** A 0/1 signal. *)
Definition binary_cell (x : fl) : Prop := x ≡ Fin 0 \/ x ≡ Fin 1.

(** A computation that touches no object but the one at [s], which it
    may replace but not remove. *)
Definition writes_only (s : loc) {A} (m : M A) : Prop :=
  forall h,
    (forall l, l <> s -> snd (m h) !! l = h !! l)
    /\ (is_Some (h !! s) -> is_Some (snd (m h) !! s)).

(** A computation that returns [s] whenever it returns. *)
Definition returns_only (s : loc) (m : M loc) : Prop :=
  forall h l, fst (m h) = Ok l -> l = s.

(** Run from [h], the call leaves every object of [h] as it is, and what
    it returns is an object that was not in [h]. *)
Definition leaves_inputs_unchanged (m : M loc) (h : store) : Prop :=
  h ⊆ snd (m h)
  /\ forall l, fst (m h) = Ok l -> h !! l = None /\ is_Some (snd (m h) !! l).

(** The file of a ticker. *)
Definition faang_path (sym : string) : string :=
  path_join FAANG_DIR (sym +:+ ".csv").

(** The 0/1 series of an asset: where its close is above its 200-day
    moving average. *)
Definition above_flags (f : DataFrame) (close : column) : Series :=
  mkSeries (df_index f) (map of_bool (col_gt close (rolling_mean 200 close))).

(** An asset is above its average on a date when the date is in its table
    and its close there exceeds its moving average there (both present). *)
Definition above_ma200 (f : DataFrame) (close : column) (d : Date) : bool :=
  match assoc_date d (df_index f) close,
        assoc_date d (df_index f) (rolling_mean 200 close) with
  | Some c, Some m => fgtb c m
  | _, _ => false
  end.

(** How many of the five assets are above their average on a date. *)
Definition count_above (T : string -> DataFrame) (C : string -> column)
    (d : Date) : nat :=
  length (List.filter (fun sym => above_ma200 (T sym) (C sym) d) FAANG_TICKERS).

(** The month-end prices [strategy_dca] walks through. *)
Definition month_end_prices (df : DataFrame) (close : column) : column :=
  map (fun k => last_in_bin k (df_index df) close) (month_bins (df_index df)).

(* ===================================================================== *)
(** ** Sample tables *)
(* ===================================================================== *)

(** Two trading days of one month, the month closing at 100. *)
Definition one_month_table : DataFrame :=
  mkFrame [mkDate 2020 1 30; mkDate 2020 1 31]
    {[ "close" := [Fin 90; Fin 100] ]}.

(** A table with its columns and no row. *)
Definition empty_table : DataFrame :=
  mkFrame [] {[ "close" := [] ]}.

(** Three trading days, the close rising by 10% a day. *)
Definition sample_dates : list Date :=
  [mkDate 2024 1 2; mkDate 2024 1 3; mkDate 2024 1 4].

Definition sample_closes : list Q := [100; 110; 121].

Definition sample_table : DataFrame :=
  mkFrame sample_dates
    {[ "close" := map Fin sample_closes;
       "return" := pct_change (map Fin sample_closes) ]}.

Definition table_store : store := {[ 1%positive := OFrame sample_table ]}.

(** The same prices as a series, with a signal that is invested on the
    second day only. *)
Definition sample_price : Series := mkSeries sample_dates (map Fin sample_closes).
Definition sample_signal : Series := mkSeries sample_dates [Fin 0; Fin 1; Fin 0].

Definition series_store : store :=
  {[ 1%positive := OSeries sample_price; 2%positive := OSeries sample_signal ]}.

(** Five price tables of some 200 trading days: three assets rise by one
    a day, two fall by one a day; GOOG has no row on the last day. *)
Definition trading_day (k : nat) : Date :=
  mkDate 2020 (Z.of_nat (k / 28) + 1) (Z.of_nat (k mod 28) + 1).

Definition rising_table (n : nat) : DataFrame :=
  mkFrame (map trading_day (seq 0 n))
    {[ "close" := map (fun k => Fin (inject_Z (100 + Z.of_nat k))) (seq 0 n) ]}.

Definition falling_table (n : nat) : DataFrame :=
  mkFrame (map trading_day (seq 0 n))
    {[ "close" := map (fun k => Fin (inject_Z (400 - Z.of_nat k))) (seq 0 n) ]}.

Definition faang_tables (sym : string) : DataFrame :=
  if bool_decide (sym = "GOOG") then rising_table 200
  else if bool_decide (sym = "META") || bool_decide (sym = "MSFT")
       then falling_table 201
       else rising_table 201.

Definition faang_closes (sym : string) : column :=
  default [] (df_cols (faang_tables sym) !! "close").

Definition faang_files (path : string) : pyres DataFrame :=
  match List.find (fun sym => bool_decide (faang_path sym = path)) FAANG_TICKERS with
  | Some sym => Ok (faang_tables sym)
  | None => Raise FileNotFoundError
  end.

(* ===================================================================== *)
(** ** Vocabulary of the further properties *)
(* ===================================================================== *)

(** The daily returns after the first day, given the close of the day
    before: [pct_change] without its first cell. *)
Definition pct_from (prev : fl) (l : column) : column :=
  zip_with (fun cur prev => fsub (fdiv cur prev) (Fin 1)) l (prev :: l).

(** Product of rationals, left to right from 1. *)
Definition qprod (qs : list Q) : Q := foldl Qmult 1 qs.


(** The growth factor of compounding the returns [qs]. *)
Definition growth (qs : list Q) : Q := qprod (map (fun q => 1 + q) qs).

(** Two trading days two months apart: February has no row. *)
Definition gap_table : DataFrame :=
  mkFrame [mkDate 2020 1 31; mkDate 2020 3 31]
    {[ "close" := [Fin 100; Fin 110] ]}.

(** The five files, the one of GOOG missing. *)
Definition files_without_goog (path : string) : pyres DataFrame :=
  if bool_decide (path = faang_path "GOOG") then Raise FileNotFoundError
  else faang_files path.

(** The closes of [rising_table]. *)
Definition rising_closes (n : nat) : list Q :=
  map (fun k => inject_Z (100 + Z.of_nat k)) (seq 0 n).

(** The five files and the QQQ file, a table of 201 rising closes on the
    trading days of the five. *)
Definition market_files (path : string) : pyres DataFrame :=
  if bool_decide (path = QQQ_DATA_PATH) then Ok (rising_table 201)
  else faang_files path.

(** Three days with a close of 0 on the second, and a signal that stays
    in cash. *)
Definition zero_close_price : Series := mkSeries sample_dates [Fin 1; Fin 0; Fin 1].
Definition cash_signal : Series := mkSeries sample_dates [Fin 0; Fin 0; Fin 0].

Definition zero_close_store : store :=
  {[ 1%positive := OSeries zero_close_price; 2%positive := OSeries cash_signal ]}.

Definition zero_close_table : DataFrame :=
  mkFrame sample_dates
    {[ "close" := [Fin 1; Fin 0; Fin 1];
       "return" := pct_change [Fin 1; Fin 0; Fin 1] ]}.

(** The order of dates, and a table whose rows are in that order (equal
    dates allowed). *)
Definition date_leb (a b : Date) : bool :=
  ((year a <? year b)
   || ((year a =? year b)
       && ((month a <? month b) || ((month a =? month b) && (day a <=? day b)))))%Z.

Definition in_date_order (idx : list Date) : Prop :=
  forall i j a b, (i <= j)%nat -> idx !! i = Some a -> idx !! j = Some b ->
    date_leb a b = true.

(** Four trading days of two months: January closes at 100, February at
    110 after a day at 120. *)
Definition two_month_table : DataFrame :=
  mkFrame [mkDate 2020 1 30; mkDate 2020 1 31; mkDate 2020 2 27; mkDate 2020 2 28]
    {[ "close" := [Fin 90; Fin 100; Fin 120; Fin 110] ]}.
(* ===================================================================== *)
(** * Properties *)
(* ===================================================================== *)

(** ** Float cells: equality and order *)

#[export] Instance feq_equivalence : Equivalence (≡@{fl}).
Proof.
  unfold equiv, fl_equiv. split.
  - intros [a| | |]; simpl; auto with qarith.
  - intros [a| | |] [b| | |]; simpl; auto with qarith.
  - intros [a| | |] [b| | |] [c| | |]; simpl; try tauto. apply Qeq_trans.
Qed.

Lemma Qltb_true (a b : Q) : Qltb a b = true <-> a < b.
Proof.
  unfold Qltb. rewrite negb_true_iff, <- not_true_iff_false, Qle_bool_iff.
  split; [apply Qnot_le_lt | apply Qlt_not_le].
Qed.

Lemma Qltb_false (a b : Q) : Qltb a b = false <-> b <= a.
Proof.
  unfold Qltb. rewrite negb_false_iff, Qle_bool_iff. tauto.
Qed.

Lemma Qeq_bool_false (a b : Q) : Qeq_bool a b = false <-> ~ a == b.
Proof.
  rewrite <- not_true_iff_false, Qeq_bool_iff. tauto.
Qed.

(** ** Sums of finite cells *)

Lemma dropna_finite (l : column) :
  forallb isfinite l = true -> dropna l = l.
Proof.
  induction l as [|x l IH]; simpl; [done|].
  intros [Hx Hl]%andb_true_iff. unfold dropna in *.
  destruct x; try discriminate; simpl. f_equal. auto.
Qed.

Lemma foldl_fadd_Fin (qs : list Q) (a : Q) :
  foldl fadd (Fin a) (map Fin qs) = Fin (foldl Qplus a qs).
Proof.
  revert a. induction qs as [|q qs IH]; intros a; simpl; [done|]. apply IH.
Qed.

Lemma foldl_Qplus_replicate (n : nat) (a c : Q) :
  foldl Qplus a (replicate n c) == a + inject_Z (Z.of_nat n) * c.
Proof.
  revert a. induction n as [|n IH]; intros a.
  - simpl. ring.
  - cbn [replicate foldl]. rewrite IH, Nat2Z.inj_succ. unfold Z.succ.
    rewrite inject_Z_plus. ring.
Qed.

Lemma fdiv_Fin (a b : Q) :
  Qeq_bool b 0 = false -> fdiv (Fin a) (Fin b) = Fin (a / b).
Proof. intros Hb. unfold fdiv. by rewrite Hb. Qed.

(** ** The operations respect the equality of cells *)

#[export] Instance Qltb_comp : Proper (Qeq ==> Qeq ==> eq) Qltb.
Proof. intros a a' Ha b b' Hb. unfold Qltb. by rewrite Ha, Hb. Qed.

#[export] Instance Fin_proper : Proper (Qeq ==> (≡)) Fin.
Proof. intros a b Hab. exact Hab. Qed.

Ltac fl_cases :=
  repeat match goal with
  | x : fl |- _ => destruct x
  end;
  repeat match goal with
  | H : _ ≡ _ |- _ => unfold equiv, fl_equiv, feq in H
  end;
  try contradiction; try exact I.

Ltac q_conds H :=
  rewrite ?(Qeqb_comp _ _ H _ _ (Qeq_refl 0)),
          ?(Qltb_comp _ _ (Qeq_refl 0) _ _ H),
          ?(Qltb_comp _ _ H _ _ (Qeq_refl 0)),
          ?(Qleb_comp _ _ (Qeq_refl 0) _ _ H).

#[export] Instance fopp_proper : Proper ((≡) ==> (≡)) fopp.
Proof.
  intros x x' Hx. fl_cases; try reflexivity.
  unfold equiv, fl_equiv; simpl. by rewrite Hx.
Qed.

#[export] Instance fadd_proper : Proper ((≡) ==> (≡) ==> (≡)) fadd.
Proof.
  intros x x' Hx y y' Hy. fl_cases; try reflexivity.
  unfold equiv, fl_equiv; simpl. by rewrite Hx, Hy.
Qed.

#[export] Instance fsub_proper : Proper ((≡) ==> (≡) ==> (≡)) fsub.
Proof. intros x x' Hx y y' Hy. unfold fsub. by rewrite Hx, Hy. Qed.

#[export] Instance fmul_proper : Proper ((≡) ==> (≡) ==> (≡)) fmul.
Proof.
  intros x x' Hx y y' Hy. fl_cases; try reflexivity; simpl;
    try (q_conds Hx; reflexivity); try (q_conds Hy; reflexivity).
  unfold equiv, fl_equiv; simpl. by rewrite Hx, Hy.
Qed.

#[export] Instance fdiv_proper : Proper ((≡) ==> (≡) ==> (≡)) fdiv.
Proof.
  intros x x' Hx y y' Hy. fl_cases; try reflexivity; simpl;
    try (q_conds Hx; reflexivity); try (q_conds Hy; reflexivity).
  q_conds Hx. q_conds Hy.
  destruct (Qeq_bool _ 0) eqn:Hq; [reflexivity|].
  unfold equiv, fl_equiv; simpl. by rewrite Hx, Hy.
Qed.

#[export] Instance fleb_proper : Proper ((≡) ==> (≡) ==> eq) fleb.
Proof.
  intros x x' Hx y y' Hy. fl_cases; try reflexivity; simpl. by rewrite Hx, Hy.
Qed.

#[export] Instance fltb_proper : Proper ((≡) ==> (≡) ==> eq) fltb.
Proof. intros x x' Hx y y' Hy. unfold fltb. by rewrite Hx, Hy. Qed.

Lemma fmul_equiv_l (x x' y : fl) : x ≡ x' -> fmul x y ≡ fmul x' y.
Proof. intros Hx. by rewrite Hx. Qed.

Lemma inject_nat_nonzero (n : nat) :
  n <> 0%nat -> Qeq_bool (inject_Z (Z.of_nat n)) 0 = false.
Proof.
  intros Hn. apply Qeq_bool_false. unfold Qeq; simpl. lia.
Qed.


(* ===================================================================== *)
(** ** Running computations in the store *)
(* ===================================================================== *)

Lemma bind_run {A B} (m : M A) (k : A -> M B) (h : store) :
  (m ≫= k) h
  = match m h with
    | (Ok a, h') => k a h'
    | (Raise e, h') => (Raise e, h')
    end.
Proof. reflexivity. Qed.

Lemma fresh_loc_None (h : store) : h !! fresh (dom h) = None.
Proof. apply not_elem_of_dom, is_fresh. Qed.

Lemma get_frame_run (h : store) (l : loc) (f : DataFrame) :
  h !! l = Some (OFrame f) -> get_frame l h = (Ok f, h).
Proof. intros Hl. unfold get_frame. by rewrite Hl. Qed.

Lemma get_series_run (h : store) (l : loc) (s : Series) :
  h !! l = Some (OSeries s) -> get_series l h = (Ok s, h).
Proof. intros Hl. unfold get_series. by rewrite Hl. Qed.

Lemma df_copy_run (h : store) (l : loc) (f : DataFrame) :
  h !! l = Some (OFrame f) ->
  df_copy l h = (Ok (fresh (dom h)), <[fresh (dom h) := OFrame f]> h).
Proof. intros Hl. unfold df_copy. by rewrite bind_run, (get_frame_run h l f). Qed.

Lemma df_getitem_run (h : store) (l : loc) (f : DataFrame) (c : string) (v : column) :
  h !! l = Some (OFrame f) -> df_cols f !! c = Some v ->
  df_getitem l c h = (Ok v, h).
Proof.
  intros Hl Hc. unfold df_getitem. rewrite bind_run, (get_frame_run h l f) by done.
  by rewrite Hc.
Qed.

Lemma df_get_index_run (h : store) (l : loc) (f : DataFrame) :
  h !! l = Some (OFrame f) -> df_get_index l h = (Ok (df_index f), h).
Proof.
  intros Hl. unfold df_get_index. by rewrite bind_run, (get_frame_run h l f).
Qed.

Lemma df_setitem_run (h : store) (l : loc) (f : DataFrame) (c : string) (v : column) :
  h !! l = Some (OFrame f) ->
  df_setitem l c v h
  = (Ok tt, <[l := OFrame (mkFrame (df_index f) (<[c := v]> (df_cols f)))]> h).
Proof.
  intros Hl. unfold df_setitem. by rewrite bind_run, (get_frame_run h l f Hl).
Qed.

(** On an object just written at [l], the operations on [l] read it and
    replace it. *)
Lemma get_frame_ins (h : store) (l : loc) (f : DataFrame) :
  get_frame l (<[l := OFrame f]> h) = (Ok f, <[l := OFrame f]> h).
Proof. apply get_frame_run, lookup_insert_eq. Qed.

Lemma df_getitem_ins (h : store) (l : loc) (f : DataFrame) (c : string) (v : column) :
  df_cols f !! c = Some v ->
  df_getitem l c (<[l := OFrame f]> h) = (Ok v, <[l := OFrame f]> h).
Proof. intros Hc. eapply df_getitem_run; [apply lookup_insert_eq|done]. Qed.

Lemma df_get_index_ins (h : store) (l : loc) (f : DataFrame) :
  df_get_index l (<[l := OFrame f]> h) = (Ok (df_index f), <[l := OFrame f]> h).
Proof. apply df_get_index_run, lookup_insert_eq. Qed.

Lemma df_setitem_ins (h : store) (l : loc) (f : DataFrame) (c : string) (v : column) :
  df_setitem l c v (<[l := OFrame f]> h)
  = (Ok tt, <[l := OFrame (mkFrame (df_index f) (<[c := v]> (df_cols f)))]> h).
Proof.
  unfold df_setitem. rewrite bind_run, get_frame_ins. cbv beta iota.
  unfold put_frame. by rewrite insert_insert_eq.
Qed.

Lemma df_setitem_scalar_ins (h : store) (l : loc) (f : DataFrame) (c : string) (x : fl) :
  df_setitem_scalar l c x (<[l := OFrame f]> h)
  = (Ok tt, <[l := OFrame (mkFrame (df_index f)
                  (<[c := replicate (length (df_index f)) x]> (df_cols f)))]> h).
Proof.
  unfold df_setitem_scalar. rewrite bind_run, get_frame_ins. cbv beta iota.
  unfold put_frame. by rewrite insert_insert_eq.
Qed.

Lemma df_loc_setitem_ins (h : store) (l : loc) (f : DataFrame)
    (mask : list bool) (c : string) (x : fl) (old : column) :
  df_cols f !! c = Some old ->
  df_loc_setitem l mask c x (<[l := OFrame f]> h)
  = (Ok tt, <[l := OFrame (mkFrame (df_index f)
                  (<[c := zip_with (fun (m : bool) y => if m then x else y) mask old]>
                     (df_cols f)))]> h).
Proof.
  intros Hc. unfold df_loc_setitem. rewrite bind_run, get_frame_ins. cbv beta iota.
  unfold put_frame. by rewrite Hc, insert_insert_eq.
Qed.

Tactic Notation "run_step" uconstr(lem) :=
  rewrite bind_run, lem; [cbv beta iota | try (simpl; by simplify_map_eq) ..].

Lemma strategy_momentum_run (h : store) (df : loc) (f : DataFrame)
    (lookback : nat) (cap : Q) (close ret : column) :
  h !! df = Some (OFrame f) ->
  df_cols f !! "close" = Some close ->
  df_cols f !! "return" = Some ret ->
  strategy_momentum df lookback cap h
  = (Ok (fresh (dom h)),
     <[fresh (dom h) := OFrame (momentum_frame f lookback close ret cap)]> h).
Proof.
  intros Hdf Hclose Hret. unfold strategy_momentum.
  run_step (df_copy_run h df f Hdf).
  set (s := fresh (dom h)).
  run_step (df_getitem_ins h s f "close" close).
  run_step df_setitem_ins.
  run_step df_setitem_scalar_ins.
  run_step (df_getitem_ins h s _ "close" close).
  run_step (df_getitem_ins h s _ "ma" (rolling_mean lookback close)).
  run_step (df_loc_setitem_ins h s _ _ "position" (Fin 1)
              (replicate (length (df_index f)) (Fin 0))).
  run_step (df_getitem_ins h s _ "position"
              (momentum_position (length (df_index f)) lookback close)).
  run_step (df_getitem_ins h s _ "return" ret).
  run_step df_setitem_ins.
  run_step (df_getitem_ins h s _ "strategy_return"
              (col_mul (shift1 (momentum_position (length (df_index f)) lookback close)) ret)).
  run_step df_setitem_ins.
  run_step (df_getitem_ins h s _ "strategy_return"
              (momentum_return (length (df_index f)) lookback close ret)).
  run_step df_setitem_ins.
  unfold mret, M_ret. f_equal. f_equal. f_equal. unfold momentum_frame. simpl.
  f_equal.
  rewrite (insert_insert_eq _ "strategy_return").
  rewrite (insert_insert_eq _ "position"). reflexivity.
Qed.

(* ===================================================================== *)
(** ** Columns *)
(* ===================================================================== *)

Lemma shift1_length (l : column) : length (shift1 l) = length l.
Proof. unfold shift1. rewrite length_take. simpl. lia. Qed.

Lemma shift1_lookup_0 (l : column) : l <> [] -> shift1 l !! 0%nat = Some NaN.
Proof. destruct l; [done|]. reflexivity. Qed.

Lemma shift1_lookup_S (l : column) (t : nat) :
  (S t < length l)%nat -> shift1 l !! S t = l !! t.
Proof. intros Ht. unfold shift1. by rewrite lookup_take_lt. Qed.

Lemma fillna_length (v : fl) (l : column) : length (fillna v l) = length l.
Proof. apply length_map. Qed.

Lemma fillna_lookup (v : fl) (l : column) (i : nat) :
  fillna v l !! i = (fun x => if isna x then v else x) <$> l !! i.
Proof. apply (list_lookup_fmap (fun x => if isna x then v else x)). Qed.

Lemma rolling_mean_length (w : nat) (l : column) :
  length (rolling_mean w l) = length l.
Proof. apply length_imap. Qed.

Lemma rolling_mean_lookup (w : nat) (l : column) (i : nat) (x : fl) :
  l !! i = Some x ->
  rolling_mean w l !! i
  = Some (if (S i <? w)%nat then NaN
          else if forallb isfinite (window w l i)
               then fdiv (fsum (window w l i)) (Fin (inject_Z (Z.of_nat w)))
               else NaN).
Proof. intros Hx. unfold rolling_mean. by rewrite list_lookup_imap, Hx. Qed.

Lemma window_Fin (w : nat) (qs : list Q) (i : nat) :
  window w (map Fin qs) i = map Fin (take w (drop (S i - w) qs)).
Proof.
  unfold window. change (map Fin) with (fmap (M:=list) Fin).
  by rewrite <- fmap_drop, <- fmap_take.
Qed.

Lemma forallb_isfinite_Fin (qs : list Q) : forallb isfinite (map Fin qs) = true.
Proof. induction qs; simpl; auto. Qed.

(** On finite closes the moving average is missing before the window is
    full and is the mean of the last [w] closes from then on. *)
Lemma rolling_mean_Fin (w : nat) (qs : list Q) (i : nat) (q : Q) :
  (1 <= w)%nat -> qs !! i = Some q ->
  rolling_mean w (map Fin qs) !! i = Some (ma_spec w qs i).
Proof.
  intros Hw Hq. unfold ma_spec, trailing_mean.
  rewrite (rolling_mean_lookup w _ i (Fin q)).
  2:{ change (map Fin) with (fmap (M:=list) Fin). by rewrite list_lookup_fmap, Hq. }
  destruct (S i <? w)%nat; [done|].
  rewrite window_Fin, forallb_isfinite_Fin. unfold fsum. rewrite foldl_fadd_Fin.
  rewrite fdiv_Fin; [done|]. apply inject_nat_nonzero. lia.
Qed.

Lemma momentum_position_length (n lookback : nat) (close : column) :
  length close = n -> length (momentum_position n lookback close) = n.
Proof.
  intros Hn. unfold momentum_position, col_gt, momentum_ma.
  rewrite !length_zip_with, rolling_mean_length, length_replicate. lia.
Qed.

(** The position is 1 where the close is above the moving average and 0
    elsewhere. *)
Lemma momentum_position_lookup (n lookback : nat) (close : column) (i : nat) (c : fl) :
  length close = n -> close !! i = Some c ->
  exists m, momentum_ma lookback close !! i = Some m
    /\ momentum_position n lookback close !! i = Some (of_bool (fgtb c m)).
Proof.
  intros Hn Hc. unfold momentum_ma.
  assert (i < length close)%nat as Hi by (by apply lookup_lt_Some in Hc).
  destruct (lookup_lt_is_Some_2 (rolling_mean lookback close) i) as [m Hm].
  { by rewrite rolling_mean_length. }
  exists m. split; [done|]. unfold momentum_position, col_gt, momentum_ma.
  rewrite !lookup_zip_with, Hc, Hm, lookup_replicate_2 by lia. simpl.
  by destruct (fgtb c m).
Qed.

Lemma momentum_return_length (n lookback : nat) (close ret : column) :
  length close = n -> length ret = n ->
  length (momentum_return n lookback close ret) = n.
Proof.
  intros Hc Hr. unfold momentum_return, col_mul.
  rewrite fillna_length, length_zip_with, shift1_length,
    momentum_position_length by done. lia.
Qed.

(** The shift by one day: the return of day [t+1] is weighted by the
    position of day [t]; the first day has no position and earns 0. *)
Lemma momentum_return_lookup (n lookback : nat) (close ret : column) :
  length close = n -> length ret = n ->
  (forall r0, ret !! 0%nat = Some r0 ->
     momentum_return n lookback close ret !! 0%nat = Some (Fin 0))
  /\ (forall t r, ret !! S t = Some r ->
        exists p, momentum_position n lookback close !! t = Some p
          /\ momentum_return n lookback close ret !! S t
             = Some (if isna (fmul p r) then Fin 0 else fmul p r)).
Proof.
  intros Hc Hr. split.
  - intros r0 H0. unfold momentum_return, col_mul.
    rewrite fillna_lookup, lookup_zip_with, shift1_lookup_0, H0; [done|].
    intros Hnil. apply (f_equal length) in Hnil.
    rewrite momentum_position_length in Hnil by done.
    apply lookup_lt_Some in H0. simpl in Hnil. lia.
  - intros t r Ht.
    assert (S t < n)%nat as Hlt by (apply lookup_lt_Some in Ht; lia).
    destruct (lookup_lt_is_Some_2 (momentum_position n lookback close) t) as [p Hp].
    { rewrite momentum_position_length by done. lia. }
    exists p. split; [done|]. unfold momentum_return, col_mul.
    rewrite fillna_lookup, lookup_zip_with, shift1_lookup_S, Hp, Ht; [done|].
    rewrite momentum_position_length by done. lia.
Qed.
(* ===================================================================== *)
(** ** Sharpe ratio *)
(* ===================================================================== *)

Section Sharpe.
Context `{FloatSqrt}.

Lemma sqrtQ_pos_bool (x : Q) :
  0 < x -> Qeq_bool (sqrtQ x) 0 = false /\ Qltb 0 (sqrtQ x) = true.
Proof.
  intros Hx. pose proof (sqrtQ_pos x Hx) as Hs. split.
  - apply Qeq_bool_false. intros Heq. rewrite Heq in Hs. revert Hs. apply Qlt_irrefl.
  - apply Qltb_true, Hs.
Qed.

Lemma fmul_inf_sqrt (b : bool) (x : Q) :
  0 < x -> fmul (finf b) (fsqrt (Fin x)) = finf b.
Proof.
  intros Hx. unfold fsqrt.
  assert (Qltb x 0 = false) as -> by (apply Qltb_false; lra).
  destruct (sqrtQ_pos_bool x Hx) as [H0 H1].
  assert (Qltb (sqrtQ x) 0 = false) as H2.
  { apply Qltb_false. apply Qltb_true in H1. lra. }
  destruct b; simpl; rewrite H0, ?H1, ?H2; reflexivity.
Qed.


Lemma replicate_Fin (n : nat) (c : Q) :
  replicate n (Fin c) = map Fin (replicate n c).
Proof. induction n; simpl; congruence. Qed.

Lemma dropna_replicate_Fin (n : nat) (c : Q) :
  dropna (replicate n (Fin c)) = replicate n (Fin c).
Proof. induction n; simpl; congruence. Qed.

Lemma map_replicate {A B} (f : A -> B) (n : nat) (x : A) :
  map f (replicate n x) = replicate n (f x).
Proof. induction n; simpl; congruence. Qed.

Lemma fsum_replicate (n : nat) (c : Q) :
  exists t, fsum (replicate n (Fin c)) = Fin t /\ t == inject_Z (Z.of_nat n) * c.
Proof.
  unfold fsum. rewrite replicate_Fin, foldl_fadd_Fin. eexists; split; [done|].
  rewrite foldl_Qplus_replicate. ring.
Qed.

(** The mean of a constant series is the constant. *)
Lemma col_mean_replicate (n : nat) (c : Q) :
  n <> 0%nat -> exists m, col_mean (replicate n (Fin c)) = Fin m /\ m == c.
Proof.
  intros Hn. unfold col_mean. rewrite dropna_replicate_Fin.
  destruct n as [|n]; [done|]. rewrite length_replicate.
  change (replicate (S n) (Fin c)) with (Fin c :: replicate n (Fin c)) at 1.
  cbv iota beta.
  destruct (fsum_replicate (S n) c) as (t & -> & Ht).
  unfold fnat, fdiv. rewrite inject_nat_nonzero by done.
  eexists; split; [done|]. rewrite Ht. field.
  intros Hz. apply (Qeq_bool_false (inject_Z (Z.of_nat (S n))) 0); [|exact Hz].
  by apply inject_nat_nonzero.
Qed.

(** The standard deviation of a constant series of two cells or more is 0. *)
Lemma col_std_replicate (n : nat) (c : Q) :
  (2 <= n)%nat -> exists s, col_std (replicate n (Fin c)) = Fin s /\ s == 0.
Proof.
  intros Hn. unfold col_std. rewrite dropna_replicate_Fin, length_replicate.
  destruct (Nat.leb_spec n 1) as [?|_]; [lia|].
  destruct (fsum_replicate n c) as (t & -> & Ht).
  unfold fnat. rewrite !fdiv_Fin by (apply inject_nat_nonzero; lia).
  assert (~ inject_Z (Z.of_nat n) == 0) as Hn0.
  { apply Qeq_bool_false, inject_nat_nonzero. lia. }
  assert (t / inject_Z (Z.of_nat n) == c) as Havg by (rewrite Ht; by field).
  rewrite map_replicate. cbn [fsub fopp fadd fmul].
  destruct (fsum_replicate n ((t / inject_Z (Z.of_nat n) + - c)
                              * (t / inject_Z (Z.of_nat n) + - c)))
    as (u & -> & Hu).
  assert (u == 0) as Hu0 by (rewrite Hu, Havg; ring).
  rewrite fdiv_Fin by (apply inject_nat_nonzero; lia).
  unfold fsqrt.
  assert (Qltb (u / inject_Z (Z.of_nat (n - 1))) 0 = false) as ->.
  { apply Qltb_false. rewrite Hu0. unfold Qdiv. rewrite Qmult_0_l. apply Qle_refl. }
  eexists; split; [done|]. apply sqrtQ_zero.
  rewrite Hu0. unfold Qdiv. apply Qmult_0_l.
Qed.

(** Without a guard on the standard deviation, the ratio of a constant
    series is an infinity with the sign of the excess return (NaN when the
    excess return is 0 too). *)
Lemma sharpe_ratio_constant (n : nat) (c rf : Q) (p : nat) :
  (2 <= n)%nat -> p <> 0%nat ->
  sharpe_ratio (replicate n (Fin c)) rf p
  = Ok (let e := c - rf / inject_Z (Z.of_nat p) in
        if Qeq_bool e 0 then NaN else finf (Qltb 0 e)).
Proof.
  intros Hn Hp. unfold sharpe_ratio. rewrite decide_False by done.
  unfold col_sub_scalar. rewrite map_replicate. cbn [fsub fopp fadd].
  set (e := c + - (rf / inject_Z (Z.of_nat p))).
  destruct (col_mean_replicate n e) as (m & -> & Hm); [lia|].
  destruct (col_std_replicate n e Hn) as (s & -> & Hs).
  f_equal. unfold fdiv. rewrite (Qeq_eq_bool _ _ Hs).
  change (c - rf / inject_Z (Z.of_nat p)) with e. cbv zeta.
  rewrite <- (Qeqb_comp m e Hm 0 0 (Qeq_refl 0)).
  destruct (Qeq_bool m 0); [done|].
  assert (Qltb 0 e = Qltb 0 m) as ->.
  { unfold Qltb. f_equal. apply Qleb_comp; [by symmetry | reflexivity]. }
  apply fmul_inf_sqrt. unfold Qlt; simpl. lia.
Qed.



(** With a positive divisor count the ratio is the formula of the
    docstring, whatever the standard deviation is. *)
Lemma sharpe_ratio_formula (returns : column) (rf : Q) (p : nat) :
  p <> 0%nat ->
  sharpe_ratio returns rf p
  = Ok (let excess := col_sub_scalar returns (Fin (rf / inject_Z (Z.of_nat p))) in
        fmul (fdiv (col_mean excess) (col_std excess)) (fsqrt (fnat p))).
Proof. intros Hp. unfold sharpe_ratio. by rewrite decide_False. Qed.

Lemma cumprod_from_length (l : column) (acc : fl) :
  length (cumprod_from acc l) = length l.
Proof.
  revert acc. induction l as [|x l IH]; intros acc; simpl; [done|].
  destruct (isna x); simpl; by rewrite IH.
Qed.

Lemma iloc_last_nonempty (l : column) :
  l <> [] -> exists x, iloc_last l = Ok x /\ last l = Some x.
Proof.
  intros Hl. unfold iloc_last. destruct (last l) as [x|] eqn:Hx; [by exists x|].
  by apply last_None in Hx.
Qed.

(** [summarize_performance] guards the division: its Sharpe ratio is the
    formula when the standard deviation is positive and NaN otherwise. *)
Lemma summarize_performance_sharpe (daily_ret : column) :
  daily_ret <> [] ->
  exists r, summarize_performance daily_ret = Ok r
    /\ sharpe r =
       if fgtb (col_std daily_ret) (Fin 0)
       then fmul (fdiv (col_mean daily_ret) (col_std daily_ret)) (fsqrt (Fin 252))
       else NaN.
Proof.
  intros Hne. unfold summarize_performance.
  set (equity := col_mul_scalar _ _).
  destruct (iloc_last_nonempty equity) as (x & -> & _).
  { intros Heq. apply (f_equal length) in Heq. revert Heq.
    unfold equity, col_mul_scalar, cumprod, col_radd_scalar.
    rewrite length_map, cumprod_from_length, length_map.
    destruct daily_ret; [done|discriminate]. }
  eexists; split; [reflexivity|reflexivity].
Qed.

Lemma summarize_performance_constant (n : nat) (c : Q) :
  (2 <= n)%nat ->
  exists r, summarize_performance (replicate n (Fin c)) = Ok r /\ sharpe r = NaN.
Proof.
  intros Hn.
  destruct (summarize_performance_sharpe (replicate n (Fin c))) as (r & Hr & Hs).
  { destruct n; [lia|discriminate]. }
  exists r; split; [done|]. rewrite Hs.
  destruct (col_std_replicate n c Hn) as (s & -> & Hs0).
  unfold fgtb, fltb, fleb.
  assert (Qle_bool s 0 = true) as -> by (apply Qle_bool_iff; lra).
  by rewrite andb_false_r.
Qed.

(** C2.  On the constant series [0.5, 0.5, 0.5] (standard deviation 0)
    [sharpe_ratio] returns plus infinity, while [summarize_performance]
    reports NaN for the same series. *)
Theorem sharpe_ratio_constant_series_infinite :
  sharpe_ratio [Fin (1 # 2); Fin (1 # 2); Fin (1 # 2)] 0 252 = Ok PInf
  /\ exists r, summarize_performance [Fin (1 # 2); Fin (1 # 2); Fin (1 # 2)] = Ok r
             /\ sharpe r = NaN.
Proof.
  split.
  - exact (sharpe_ratio_constant 3 (1 # 2) 0 252 ltac:(lia) ltac:(lia)).
  - exact (summarize_performance_constant 3 (1 # 2) ltac:(lia)).
Qed.

End Sharpe.
(* ===================================================================== *)
(** ** Maximum drawdown *)
(* ===================================================================== *)

Lemma nondecreasing_cons (x : fl) (l : column) :
  nondecreasing (x :: l) <-> chain x l.
Proof.
  revert x. induction l as [|y l IH]; intros x.
  - split; [done|]. intros _ [|i] a b Ha Hb; simpl in *; discriminate.
  - split.
    + intros Hn. split.
      * exact (Hn 0%nat x y eq_refl eq_refl).
      * apply IH. intros i a b Ha Hb. exact (Hn (S i) a b Ha Hb).
    + intros [Hxy Hc] [|i] a b Ha Hb.
      * simpl in *. by simplify_eq.
      * apply IH in Hc. exact (Hc i a b Ha Hb).
Qed.

Lemma chain_NInf (l : column) :
  Forall positive_cell l -> chain NInf l <-> nondecreasing l.
Proof.
  destruct l as [|x l]; intros Hl.
  - split; [|done]. intros _ i a b Ha; discriminate.
  - rewrite nondecreasing_cons. simpl. split; [tauto|]. intros Hc; split; [|done].
    inversion Hl as [|? ? (q & -> & _) _]; subst. reflexivity.
Qed.

Lemma chain_Fin_proper (a b : Q) (l : column) :
  a == b -> chain (Fin a) l <-> chain (Fin b) l.
Proof.
  intros Hab. destruct l as [|y l]; [done|]. simpl.
  assert (fle (Fin a) y <-> fle (Fin b) y) as ->; [|done].
  unfold fle. destruct y; simpl; try done. by rewrite Hab.
Qed.

Lemma drawdown_step (a q : Q) :
  0 < q -> q <= a -> exists d, fsub (fdiv (Fin q) (Fin a)) (Fin 1) = Fin d /\ d <= 0
                               /\ (d == 0 <-> a <= q).
Proof.
  intros Hq Ha. rewrite fdiv_Fin by (apply Qeq_bool_false; lra).
  simpl. eexists; split; [done|].
  assert (0 < a) as Hap by lra.
  assert (q / a <= 1) as H1.
  { apply Qle_shift_div_r; lra. }
  split; [lra|]. split.
  - intros Hd. assert (q / a == 1) as Hqa by lra.
    assert (q == a) as ->; [|lra].
    rewrite <- (Qmult_div_r q a) by lra. rewrite Hqa. ring.
  - intros Haq. assert (q == a) as -> by lra. field_simplify_eq; lra.
Qed.

Lemma drawdown_from_spec (E : column) (acc : fl) :
  positive_curve E -> acc = NInf \/ positive_cell acc ->
  Forall nonpos_cell (drawdown_from acc E)
  /\ (Forall (fun d => d ≡ Fin 0) (drawdown_from acc E) <-> chain acc E).
Proof.
  intros HE. revert acc. induction HE as [|x E (q & -> & Hq) HE IH]; intros acc Hacc.
  - split; [constructor|]. split; [done|constructor].
  - unfold drawdown_from. cbn [cummax_from isna].
    assert (exists m, fmax acc (Fin q) = Fin m /\ 0 < m /\ q <= m
                      /\ (m <= q <-> fle acc (Fin q))) as (m & Hm & Hmp & Hqm & Hle).
    { destruct Hacc as [->|(a & -> & Ha)].
      - exists q. simpl. repeat split; try lra; try done.
      - unfold fmax, fle. simpl. destruct (Qle_bool a q) eqn:Haq.
        + exists q. apply Qle_bool_iff in Haq. repeat split; try lra; done.
        + exists a. assert (~ a <= q) by (rewrite <- Qle_bool_iff; congruence).
          repeat split; try lra; try done. }
    cbv zeta. rewrite Hm. cbn [col_div col_sub_scalar zip_with map].
    destruct (drawdown_step m q Hq Hqm) as (d & -> & Hd & Hd0).
    destruct (IH (Fin m)) as [IH1 IH2]; [right; by exists m|].
    split.
    + constructor; [by exists d|]. exact IH1.
    + rewrite Forall_cons. cbn [chain]. rewrite <- Hle, <- Hd0.
      unfold drawdown_from in IH2. rewrite IH2.
      change (Fin d ≡ Fin 0) with (d == 0).
      assert (d == 0 -> chain (Fin m) E <-> chain (Fin q) E) as Hch.
      { intros Hz. apply chain_Fin_proper. apply Hd0 in Hz. lra. }
      split; intros [H1 H2]; (split; [done|]); by apply (Hch H1).
Qed.

(** The minimum of a column of finite cells is one of them and is below
    all of them. *)
Lemma foldl_fmin_spec (l : column) (x : fl) :
  Forall (fun y => isfinite y = true) (x :: l) ->
  In (foldl fmin x l) (x :: l) /\ Forall (fle (foldl fmin x l)) (x :: l).
Proof.
  revert x. induction l as [|y l IH]; intros x Hfin.
  - simpl. split; [by left|]. constructor; [|constructor].
    inversion Hfin as [|? ? Hx _]; subst. destruct x; try discriminate.
    apply Qle_bool_iff, Qle_refl.
  - cbn [foldl].
    inversion Hfin as [|? ? Hx Hfin']; subst.
    inversion Hfin' as [|? ? Hy Hl]; subst.
    destruct x as [a| | |]; try discriminate. destruct y as [b| | |]; try discriminate.
    assert (exists c, fmin (Fin a) (Fin b) = Fin c /\ c <= a /\ c <= b /\ (c = a \/ c = b))
      as (c & Hc & Hca & Hcb & Hcc).
    { unfold fmin. simpl. destruct (Qle_bool b a) eqn:Hba.
      - apply Qle_bool_iff in Hba. exists b. repeat split; try lra; auto.
      - assert (~ b <= a) by (rewrite <- Qle_bool_iff; congruence).
        exists a. repeat split; try lra; auto. }
    rewrite Hc. destruct (IH (Fin c)) as [Hin Hall]; [by constructor|].
    split.
    + destruct Hin as [Hin|Hin].
      * rewrite <- Hin. destruct Hcc as [->| ->]; [by left | right; by left].
      * right; by right.
    + inversion Hall as [|? ? Hmc Hml]; subst.
      assert (forall z, z <= c -> forall e, c <= e -> fle (Fin z) (Fin e)) as Htr.
      { intros z Hz e He. apply Qle_bool_iff. lra. }
      assert (isfinite (foldl fmin (Fin c) l) = true) as Hf.
      { destruct Hin as [<-|Hin]; [done|].
        rewrite Forall_forall in Hl. apply Hl. by apply list_elem_of_In. }
      destruct (foldl fmin (Fin c) l) as [z| | |] eqn:Hz; try discriminate.
      apply Qle_bool_iff in Hmc.
      constructor; [by apply (Htr z Hmc)|]. constructor; [by apply (Htr z Hmc)|done].
Qed.

Lemma nonpos_cell_finite (l : column) :
  Forall nonpos_cell l -> forallb isfinite l = true /\ Forall (fun y => isfinite y = true) l.
Proof.
  induction 1 as [|x l (q & -> & _) _ [IH1 IH2]]; [done|].
  simpl. split; [done|]. by constructor.
Qed.


Lemma col_min_nonpos (D : column) :
  D <> [] -> Forall nonpos_cell D ->
  fle (col_min D) (Fin 0)
  /\ (col_min D ≡ Fin 0 <-> Forall (fun d => d ≡ Fin 0) D).
Proof.
  intros Hne HD. destruct (nonpos_cell_finite D HD) as [Hfb Hf].
  unfold col_min. rewrite (dropna_finite D Hfb).
  destruct D as [|d0 D']; [done|].
  destruct (foldl_fmin_spec D' d0 Hf) as [Hin Hall].
  rewrite Forall_forall in HD.
  destruct (HD (foldl fmin d0 D')) as (m & Hm & Hm0); [by apply list_elem_of_In|].
  rewrite Hm in *. split; [by apply Qle_bool_iff|]. split.
  - intros Hz. apply Forall_forall. intros d Hd.
    destruct (HD d Hd) as (q & -> & Hq).
    rewrite Forall_forall in Hall. specialize (Hall _ Hd).
    apply Qle_bool_iff in Hall. change (m == 0) in Hz. change (q == 0). lra.
  - intros Hz. rewrite Forall_forall in Hz. apply Hz. by apply list_elem_of_In.
Qed.

(** The running maximum of a positive curve is a positive curve that
    never decreases. *)
Lemma cummax_from_chain (E : column) (acc : fl) :
  positive_curve E -> acc = NInf \/ positive_cell acc ->
  positive_curve (cummax_from acc E) /\ chain acc (cummax_from acc E).
Proof.
  intros HE. revert acc. induction HE as [|x E (q & -> & Hq) HE IH]; intros acc Hacc.
  - split; [constructor|done].
  - cbn [cummax_from isna]. cbv zeta.
    assert (exists m, fmax acc (Fin q) = Fin m /\ 0 < m /\ fle acc (Fin m))
      as (m & -> & Hm & Hle).
    { destruct Hacc as [->|(a & -> & Ha)].
      - exists q. by repeat split.
      - unfold fmax, fle. simpl. destruct (Qle_bool a q) eqn:Haq.
        + exists q. by repeat split.
        + exists a. repeat split; [done|]. apply Qle_bool_iff, Qle_refl. }
    destruct (IH (Fin m)) as [IH1 IH2]; [right; by exists m|].
    split; [constructor; [by exists m|done]|]. by split.
Qed.

(** C3.  On a non-empty curve of positive finite cells the maximum drawdown
    is at most 0, and it is 0 exactly when the curve never decreases; a
    curve that never decreases has drawdown 0 on every date, and so has
    the running maximum of any curve, fed back as a curve. *)
Theorem max_drawdown_nonpositive (E : column) :
  E <> [] -> positive_curve E ->
  fle (max_drawdown E) (Fin 0)
  /\ (max_drawdown E ≡ Fin 0 <-> nondecreasing E)
  /\ (nondecreasing E -> Forall (fun d => d ≡ Fin 0) (drawdown E))
  /\ Forall (fun d => d ≡ Fin 0) (drawdown (cummax E)).
Proof.
  intros Hne HE.
  destruct (drawdown_from_spec E NInf HE (or_introl eq_refl)) as [Hnp Hz].
  change (drawdown_from NInf E) with (drawdown E) in *.
  rewrite (chain_NInf E HE) in Hz.
  assert (drawdown E <> []) as HD.
  { destruct E as [|x E]; [done|]. unfold drawdown, cummax. simpl.
    destruct (isna x); discriminate. }
  destruct (col_min_nonpos (drawdown E) HD Hnp) as [Hle Hiff].
  unfold max_drawdown. split; [done|]. split; [by rewrite Hiff|].
  split; [apply Hz|].
  destruct (cummax_from_chain E NInf HE (or_introl eq_refl)) as [Hpos Hchain].
  fold (cummax E) in Hpos, Hchain.
  destruct (drawdown_from_spec (cummax E) NInf Hpos (or_introl eq_refl)) as [_ Hz'].
  apply Hz', Hchain.
Qed.

Lemma max_drawdown_nonpositive_witness :
  fle (max_drawdown [Fin 100; Fin 90; Fin 120]) (Fin 0)
  /\ (max_drawdown [Fin 100; Fin 90; Fin 120] ≡ Fin 0
      <-> nondecreasing [Fin 100; Fin 90; Fin 120])
  /\ (nondecreasing [Fin 100; Fin 90; Fin 120]
      -> Forall (fun d => d ≡ Fin 0) (drawdown [Fin 100; Fin 90; Fin 120]))
  /\ Forall (fun d => d ≡ Fin 0) (drawdown (cummax [Fin 100; Fin 90; Fin 120])).
Proof.
  apply max_drawdown_nonpositive; [done|].
  repeat constructor; eexists; (split; [reflexivity|reflexivity]).
Defined.

(* ===================================================================== *)
(** ** Equity curve: [cumprod(1 + R)] *)
(* ===================================================================== *)

(** A cell that is not below 0 is a finite number from 0 up, or plus
    infinity. *)
Lemma nonneg_cell_cases (x : fl) :
  fle (Fin 0) x -> x = PInf \/ exists q, x = Fin q /\ 0 <= q.
Proof.
  destruct x as [q| | |]; unfold fle, fleb; intros Hx; try discriminate.
  - right. exists q. split; [done|]. by apply Qle_bool_iff.
  - by left.
Qed.

(** From a positive starting value, plus infinity included, the curve of
    returns that are not below 0 never decreases and stays positive. *)
Lemma cumprod_from_chain_nonneg (R : column) (acc : fl) :
  acc = PInf \/ (exists a, acc = Fin a /\ 0 < a) ->
  Forall (fun x => fle (Fin 0) x) R ->
  chain acc (cumprod_from acc (col_radd_scalar (Fin 1) R))
  /\ Forall (fun y => y = PInf \/ exists b, y = Fin b /\ 0 < b)
       (cumprod_from acc (col_radd_scalar (Fin 1) R)).
Proof.
  intros Hacc HR. revert acc Hacc.
  induction HR as [|x R Hx _ IH]; intros acc Hacc; [by split|].
  cbn [col_radd_scalar map cumprod_from].
  assert (isna (fadd (Fin 1) x) = false
          /\ fle acc (fmul acc (fadd (Fin 1) x))
          /\ (fmul acc (fadd (Fin 1) x) = PInf
              \/ exists b, fmul acc (fadd (Fin 1) x) = Fin b /\ 0 < b))
    as (-> & Hle & Hpos).
  { destruct (nonneg_cell_cases x Hx) as [->|(q & -> & Hq)];
      destruct Hacc as [->|(a & -> & Ha)]; cbn [fadd isna fmul].
    - split; [done|]. split; [done|]. by left.
    - rewrite (proj2 (Qeq_bool_false a 0)) by lra.
      rewrite (proj2 (Qltb_true 0 a)) by done.
      split; [done|]. split; [done|]. by left.
    - rewrite (proj2 (Qeq_bool_false (1 + q) 0)) by lra.
      rewrite (proj2 (Qltb_true 0 (1 + q))) by lra.
      split; [done|]. split; [done|]. by left.
    - split; [done|]. split.
      + unfold fle, fleb. apply Qle_bool_iff. nra.
      + right. eexists. split; [done|]. nra. }
  cbv zeta. destruct (IH _ Hpos) as [Hchain Hall].
  split; [by split|by constructor].
Qed.

(** Scaling by a positive capital keeps the order of positive cells. *)
Lemma chain_scale (c : Q) (l : column) (a : fl) :
  0 < c ->
  a = PInf \/ (exists q, a = Fin q /\ 0 < q) ->
  Forall (fun y => y = PInf \/ exists b, y = Fin b /\ 0 < b) l ->
  chain a l -> chain (fmul a (Fin c)) (col_mul_scalar l (Fin c)).
Proof.
  intros Hc Ha Hl. revert a Ha.
  induction Hl as [|y l Hy _ IH]; intros a Ha; [done|].
  cbn [chain col_mul_scalar map]. intros [Hay Hchain].
  split; [|by apply IH].
  destruct Ha as [->|(p & -> & Hp)]; destruct Hy as [->|(q & -> & Hq)];
    cbn [fmul]; rewrite ?(proj2 (Qeq_bool_false c 0)) by lra;
    rewrite ?(proj2 (Qltb_true 0 c)) by done; try done.
  unfold fle, fleb in *. apply Qle_bool_iff in Hay. apply Qle_bool_iff. nra.
Qed.

Lemma chain_nondecreasing (a : fl) (l : column) : chain a l -> nondecreasing l.
Proof.
  destruct l as [|x l]; [intros _ i u v Hu; discriminate|].
  intros [_ Hc]. by apply nondecreasing_cons.
Qed.

Lemma fillna_present (v : fl) (l : column) :
  Forall (fun x => isna x = false) l -> fillna v l = l.
Proof.
  induction 1 as [|x l Hx _ IH]; [done|]. cbn [fillna map]. rewrite Hx.
  f_equal. exact IH.
Qed.

(** C8, as the code has it.  When no return is below 0 (none missing,
    plus infinity allowed), the curve [cumprod(1 + R)] never decreases,
    taken from its starting value 1 and as the series itself, and neither
    does the equity the script and [summarize_performance] make of it by
    scaling with the capital. *)
Theorem cumprod_nondecreasing (R : column) :
  Forall (fun x => fle (Fin 0) x) R ->
  nondecreasing (Fin 1 :: cumprod (col_radd_scalar (Fin 1) R))
  /\ nondecreasing (cumprod (col_radd_scalar (Fin 1) R))
  /\ nondecreasing (bh_equity R)
  /\ nondecreasing (col_mul_scalar (cumprod (col_radd_scalar (Fin 1) R)) (Fin 100000)).
Proof.
  intros HR.
  destruct (cumprod_from_chain_nonneg R (Fin 1)) as [Hchain Hpos];
    [right; by exists 1|done|].
  fold (cumprod (col_radd_scalar (Fin 1) R)) in Hchain, Hpos.
  assert (nondecreasing
            (col_mul_scalar (cumprod (col_radd_scalar (Fin 1) R)) (Fin 100000)))
    as Hscaled.
  { apply (chain_nondecreasing (fmul (Fin 1) (Fin 100000))).
    apply chain_scale; [reflexivity|right; by exists 1|done|done]. }
  split; [by apply nondecreasing_cons|].
  split; [by apply (chain_nondecreasing (Fin 1))|].
  split; [|exact Hscaled].
  unfold bh_equity. rewrite fillna_present; [exact Hscaled|].
  eapply Forall_impl; [exact HR|]. intros x Hx; simpl in Hx. by destruct x.
Qed.

Lemma cumprod_nondecreasing_witness :
  nondecreasing (Fin 1 :: cumprod (col_radd_scalar (Fin 1) [Fin (1 # 10); PInf; Fin 0]))
  /\ nondecreasing (cumprod (col_radd_scalar (Fin 1) [Fin (1 # 10); PInf; Fin 0]))
  /\ nondecreasing (bh_equity [Fin (1 # 10); PInf; Fin 0])
  /\ nondecreasing
       (col_mul_scalar (cumprod (col_radd_scalar (Fin 1) [Fin (1 # 10); PInf; Fin 0]))
          (Fin 100000)).
Proof.
  apply (cumprod_nondecreasing [Fin (1 # 10); PInf; Fin 0]).
  repeat constructor.
Defined.

(** C8 as stated fails: the one-day series [-0.5] gives the curve [0.5],
    which never decreases, although its return is negative. *)
Lemma cumprod_nondecreasing_not_iff_nonneg :
  ~ (nondecreasing (cumprod (col_radd_scalar (Fin 1) [Fin (-1 # 2)]))
     <-> Forall (fun x => fle (Fin 0) x) [Fin (-1 # 2)]).
Proof.
  intros [Hf _].
  assert (Forall (fun x => fle (Fin 0) x) [Fin (-1 # 2)]) as Hall.
  { apply Hf. intros [|i] x y Hx Hy; simpl in *; discriminate. }
  inversion Hall as [|? ? Hneg _]. discriminate Hneg.
Qed.

(** Nor does the starting value 1 save the converse: after an infinite
    return (the close before was 0) a negative return does not show, the
    curve [1, 1, inf, inf] of the returns [0, inf, -0.5] never
    decreases. *)
Lemma cumprod_from_one_not_iff_nonneg :
  ~ (nondecreasing (Fin 1 :: cumprod (col_radd_scalar (Fin 1) [Fin 0; PInf; Fin (-1 # 2)]))
     <-> Forall (fun x => fle (Fin 0) x) [Fin 0; PInf; Fin (-1 # 2)]).
Proof.
  intros [Hf _].
  assert (Forall (fun x => fle (Fin 0) x) [Fin 0; PInf; Fin (-1 # 2)]) as Hall.
  { apply Hf. apply nondecreasing_cons. vm_compute. tauto. }
  inversion Hall as [|? ? _ H1]. inversion H1 as [|? ? _ H2].
  inversion H2 as [|? ? Hneg _]. discriminate Hneg.
Qed.

Lemma fillna_Fin (v : fl) (qs : list Q) : fillna v (map Fin qs) = map Fin qs.
Proof. induction qs as [|q qs IH]; simpl; [done|]. by rewrite <- IH at 2. Qed.

Lemma cumprod_from_Fin (qs : list Q) (a : Q) :
  exists ps, cumprod_from (Fin a) (col_radd_scalar (Fin 1) (map Fin qs)) = map Fin ps.
Proof.
  revert a. induction qs as [|q qs IH]; intros a.
  - by exists [].
  - cbn [map col_radd_scalar cumprod_from fadd isna fmul].
    destruct (IH (a * (1 + q))) as (ps & Hps). exists (a * (1 + q) :: ps).
    cbn [map]. f_equal. exact Hps.
Qed.


(* ===================================================================== *)
(** ** Dollar-cost averaging *)
(* ===================================================================== *)

Lemma foldr_min_le (a : Z) (l : list Z) : (foldr Z.min a l <= a)%Z.
Proof. induction l as [|x l IH]; simpl; lia. Qed.

Lemma foldr_max_ge (a : Z) (l : list Z) : (a <= foldr Z.max a l)%Z.
Proof. induction l as [|x l IH]; simpl; lia. Qed.

(** A table with a row has a month. *)
Lemma month_bins_nonempty (idx : list Date) :
  idx <> [] -> (1 <= length (month_bins idx))%nat.
Proof.
  destruct idx as [|d idx]; [done|]. intros _. unfold month_bins.
  rewrite length_map, length_seq.
  pose proof (foldr_min_le (month_ord d) (map month_ord (d :: idx))).
  pose proof (foldr_max_ge (month_ord d) (map month_ord (d :: idx))).
  lia.
Qed.

Lemma resample_close (df : DataFrame) (close : column) :
  df_cols df !! "close" = Some close ->
  df_cols (resample_ME_last df) !! "close" = Some (month_end_prices df close)
  /\ length (df_index (resample_ME_last df)) = length (month_end_prices df close).
Proof.
  intros Hc. unfold resample_ME_last, month_end_prices; simpl.
  rewrite lookup_fmap, Hc. by rewrite !length_map.
Qed.

Lemma dca_loop_run (M : Q) (dfm : DataFrame) (prices : column) :
  df_cols dfm !! "close" = Some prices ->
  forall (k s : nat) (acc : fl * fl),
    (s + k <= length prices)%nat ->
    dca_loop M dfm (seq s k) acc
    = Ok (foldl (fun c _ => fadd c (Fin M)) (fst acc) (take k (drop s prices)),
          foldl (fun t p => fadd t (fdiv (Fin M) p)) (snd acc) (take k (drop s prices))).
Proof.
  intros Hc. induction k as [|k IH]; intros s acc Hlen.
  - simpl. by destruct acc.
  - cbn [seq dca_loop]. unfold row_getitem. rewrite Hc.
    destruct (lookup_lt_is_Some_2 prices s) as [p Hp]; [lia|].
    rewrite Hp. cbn [mbind pyres_bind].
    rewrite IH by lia. cbn [fst snd].
    rewrite (drop_S _ _ _ Hp). cbn [take foldl]. done.
Qed.

Lemma foldl_cost (M : Q) (l : column) (a : Q) :
  exists c, foldl (fun c _ => fadd c (Fin M)) (Fin a) l = Fin c
            /\ c == a + M * inject_Z (Z.of_nat (length l)).
Proof.
  revert a. induction l as [|x l IH]; intros a.
  - exists a. split; [done|]. simpl. ring.
  - cbn [foldl fadd]. destruct (IH (a + M)) as (c & -> & Hc).
    exists c; split; [done|]. rewrite Hc. cbn [length].
    rewrite Nat2Z.inj_succ. unfold Z.succ. rewrite inject_Z_plus. ring.
Qed.

Lemma foldl_shares (M : Q) (l : column) (a : fl) :
  foldl (fun t p => fadd t (fdiv (Fin M) p)) a l
  = foldl fadd a (map (fun p => fdiv (Fin M) p) l).
Proof. revert a. induction l as [|x l IH]; intros a; simpl; [done|]. apply IH. Qed.

(** What [strategy_dca] computes on a table with a row. *)
Lemma strategy_dca_run (df : DataFrame) (M : Q) (close : column) :
  df_cols df !! "close" = Some close ->
  length close = length (df_index df) ->
  df_index df <> [] ->
  exists cost last_close,
    last close = Some last_close
    /\ cost == M * inject_Z (Z.of_nat (length (month_end_prices df close)))
    /\ strategy_dca df M =
       Ok (let total_shares :=
             fsum (map (fun p => fdiv (Fin M) p) (month_end_prices df close)) in
           let final_value := fmul total_shares last_close in
           let profit := fsub final_value (Fin cost) in
           mkDca (Fin cost) final_value profit (fdiv profit (Fin cost)) total_shares
             (length (month_end_prices df close))).
Proof.
  intros Hc Hlen Hne. unfold strategy_dca. cbv zeta.
  destruct (resample_close df close Hc) as [Hmc Hml].
  rewrite Hml, (dca_loop_run M _ _ Hmc) by lia.
  rewrite drop_0, firstn_all. cbn [mbind pyres_bind fst snd].
  destruct (foldl_cost M (month_end_prices df close) 0) as (cost & -> & Hcost).
  rewrite foldl_shares. unfold frame_col. rewrite Hc.
  assert (close <> []) as Hcl.
  { intros ->. destruct (df_index df); [done|discriminate]. }
  destruct (last close) as [x|] eqn:Hx; [|by apply last_None in Hx].
  exists cost, x. split; [done|]. split; [rewrite Hcost; ring|].
  cbn [mbind pyres_bind]. unfold iloc_last. rewrite Hx. reflexivity.
Qed.

(** *** The months of a table and their closing prices *)

Lemma foldr_min_spec (a : Z) (l : list Z) :
  (foldr Z.min a l = a \/ foldr Z.min a l ∈ l)
  /\ (forall x, x ∈ l -> (foldr Z.min a l <= x)%Z).
Proof.
  induction l as [|y l [Hin Hle]]; simpl.
  - split; [by left|]. intros x Hx. by apply elem_of_nil in Hx.
  - split.
    + destruct (Z.min_spec y (foldr Z.min a l)) as [[_ ->]|[_ ->]].
      * right. left.
      * destruct Hin as [->|Hin]; [by left|]. right. by right.
    + intros x [->|Hx]%elem_of_cons; [lia|]. specialize (Hle x Hx). lia.
Qed.

Lemma foldr_max_spec (a : Z) (l : list Z) :
  (foldr Z.max a l = a \/ foldr Z.max a l ∈ l)
  /\ (forall x, x ∈ l -> (x <= foldr Z.max a l)%Z).
Proof.
  induction l as [|y l [Hin Hle]]; simpl.
  - split; [by left|]. intros x Hx. by apply elem_of_nil in Hx.
  - split.
    + destruct (Z.max_spec y (foldr Z.max a l)) as [[_ ->]|[_ ->]].
      * destruct Hin as [->|Hin]; [by left|]. right. by right.
      * right. left.
    + intros x [->|Hx]%elem_of_cons; [lia|]. specialize (Hle x Hx). lia.
Qed.

(** The months of a table run from the month of its earliest date to the
    month of its latest, none skipped. *)
Lemma month_bins_spec (idx : list Date) :
  idx <> [] ->
  exists lo hi : Z,
    (exists d, d ∈ idx /\ month_ord d = lo)
    /\ (exists d, d ∈ idx /\ month_ord d = hi)
    /\ (forall d, d ∈ idx -> (lo <= month_ord d <= hi)%Z)
    /\ Z.of_nat (length (month_bins idx)) = (hi - lo + 1)%Z
    /\ forall m, (m < length (month_bins idx))%nat ->
         month_bins idx !! m = Some (lo + Z.of_nat m)%Z.
Proof.
  destruct idx as [|d0 idx]; [done|]. intros _.
  unfold month_bins. cbv zeta. set (I := d0 :: idx).
  set (ords := map month_ord I).
  destruct (foldr_min_spec (month_ord d0) ords) as [Hlo_in Hlo].
  destruct (foldr_max_spec (month_ord d0) ords) as [Hhi_in Hhi].
  set (lo := foldr Z.min (month_ord d0) ords) in *.
  set (hi := foldr Z.max (month_ord d0) ords) in *.
  assert (forall k, k ∈ ords -> exists d, d ∈ I /\ month_ord d = k) as Hord.
  { intros k Hk. unfold ords in Hk. change (map ?g ?l) with (g <$> l) in Hk.
    apply list_elem_of_fmap in Hk as (d & -> & Hd). by exists d. }
  assert (month_ord d0 ∈ ords) as H0 by (unfold ords, I; simpl; left).
  assert (forall d, d ∈ I -> (lo <= month_ord d <= hi)%Z) as Hrange.
  { intros d Hd.
    assert (month_ord d ∈ ords) as Hin.
    { unfold ords. change (map ?g ?l) with (g <$> l). by apply list_elem_of_fmap_2. }
    split; [by apply Hlo|by apply Hhi]. }
  exists lo, hi. split; [|split; [|split; [exact Hrange|]]].
  - apply Hord. by destruct Hlo_in as [->|?].
  - apply Hord. by destruct Hhi_in as [->|?].
  - pose proof (Hrange d0 ltac:(left)) as Hd0.
    rewrite length_map, length_seq. split; [lia|].
    intros m Hm. change (map ?g ?l) with (g <$> l).
    rewrite list_lookup_fmap, lookup_seq_lt by done. reflexivity.
Qed.

(** The closes present among the rows of month [k], in row order. *)
Lemma last_in_bin_cons (k : Z) (d : Date) (idx : list Date) (c : fl) (col : column) :
  dropna (map snd (List.filter (fun p : Date * fl => (month_ord p.1 =? k)%Z)
                     (zip (d :: idx) (c :: col))))
  = (if (month_ord d =? k)%Z && negb (isna c) then [c] else [])
    ++ dropna (map snd (List.filter (fun p : Date * fl => (month_ord p.1 =? k)%Z)
                          (zip idx col))).
Proof.
  cbn [zip zip_with List.filter fst]. destruct (month_ord d =? k)%Z; [|done].
  cbn [map snd dropna List.filter andb]. unfold dropna. by destruct (isna c).
Qed.

(** A month whose rows all lack a close has no closing price. *)
Lemma last_in_bin_all_missing (k : Z) (idx : list Date) (col : column) :
  (forall i d c, idx !! i = Some d -> month_ord d = k -> col !! i = Some c ->
     isna c = true) ->
  dropna (map snd (List.filter (fun p : Date * fl => (month_ord p.1 =? k)%Z)
                     (zip idx col))) = [].
Proof.
  revert col. induction idx as [|d idx IH]; intros col Hmiss; [done|].
  destruct col as [|c col]; [done|]. rewrite last_in_bin_cons.
  rewrite IH by (intros i d' c' Hd' Hk Hc'; exact (Hmiss (S i) d' c' Hd' Hk Hc')).
  destruct (Z.eqb_spec (month_ord d) k) as [Hk|_]; [|done].
  by rewrite (Hmiss 0%nat d c eq_refl Hk eq_refl).
Qed.

(** The closing price of a month is the close of its last row that has
    one. *)
Lemma last_in_bin_last_row (k : Z) (idx : list Date) (col : column)
    (i : nat) (d : Date) (c : fl) :
  idx !! i = Some d -> month_ord d = k -> col !! i = Some c -> isna c = false ->
  (forall j d' c', (i < j)%nat -> idx !! j = Some d' -> month_ord d' = k ->
     col !! j = Some c' -> isna c' = true) ->
  last_in_bin k idx col = c.
Proof.
  intros Hd Hk Hc Hpresent Hlater. unfold last_in_bin.
  assert (last (dropna (map snd
            (List.filter (fun p : Date * fl => (month_ord p.1 =? k)%Z) (zip idx col))))
          = Some c) as ->; [|done].
  revert col i Hd Hc Hlater. induction idx as [|d0 idx IH]; intros col i Hd Hc Hlater;
    [done|].
  destruct col as [|c0 col]; [done|]. rewrite last_in_bin_cons.
  destruct i as [|i].
  - injection Hd as ->. injection Hc as ->.
    rewrite (proj2 (Z.eqb_eq _ _) Hk), Hpresent. cbn [andb negb].
    rewrite last_in_bin_all_missing; [done|].
    intros j d' c' Hd' Hk' Hc'. apply (Hlater (S j) d' c'); [lia|done..].
  - rewrite last_app.
    rewrite (IH col i Hd Hc); [done|].
    intros j d' c' Hij Hd' Hk' Hc'. apply (Hlater (S j) d' c'); [lia|done..].
Qed.

Lemma last_in_bin_missing (k : Z) (idx : list Date) (col : column) :
  (forall i d c, idx !! i = Some d -> month_ord d = k -> col !! i = Some c ->
     isna c = true) ->
  last_in_bin k idx col = NaN.
Proof. intros Hmiss. unfold last_in_bin. by rewrite last_in_bin_all_missing. Qed.

(** C6.  On a table with a row, [strategy_dca] has one contribution month
    for each calendar month from the month of the earliest date to the
    month of the latest; the price of a month is the close of the last
    row of that month that has one (rows in date order), and missing when
    no row of the month has a close; it buys [M / price] shares at each
    of these prices, its total cost is [M] times the number of months,
    its shares are the sum of the monthly purchases and its final value
    is the shares times the last close of the daily series; with one
    month at price 100 and [M = 1000] the cost is 1000, the shares are 10
    and the final value is 10 times the last close. *)
Theorem strategy_dca_accumulates (df : DataFrame) (M : Q) (close : column) :
  df_cols df !! "close" = Some close ->
  length close = length (df_index df) ->
  df_index df <> [] ->
  exists (r : DcaResult) (last_close : fl) (lo : Z) (prices : column),
    strategy_dca df M = Ok r
    /\ last close = Some last_close
    /\ (exists d, d ∈ df_index df /\ (year d * 12 + (month d - 1) = lo)%Z)
    /\ (exists d, d ∈ df_index df
                  /\ (year d * 12 + (month d - 1) = lo + Z.of_nat (months r) - 1)%Z)
    /\ (forall d, d ∈ df_index df ->
          (lo <= year d * 12 + (month d - 1) <= lo + Z.of_nat (months r) - 1)%Z)
    /\ length prices = months r
    /\ (in_date_order (df_index df) ->
        forall m i d c,
          df_index df !! i = Some d ->
          (year d * 12 + (month d - 1) = lo + Z.of_nat m)%Z ->
          close !! i = Some c -> isna c = false ->
          (forall j d' c', (i < j)%nat -> df_index df !! j = Some d' ->
             (year d' * 12 + (month d' - 1) = lo + Z.of_nat m)%Z ->
             close !! j = Some c' -> isna c' = true) ->
          prices !! m = Some c)
    /\ (forall m, (m < months r)%nat ->
          (forall i d c, df_index df !! i = Some d ->
             (year d * 12 + (month d - 1) = lo + Z.of_nat m)%Z ->
             close !! i = Some c -> isna c = true) ->
          prices !! m = Some NaN)
    /\ total_cost r ≡ Fin (M * inject_Z (Z.of_nat (months r)))
    /\ shares r = fsum (map (fun p => fdiv (Fin M) p) prices)
    /\ final_value r = fmul (shares r) last_close
    /\ (M = 1000 -> prices = [Fin 100] ->
        total_cost r ≡ Fin 1000 /\ shares r ≡ Fin 10
        /\ final_value r ≡ fmul (Fin 10) last_close).
Proof.
  intros Hc Hlen Hne.
  destruct (strategy_dca_run df M close Hc Hlen Hne) as (cost & x & Hx & Hcost & ->).
  destruct (month_bins_spec (df_index df) Hne)
    as (lo & hi & Hlo & Hhi & Hrange & Hcount & Hbins).
  assert (length (month_end_prices df close) = length (month_bins (df_index df)))
    as Hlp by (unfold month_end_prices; by rewrite length_map).
  assert (forall m, (m < length (month_bins (df_index df)))%nat ->
            month_end_prices df close !! m
            = Some (last_in_bin (lo + Z.of_nat m) (df_index df) close)) as Hprice.
  { intros m Hm. unfold month_end_prices. change (map ?g ?l) with (g <$> l).
    by rewrite list_lookup_fmap, (Hbins m Hm). }
  eexists _, x, lo, (month_end_prices df close). split; [reflexivity|].
  cbn [months total_cost shares final_value]. rewrite Hlp.
  split; [done|]. split; [exact Hlo|].
  split; [destruct Hhi as (d & Hd & Hdhi); exists d; split; [done|];
          change (month_ord d = lo + Z.of_nat (length (month_bins (df_index df))) - 1)%Z;
          lia|].
  split; [intros d Hd; change (lo <= month_ord d
            <= lo + Z.of_nat (length (month_bins (df_index df))) - 1)%Z;
          specialize (Hrange d Hd); lia|].
  split; [done|]. split; [|split].
  - intros _ m i d c Hd Hk Hci Hpresent Hlater.
    change (month_ord d = lo + Z.of_nat m)%Z in Hk.
    assert (m < length (month_bins (df_index df)))%nat as Hm.
    { pose proof (Hrange d (list_elem_of_lookup_2 _ _ _ Hd)). lia. }
    rewrite (Hprice m Hm). f_equal.
    by apply (last_in_bin_last_row _ _ _ i d c).
  - intros m Hm Hmiss. rewrite (Hprice m Hm). f_equal.
    by apply last_in_bin_missing.
  - split; [rewrite <- Hlp; exact Hcost|]. split; [done|]. split; [done|].
    intros -> Hp. rewrite Hp in *. split; [|split].
    + change (cost == 1000). rewrite Hcost. reflexivity.
    + reflexivity.
    + apply fmul_equiv_l. reflexivity.
Qed.

Lemma strategy_dca_accumulates_witness :
  in_date_order (df_index two_month_table)
  /\ exists r,
       strategy_dca two_month_table 1000 = Ok r
       /\ months r = 2%nat
       /\ total_cost r ≡ Fin 2000
       /\ shares r ≡ Fin (1000 / 100 + 1000 / 110)
       /\ final_value r ≡ Fin ((1000 / 100 + 1000 / 110) * 110).
Proof.
  assert (in_date_order (df_index two_month_table)) as Hsorted.
  { intros i j a b Hij Ha Hb.
    destruct i as [|[|[|[|i]]]]; destruct j as [|[|[|[|j]]]];
      simpl in Ha, Hb; try discriminate; try lia;
      injection Ha as <-; injection Hb as <-; reflexivity. }
  split; [exact Hsorted|].
  destruct (strategy_dca_accumulates two_month_table 1000
              [Fin 90; Fin 100; Fin 120; Fin 110])
    as (r & x & lo & prices & Hr & Hx & (d1 & Hd1 & Hlo) & (d2 & Hd2 & Hhi)
        & Hrange & Hlen & Hprice & _ & Hcost & Hshares & Hfinal & _).
  - reflexivity.
  - reflexivity.
  - discriminate.
  - pose proof (Hrange (mkDate 2020 1 30) ltac:(left)) as Hjan.
    pose proof (Hrange (mkDate 2020 2 28) ltac:(do 3 right; left)) as Hfeb.
    cbn [year month] in Hjan, Hfeb.
    assert (lo = 24240%Z) as ->.
    { repeat (apply elem_of_cons in Hd1 as [->|Hd1]);
        [..|by apply elem_of_nil in Hd1]; cbn [year month] in Hlo; lia. }
    assert (months r = 2%nat) as Hmonths.
    { repeat (apply elem_of_cons in Hd2 as [->|Hd2]);
        [..|by apply elem_of_nil in Hd2]; cbn [year month] in Hhi; lia. }
    assert (prices !! 0%nat = Some (Fin 100)) as H0.
    { apply (Hprice Hsorted 0%nat 1%nat (mkDate 2020 1 31) (Fin 100));
        try reflexivity.
      intros [|[|[|[|j]]]] d' c' Hj Hd' Hk Hc'; simpl in Hd', Hc';
        try discriminate; try lia;
        injection Hd' as <-; cbn [year month] in Hk; lia. }
    assert (prices !! 1%nat = Some (Fin 110)) as H1.
    { apply (Hprice Hsorted 1%nat 3%nat (mkDate 2020 2 28) (Fin 110));
        try reflexivity.
      intros [|[|[|[|j]]]] d' c' Hj Hd' Hk Hc'; simpl in Hd', Hc';
        try discriminate; lia. }
    assert (prices = [Fin 100; Fin 110]) as ->.
    { rewrite Hmonths in Hlen.
      destruct prices as [|p0 [|p1 [|p2 prices]]]; try discriminate.
      simpl in H0, H1. by injection H0 as ->; injection H1 as ->. }
    exists r. split; [exact Hr|]. split; [exact Hmonths|].
    injection Hx as <-. rewrite Hmonths in Hcost.
    split; [rewrite Hcost; reflexivity|].
    split; [rewrite Hshares; reflexivity|].
    rewrite Hfinal, Hshares. reflexivity.
Defined.

(** *** A table without rows *)

Lemma strategy_dca_empty (df : DataFrame) (M : Q) (close : column) :
  df_cols df !! "close" = Some close ->
  length close = length (df_index df) ->
  df_index df = [] ->
  strategy_dca df M = Raise IndexError.
Proof.
  intros Hc Hlen Hnil. unfold strategy_dca, resample_ME_last. cbv zeta.
  rewrite Hnil. cbn [month_bins map length seq dca_loop mbind pyres_bind].
  unfold frame_col. rewrite Hc. cbn [mbind pyres_bind].
  rewrite Hnil in Hlen. destruct close; [reflexivity|discriminate].
Qed.

(** C5, as the code has it.  A table without rows is the only one without
    a month.  On it [strategy_dca] raises IndexError when it reads the
    last close, whatever the monthly amount; on a table with a row it
    returns a result with one month at least.  The exception is not
    handled: the script stops there, before its other strategies. *)
Theorem strategy_dca_no_rows `{FloatSqrt} (df : DataFrame) (M : Q) (close : column) :
  df_cols df !! "close" = Some close ->
  length close = length (df_index df) ->
  (df_index df = [] ->
     strategy_dca df M = Raise IndexError
     /\ forall (h : store) (l : loc),
          h !! l = Some (OFrame df) -> fst (qqq_analysis l h) = Raise IndexError)
  /\ (df_index df <> [] ->
        exists r, strategy_dca df M = Ok r /\ (1 <= months r)%nat).
Proof.
  intros Hc Hlen. split.
  - intros Hnil. split; [by apply (strategy_dca_empty df M close)|].
    intros h l Hl. unfold qqq_analysis.
    run_step (df_getitem_run h l df "close" close Hl Hc).
    run_step (df_setitem_run h l df "return" (pct_change close) Hl).
    run_step get_frame_ins.
    rewrite bind_run. unfold lift.
    rewrite (strategy_dca_empty _ 1000 close); [reflexivity| |done|done].
    simpl. by rewrite lookup_insert_ne.
  - intros Hne.
    destruct (strategy_dca_run df M close Hc Hlen Hne) as (cost & x & _ & _ & ->).
    eexists. split; [reflexivity|]. simpl. unfold month_end_prices.
    rewrite length_map. by apply month_bins_nonempty.
Qed.

Lemma strategy_dca_no_rows_witness :
  (strategy_dca empty_table 1000 = Raise IndexError
   /\ forall (h : store) (l : loc),
        h !! l = Some (OFrame empty_table) ->
        fst (qqq_analysis l h) = Raise IndexError)
  /\ exists r, strategy_dca one_month_table 1000 = Ok r /\ (1 <= months r)%nat.
Proof.
  split.
  - apply (proj1 (strategy_dca_no_rows empty_table 1000 [] eq_refl eq_refl)).
    reflexivity.
  - apply (proj2 (strategy_dca_no_rows one_month_table 1000 [Fin 90; Fin 100]
                    eq_refl eq_refl)).
    discriminate.
Defined.

(** C5 as stated fails: on the table without rows the evaluator raises
    IndexError, and the script that calls it raises with it. *)
Lemma strategy_dca_raises_on_no_rows :
  strategy_dca empty_table 1000 = Raise IndexError
  /\ fst (qqq_analysis 1%positive {[ 1%positive := OFrame empty_table ]})
     = Raise IndexError.
Proof. split; vm_compute; reflexivity. Qed.

(* ===================================================================== *)
(** ** Moving averages and the crossover signal *)
(* ===================================================================== *)

Lemma ma_name_not_close (w : nat) : "ma" +:+ pretty w <> "close".
Proof. discriminate. Qed.

Lemma ma_name_inj (a b : nat) : "ma" +:+ pretty a = "ma" +:+ pretty b -> a = b.
Proof. intros Heq. injection Heq as Heq. by apply (inj pretty). Qed.

Lemma add_ma_cols_close (close : column) (windows : list nat) (cols : gmap string column) :
  cols !! "close" = Some close ->
  add_ma_cols close windows cols !! "close" = Some close.
Proof.
  revert cols. induction windows as [|w ws IH]; intros cols Hc; [done|].
  cbn [add_ma_cols foldl]. apply IH.
  rewrite lookup_insert_ne; [done|apply ma_name_not_close].
Qed.

Lemma add_ma_cols_ma (close : column) (windows : list nat) (cols : gmap string column)
    (N : nat) :
  N ∈ windows \/ cols !! ("ma" +:+ pretty N) = Some (rolling_mean N close) ->
  add_ma_cols close windows cols !! ("ma" +:+ pretty N) = Some (rolling_mean N close).
Proof.
  revert cols. induction windows as [|w ws IH]; intros cols Hin.
  - destruct Hin as [Hin|Hc]; [by apply elem_of_nil in Hin|done].
  - cbn [add_ma_cols foldl]. apply IH.
    destruct (decide (w = N)) as [->|Hne].
    + right. apply lookup_insert_eq.
    + destruct Hin as [Hin|Hc].
      * left. apply elem_of_cons in Hin as [->|Hin]; [done|done].
      * right. rewrite lookup_insert_ne; [done|].
        intros Heq. by apply ma_name_inj in Heq.
Qed.

Lemma for_each_add_ma (close : column) (s : loc) (windows : list nat) :
  forall (h : store) (f : DataFrame),
    df_cols f !! "close" = Some close ->
    for_each windows (fun w =>
        close ← df_getitem s "close";
        df_setitem s ("ma" +:+ pretty w) (rolling_mean w close))
      (<[s := OFrame f]> h)
    = (Ok tt, <[s := OFrame (mkFrame (df_index f)
                    (add_ma_cols close windows (df_cols f)))]> h).
Proof.
  induction windows as [|w ws IH]; intros h f Hc.
  - simpl. unfold mret, M_ret. by destruct f.
  - cbn [for_each]. rewrite !bind_run, (df_getitem_ins h s f "close" close Hc).
    cbv beta iota. rewrite df_setitem_ins. rewrite IH.
    + reflexivity.
    + simpl. rewrite lookup_insert_ne; [done|apply ma_name_not_close].
Qed.

Lemma add_ma_run (h : store) (df : loc) (f : DataFrame) (close : column)
    (windows : list nat) :
  h !! df = Some (OFrame f) ->
  df_cols f !! "close" = Some close ->
  add_ma df windows h
  = (Ok (fresh (dom h)),
     <[fresh (dom h) := OFrame (mkFrame (df_index f)
                           (add_ma_cols close windows (df_cols f)))]> h).
Proof.
  intros Hdf Hc. unfold add_ma.
  rewrite bind_run, (get_frame_run h df f Hdf). cbv beta iota.
  rewrite decide_True by (rewrite Hc; by eexists).
  run_step (df_copy_run h df f Hdf).
  set (s := fresh (dom h)).
  run_step (df_getitem_ins h s f "close" close).
  run_step df_setitem_ins. unfold to_numeric.
  rewrite bind_run, (for_each_add_ma close s windows); cbv beta iota.
  - unfold mret, M_ret. simpl. by rewrite (insert_id (df_cols f) "close" close).
  - simpl. apply lookup_insert_eq.
Qed.

Lemma returns_frame_intro (m : M loc) (h : store) (g : DataFrame) :
  m h = (Ok (fresh (dom h)), <[fresh (dom h) := OFrame g]> h) ->
  returns_frame m h g.
Proof.
  intros Hm. exists (fresh (dom h)), (<[fresh (dom h) := OFrame g]> h).
  split; [done|]. split; [apply lookup_insert_eq|apply fresh_loc_None].
Qed.


Lemma crossover_cell (N : nat) (qs : list Q) (i : nat) (q : Q) :
  of_bool (fgtb (Fin q) (ma_spec N qs i)) = crossover_spec N qs i q.
Proof.
  unfold crossover_spec, ma_spec. destruct (S i <? N)%nat; [done|].
  unfold fgtb, fltb, fleb, Qltb.
  destruct (Qle_bool q (trailing_mean N qs i)) eqn:Hle.
  - by rewrite andb_false_r.
  - assert (Qle_bool (trailing_mean N qs i) q = true) as ->; [|done].
    apply Qle_bool_iff. apply Qlt_le_weak, Qnot_le_lt.
    rewrite <- Qle_bool_iff. congruence.
Qed.





(* ===================================================================== *)
(** ** Strategy returns *)
(* ===================================================================== *)

Lemma returns_series_intro (m : M loc) (h : store) (s : Series) :
  m h = (Ok (fresh (dom h)), <[fresh (dom h) := OSeries s]> h) ->
  returns_series m h s.
Proof.
  intros Hm. exists (fresh (dom h)), (<[fresh (dom h) := OSeries s]> h).
  split; [done|]. split; [apply lookup_insert_eq|apply fresh_loc_None].
Qed.

Lemma reindex_run (sg : Series) (idx : list Date) :
  s_index sg = idx \/ NoDup (s_index sg) ->
  exists s', reindex sg idx = Ok s'
    /\ s_values s' = reindexed_values sg idx
    /\ (series_wf sg -> s_index s' = idx).
Proof.
  intros Hok. unfold reindex, reindexed_values.
  destruct (decide (s_index sg = idx)) as [Heq|Hne].
  - exists sg. by split.
  - destruct Hok as [?|Hnd]; [done|]. rewrite decide_True by done.
    eexists. split; [done|]. by split.
Qed.

Lemma compute_strategy_returns_run (h : store) (price signal : loc) (p sg : Series) :
  h !! price = Some (OSeries p) ->
  h !! signal = Some (OSeries sg) ->
  s_index sg = s_index p \/ NoDup (s_index sg) ->
  compute_strategy_returns price signal h
  = (Ok (fresh (dom h)), <[fresh (dom h) := OSeries (strategy_series p sg)]> h).
Proof.
  intros Hp Hs Hok. unfold compute_strategy_returns.
  run_step (get_series_run h price p Hp).
  run_step (get_series_run h signal sg Hs).
  cbn [s_index].
  destruct (reindex_run sg (s_index p) Hok) as (s' & Hre & Hv & _).
  rewrite bind_run. unfold lift. rewrite Hre. cbv beta iota. cbn [s_values].
  rewrite Hv. reflexivity.
Qed.

Lemma assoc_date_lookup (idx : list Date) (vals : column) (t : nat) (d : Date) :
  NoDup idx -> length vals = length idx -> idx !! t = Some d ->
  assoc_date d idx vals = vals !! t.
Proof.
  intros Hnd. revert vals t. induction Hnd as [|d0 idx Hnotin Hnd IH];
    intros vals t Hlen Ht; [done|].
  destruct vals as [|v vals]; [done|]. simpl in Hlen.
  destruct t as [|t]; simpl in *.
  - injection Ht as ->. by rewrite decide_True.
  - rewrite decide_False.
    + apply IH; [lia|done].
    + intros ->. apply Hnotin. by apply list_elem_of_lookup_2 in Ht.
Qed.

Lemma assoc_date_elem (d : Date) (idx : list Date) (vals : column) (x : fl) :
  assoc_date d idx vals = Some x -> x ∈ vals.
Proof.
  revert vals. induction idx as [|d0 idx IH]; intros vals Hx; [done|].
  destruct vals as [|v vals]; [done|]. simpl in Hx.
  destruct (decide (d0 = d)).
  - injection Hx as ->. by left.
  - right. by apply IH.
Qed.

(** After [reindex] and [fillna(0)] the cell at a date of the price index
    is the position the signal gives for that date. *)
Lemma reindexed_position (sg : Series) (idx : list Date) (t : nat) (d : Date) :
  series_wf sg -> NoDup (s_index sg) -> idx !! t = Some d ->
  fillna (Fin 0) (reindexed_values sg idx) !! t = Some (position_on sg d).
Proof.
  intros Hwf Hnd Ht. rewrite fillna_lookup. unfold reindexed_values, position_on, ser_at.
  destruct (decide (s_index sg = idx)) as [Heq|Hne].
  - subst idx. rewrite (assoc_date_lookup _ _ t d Hnd Hwf Ht).
    destruct (lookup_lt_is_Some_2 (s_values sg) t) as [x Hx].
    { rewrite Hwf. by apply lookup_lt_Some in Ht. }
    by rewrite Hx.
  - change (map ?f idx) with (f <$> idx). rewrite list_lookup_fmap, Ht. simpl.
    by destruct (assoc_date d (s_index sg) (s_values sg)) as [x|].
Qed.

Lemma pct_change_length (l : column) : length (pct_change l) = length l.
Proof.
  unfold pct_change, col_sub_scalar, col_div.
  rewrite length_map, length_zip_with, shift1_length. lia.
Qed.

(** On finite non-zero prices the filled daily return is a finite number. *)
Lemma pct_change_finite (l : column) (t : nat) :
  Forall price_cell l -> (t < length l)%nat ->
  exists q, fillna (Fin 0) (pct_change l) !! t = Some (Fin q).
Proof.
  intros Hpos Ht. rewrite fillna_lookup. unfold pct_change, col_sub_scalar, col_div.
  change (map ?f ?l) with (f <$> l). rewrite list_lookup_fmap, lookup_zip_with.
  destruct (lookup_lt_is_Some_2 l t Ht) as [x Hx]. rewrite Hx.
  rewrite Forall_forall in Hpos.
  destruct (Hpos x) as (a & -> & Ha); [by eapply list_elem_of_lookup_2|].
  destruct t as [|t].
  - rewrite shift1_lookup_0 by (intros ->; simpl in Ht; lia). simpl. by eexists.
  - rewrite shift1_lookup_S by done.
    destruct (lookup_lt_is_Some_2 l t) as [y Hy]; [lia|]. rewrite Hy.
    destruct (Hpos y) as (b & -> & Hb); [by eapply list_elem_of_lookup_2|].
    simpl. rewrite (proj2 (Qeq_bool_false b 0)) by done. simpl. by eexists.
Qed.

Lemma position_on_binary (sg : Series) (d : Date) :
  Forall binary_cell (s_values sg) -> binary_cell (position_on sg d).
Proof.
  intros Hb. unfold position_on, ser_at.
  destruct (assoc_date d (s_index sg) (s_values sg)) as [x|] eqn:Hx.
  - apply assoc_date_elem in Hx. rewrite Forall_forall in Hb.
    specialize (Hb x Hx). destruct x as [q| | |]; simpl; try done.
    destruct Hb as [Hb|Hb]; destruct Hb.
  - left. reflexivity.
Qed.

Lemma fmul_binary (q : Q) (P : fl) :
  (P ≡ Fin 0 -> fmul (Fin q) P ≡ Fin 0) /\ (P ≡ Fin 1 -> fmul (Fin q) P ≡ Fin q).
Proof.
  split; intros ->; simpl; unfold equiv, fl_equiv; simpl; ring.
Qed.

(** What [compute_strategy_returns] puts on each date: the position of
    that same date times the return of that date. *)
Lemma compute_strategy_returns_cells (h : store) (price signal : loc) (p sg : Series) :
  h !! price = Some (OSeries p) ->
  h !! signal = Some (OSeries sg) ->
  series_wf p -> series_wf sg -> NoDup (s_index sg) ->
  Forall price_cell (s_values p) ->
  Forall binary_cell (s_values sg) ->
  exists s,
    returns_series (compute_strategy_returns price signal) h s
    /\ s_index s = s_index p /\ series_wf s
    /\ forall t d, s_index p !! t = Some d ->
         exists y r,
           s_values s !! t = Some y
           /\ fillna (Fin 0) (pct_change (s_values p)) !! t = Some r
           /\ ((position_on sg d ≡ Fin 0 /\ y ≡ Fin 0)
               \/ (position_on sg d ≡ Fin 1 /\ y ≡ r)).
Proof.
  intros Hp Hs Hwp Hws Hnd Hpos Hbin.
  exists (strategy_series p sg). split.
  { apply returns_series_intro, compute_strategy_returns_run; auto. }
  split; [done|].
  assert (length (reindexed_values sg (s_index p)) = length (s_index p)) as Hrl.
  { unfold reindexed_values. destruct (decide _) as [<-|]; [done|apply length_map]. }
  split.
  { unfold series_wf, strategy_series, col_mul; simpl.
    rewrite length_zip_with, !fillna_length, pct_change_length, Hrl, Hwp. lia. }
  intros t d Ht.
  assert (t < length (s_values p))%nat as Hlt.
  { rewrite Hwp. by apply lookup_lt_Some in Ht. }
  destruct (pct_change_finite (s_values p) t Hpos Hlt) as (q & Hq).
  pose proof (reindexed_position sg (s_index p) t d Hws Hnd Ht) as HP.
  exists (fmul (Fin q) (position_on sg d)), (Fin q). split.
  { unfold strategy_series, col_mul; simpl. by rewrite lookup_zip_with, Hq, HP. }
  split; [done|].
  destruct (fmul_binary q (position_on sg d)) as [H0 H1].
  destruct (position_on_binary sg d Hbin) as [HP0|HP1]; [left|right]; auto.
Qed.

(** The strategy-return column of [strategy_momentum] is the one-day lag
    of the specification applied to its position and return columns. *)
Lemma momentum_return_lagged (n lookback : nat) (close ret : column) :
  momentum_return n lookback close ret
  = lagged_returns (momentum_position n lookback close) ret.
Proof. reflexivity. Qed.

(** What [strategy_momentum] puts on each date: the position of the day
    before times the return of the date, 0 on the first date and where
    the product is missing. *)
Lemma strategy_momentum_shift_rule (h : store) (df : loc) (f : DataFrame)
    (close ret : column) (lookback : nat) (cap : Q) :
  h !! df = Some (OFrame f) ->
  df_cols f !! "close" = Some close ->
  df_cols f !! "return" = Some ret ->
  length close = length (df_index f) ->
  length ret = length (df_index f) ->
  exists g position sr,
    returns_frame (strategy_momentum df lookback cap) h g
    /\ df_index g = df_index f
    /\ df_cols g !! "position" = Some position
    /\ df_cols g !! "strategy_return" = Some sr
    /\ length sr = length (df_index f)
    /\ (forall r0, ret !! 0%nat = Some r0 -> sr !! 0%nat = Some (Fin 0))
    /\ forall t r, ret !! S t = Some r ->
         exists p, position !! t = Some p
           /\ binary_cell p /\ (p = Fin 0 \/ p = Fin 1)
           /\ sr !! S t = Some (if isna (fmul p r) then Fin 0 else fmul p r).
Proof.
  intros Hdf Hc Hr Hlc Hlr.
  eexists _, _, _. split.
  { apply returns_frame_intro, (strategy_momentum_run h df f lookback cap close ret); done. }
  unfold momentum_frame; simpl. split; [done|].
  split; [by simplify_map_eq|]. split; [by simplify_map_eq|].
  split; [by apply momentum_return_length|].
  destruct (momentum_return_lookup (length (df_index f)) lookback close ret Hlc Hlr)
    as [H0 HS].
  split; [exact H0|]. intros t r Ht.
  destruct (HS t r Ht) as (p & Hp & Hy). exists p. split; [done|].
  assert (p = Fin 0 \/ p = Fin 1) as Hp01.
  { destruct (lookup_lt_is_Some_2 close t) as [c Hct].
    { apply lookup_lt_Some in Ht. lia. }
    destruct (momentum_position_lookup _ lookback close t c Hlc Hct) as (m & _ & Hp').
    rewrite Hp in Hp'. injection Hp' as ->. destruct (fgtb c m); auto. }
  split; [|split; [done|done]].
  destruct Hp01 as [-> | ->]; [left|right]; reflexivity.
Qed.

Lemma strategy_momentum_cells (h : store) (df : loc) (f : DataFrame)
    (close ret : column) (lookback : nat) (cap : Q) :
  h !! df = Some (OFrame f) ->
  df_cols f !! "close" = Some close ->
  df_cols f !! "return" = Some ret ->
  length close = length (df_index f) ->
  length ret = length (df_index f) ->
  exists g position sr,
    returns_frame (strategy_momentum df lookback cap) h g
    /\ df_index g = df_index f
    /\ df_cols g !! "position" = Some position
    /\ df_cols g !! "strategy_return" = Some sr
    /\ length sr = length (df_index f)
    /\ (forall r0, ret !! 0%nat = Some r0 -> sr !! 0%nat = Some (Fin 0))
    /\ forall t r, ret !! S t = Some r ->
         exists p y, position !! t = Some p /\ sr !! S t = Some y
           /\ ((p = Fin 0 /\ y ≡ Fin 0)
               \/ (p = Fin 1 /\ y ≡ (if isna r then Fin 0 else r))).
Proof.
  intros Hdf Hc Hr Hlc Hlr.
  destruct (strategy_momentum_shift_rule h df f close ret lookback cap Hdf Hc Hr Hlc Hlr)
    as (g & P & sr & Hg & Hidx & HP & HS & Hlen & H0 & Hrule).
  exists g, P, sr. repeat (split; [done|]).
  intros t r Ht. destruct (Hrule t r Ht) as (p & Hp & _ & Hp01 & Hy).
  eexists p, _. split; [done|]. split; [exact Hy|].
  destruct Hp01 as [-> | ->]; [left|right]; (split; [done|]).
  - destruct r as [a| | |]; simpl; try reflexivity;
      unfold equiv, fl_equiv; simpl; ring.
  - destruct r as [a| | |]; simpl; try reflexivity;
      unfold equiv, fl_equiv; simpl; ring.
Qed.

(** Where no close is 0.  On finite non-zero prices and a 0/1 signal
    without repeated dates, [compute_strategy_returns] returns a series
    on the index of the price whose cell on each date is 0 when the position for that date is 0
    (dates absent from the signal count as 0) and the return of that date
    when it is 1.  [strategy_momentum] returns a table on the index of its
    input whose strategy return is 0 on the first date and, on each later
    date, 0 when the position that governs it is 0 and the return of that
    date (0 if missing) when it is 1. *)
Theorem strategy_return_zero_or_asset_return :
  (forall (h : store) (price signal : loc) (p sg : Series),
      h !! price = Some (OSeries p) ->
      h !! signal = Some (OSeries sg) ->
      series_wf p -> series_wf sg -> NoDup (s_index sg) ->
      Forall price_cell (s_values p) ->
      Forall binary_cell (s_values sg) ->
      exists s,
        returns_series (compute_strategy_returns price signal) h s
        /\ s_index s = s_index p /\ series_wf s
        /\ forall t d, s_index p !! t = Some d ->
             exists y r,
               s_values s !! t = Some y
               /\ fillna (Fin 0) (pct_change (s_values p)) !! t = Some r
               /\ ((position_on sg d ≡ Fin 0 /\ y ≡ Fin 0)
                   \/ (position_on sg d ≡ Fin 1 /\ y ≡ r)))
  /\ (forall (h : store) (df : loc) (f : DataFrame) (close ret : column)
        (lookback : nat) (cap : Q),
        h !! df = Some (OFrame f) ->
        df_cols f !! "close" = Some close ->
        df_cols f !! "return" = Some ret ->
        length close = length (df_index f) ->
        length ret = length (df_index f) ->
        exists g position sr,
          returns_frame (strategy_momentum df lookback cap) h g
          /\ df_index g = df_index f
          /\ df_cols g !! "position" = Some position
          /\ df_cols g !! "strategy_return" = Some sr
          /\ length sr = length (df_index f)
          /\ (forall r0, ret !! 0%nat = Some r0 -> sr !! 0%nat = Some (Fin 0))
          /\ forall t r, ret !! S t = Some r ->
               exists p y, position !! t = Some p /\ sr !! S t = Some y
                 /\ ((p = Fin 0 /\ y ≡ Fin 0)
                     \/ (p = Fin 1 /\ y ≡ (if isna r then Fin 0 else r)))).
Proof.
  split.
  - apply compute_strategy_returns_cells.
  - apply strategy_momentum_cells.
Qed.

Lemma strategy_return_zero_or_asset_return_witness :
  (exists s,
      returns_series (compute_strategy_returns 1%positive 2%positive) series_store s
      /\ s_index s = s_index sample_price /\ series_wf s
      /\ forall t d, s_index sample_price !! t = Some d ->
           exists y r,
             s_values s !! t = Some y
             /\ fillna (Fin 0) (pct_change (s_values sample_price)) !! t = Some r
             /\ ((position_on sample_signal d ≡ Fin 0 /\ y ≡ Fin 0)
                 \/ (position_on sample_signal d ≡ Fin 1 /\ y ≡ r)))
  /\ (exists g position sr,
        returns_frame (strategy_momentum 1%positive 2%nat 100000) table_store g
        /\ df_index g = df_index sample_table
        /\ df_cols g !! "position" = Some position
        /\ df_cols g !! "strategy_return" = Some sr
        /\ length sr = length (df_index sample_table)
        /\ (forall r0, pct_change (map Fin sample_closes) !! 0%nat = Some r0 ->
              sr !! 0%nat = Some (Fin 0))
        /\ forall t r, pct_change (map Fin sample_closes) !! S t = Some r ->
             exists p y, position !! t = Some p /\ sr !! S t = Some y
               /\ ((p = Fin 0 /\ y ≡ Fin 0)
                   \/ (p = Fin 1 /\ y ≡ (if isna r then Fin 0 else r)))).
Proof.
  split.
  - apply (proj1 strategy_return_zero_or_asset_return series_store
             1%positive 2%positive sample_price sample_signal).
    + reflexivity.
    + reflexivity.
    + reflexivity.
    + reflexivity.
    + apply (bool_decide_unpack _). vm_compute. exact I.
    + repeat constructor; eexists; (split; [reflexivity|discriminate]).
    + repeat constructor; (left; reflexivity) || (right; reflexivity).
  - apply (proj2 strategy_return_zero_or_asset_return table_store 1%positive
             sample_table (map Fin sample_closes)
             (pct_change (map Fin sample_closes)) 2%nat 100000); reflexivity.
Defined.

(** C10.  [compute_strategy_returns] does not fill the product of return
    and signal.  After a close of 0 the return is plus infinity, and in
    cash (signal 0) the product [inf * 0] is NaN: on the closes
    [1, 0, 1] with the signal [0, 0, 0] it returns [0, 0, NaN], not
    [0, 0, 0].  [strategy_momentum], which fills the product, gives
    [0, 0, 0] on the same closes with the position [0, 0, 0]. *)
Theorem compute_strategy_returns_nan_in_cash :
  (exists s,
      returns_series (compute_strategy_returns 1%positive 2%positive) zero_close_store s
      /\ s_index s = s_index zero_close_price
      /\ fillna (Fin 0) (pct_change (s_values zero_close_price))
         ≡ [Fin 0; Fin (-1); PInf]
      /\ s_values s ≡ [Fin 0; Fin 0; NaN]
      /\ ~ (s_values s ≡ [Fin 0; Fin 0; Fin 0]))
  /\ (exists g sr,
        returns_frame (strategy_momentum 1%positive 50 100000)
          {[ 1%positive := OFrame zero_close_table ]} g
        /\ df_cols g !! "position" = Some [Fin 0; Fin 0; Fin 0]
        /\ df_cols g !! "strategy_return" = Some sr
        /\ sr ≡ [Fin 0; Fin 0; Fin 0]).
Proof.
  split.
  - exists (strategy_series zero_close_price cash_signal). split.
    { apply returns_series_intro, compute_strategy_returns_run; try reflexivity.
      by left. }
    split; [reflexivity|]. split; [vm_compute; repeat constructor|].
    split; [vm_compute; repeat constructor|].
    intros Heq. vm_compute in Heq.
    inversion Heq as [|? ? ? ? _ H1]; subst.
    inversion H1 as [|? ? ? ? _ H2]; subst.
    inversion H2 as [|? ? ? ? Hcell _]; subst.
    exact Hcell.
  - eexists _, _. split.
    { apply returns_frame_intro,
        (strategy_momentum_run _ 1%positive zero_close_table 50 100000
           [Fin 1; Fin 0; Fin 1] (pct_change [Fin 1; Fin 0; Fin 1])); reflexivity. }
    split; [vm_compute; reflexivity|]. split; [vm_compute; reflexivity|].
    vm_compute. repeat constructor.
Qed.

(** C1.  [compute_strategy_returns] weights the return of a day by the
    position of that same day.  With the signal [0, 1, 0] on three days
    of 10% gains (returns [0, 0.1, 0.1] after filling) it returns
    [0, 0.1, 0], where the one-day lag gives [0, 0, 0.1]. *)
Theorem compute_strategy_returns_same_day :
  exists s,
    returns_series (compute_strategy_returns 1%positive 2%positive) series_store s
    /\ s_values s ≡ [Fin 0; Fin (1 # 10); Fin 0]
    /\ lagged_returns (s_values sample_signal)
         (fillna (Fin 0) (pct_change (s_values sample_price)))
       ≡ [Fin 0; Fin 0; Fin (1 # 10)]
    /\ ~ (s_values s ≡ lagged_returns (s_values sample_signal)
                         (fillna (Fin 0) (pct_change (s_values sample_price)))).
Proof.
  exists (strategy_series sample_price sample_signal). split.
  { apply returns_series_intro, compute_strategy_returns_run; try reflexivity.
    by left. }
  split; [|split].
  - vm_compute. repeat constructor.
  - vm_compute. repeat constructor.
  - intros Heq. vm_compute in Heq.
    inversion Heq as [|? ? ? ? _ Hrest]; subst.
    inversion Hrest as [|? ? ? ? Hcell _]; subst.
    vm_compute in Hcell. discriminate Hcell.
Qed.

(* ===================================================================== *)
(** ** No input is mutated *)
(* ===================================================================== *)

Lemma writes_only_bind {A B} (s : loc) (m : M A) (k : A -> M B) :
  writes_only s m -> (forall a, writes_only s (k a)) -> writes_only s (m ≫= k).
Proof.
  intros Hm Hk h. rewrite bind_run. destruct (Hm h) as [Hm1 Hm2].
  destruct (m h) as [[a|e] h1]; simpl in *; [|by split].
  destruct (Hk a h1) as [Hk1 Hk2]. split.
  - intros l Hl. by rewrite Hk1, Hm1.
  - auto.
Qed.

Lemma writes_only_keep {A} (s : loc) (m : M A) :
  (forall h, snd (m h) = h) -> writes_only s m.
Proof. intros Hm h. rewrite Hm. by split. Qed.

Lemma writes_only_ret {A} (s : loc) (a : A) : writes_only s (mret a).
Proof. by apply writes_only_keep. Qed.

Lemma writes_only_raise {A} (s : loc) (e : pyexc) : writes_only s (raise e : M A).
Proof. by apply writes_only_keep. Qed.

Lemma writes_only_lift {A} (s : loc) (r : pyres A) : writes_only s (lift r).
Proof. by apply writes_only_keep. Qed.

Lemma get_frame_keep (l : loc) (h : store) : snd (get_frame l h) = h.
Proof. unfold get_frame. by destruct (h !! l) as [[?|?]|]. Qed.

Lemma get_series_keep (l : loc) (h : store) : snd (get_series l h) = h.
Proof. unfold get_series. by destruct (h !! l) as [[?|?]|]. Qed.

Lemma writes_only_get_frame (s l : loc) : writes_only s (get_frame l).
Proof. apply writes_only_keep, get_frame_keep. Qed.

Lemma writes_only_get_series (s l : loc) : writes_only s (get_series l).
Proof. apply writes_only_keep, get_series_keep. Qed.

Lemma writes_only_put_frame (s : loc) (f : DataFrame) : writes_only s (put_frame s f).
Proof.
  intros h. unfold put_frame; simpl. split.
  - intros l Hl. by rewrite lookup_insert_ne.
  - intros _. rewrite lookup_insert_eq. by eexists.
Qed.

Lemma writes_only_df_getitem (s l : loc) (c : string) : writes_only s (df_getitem l c).
Proof.
  apply writes_only_bind; [apply writes_only_get_frame|]. intros f.
  destruct (df_cols f !! c); [apply writes_only_ret|apply writes_only_raise].
Qed.

Lemma writes_only_df_get_index (s l : loc) : writes_only s (df_get_index l).
Proof.
  apply writes_only_bind; [apply writes_only_get_frame|]. intros f.
  apply writes_only_ret.
Qed.

Lemma writes_only_df_setitem (s : loc) (c : string) (v : column) :
  writes_only s (df_setitem s c v).
Proof.
  apply writes_only_bind; [apply writes_only_get_frame|]. intros f.
  apply writes_only_put_frame.
Qed.

Lemma writes_only_df_setitem_scalar (s : loc) (c : string) (x : fl) :
  writes_only s (df_setitem_scalar s c x).
Proof.
  apply writes_only_bind; [apply writes_only_get_frame|]. intros f.
  apply writes_only_put_frame.
Qed.

Lemma writes_only_df_loc_setitem (s : loc) (mask : list bool) (c : string) (x : fl) :
  writes_only s (df_loc_setitem s mask c x).
Proof.
  apply writes_only_bind; [apply writes_only_get_frame|]. intros f.
  apply writes_only_put_frame.
Qed.

Lemma writes_only_for_each {A} (s : loc) (l : list A) (body : A -> M unit) :
  (forall a, writes_only s (body a)) -> writes_only s (for_each l body).
Proof.
  intros Hb. induction l as [|a l IH]; simpl; [apply writes_only_ret|].
  apply writes_only_bind; [apply Hb|]. intros _. apply IH.
Qed.

Create HintDb store_frame.
#[export] Hint Resolve writes_only_ret writes_only_raise writes_only_lift
  writes_only_get_frame writes_only_get_series writes_only_df_getitem
  writes_only_df_get_index writes_only_df_setitem writes_only_df_setitem_scalar
  writes_only_df_loc_setitem writes_only_put_frame : store_frame.

Ltac writes_only_chain :=
  repeat first
    [ solve [auto with store_frame]
    | apply writes_only_bind; [solve [auto with store_frame]|intros ?] ].

Lemma returns_only_bind {A} (s : loc) (m : M A) (k : A -> M loc) :
  (forall a, returns_only s (k a)) -> returns_only s (m ≫= k).
Proof.
  intros Hk h l. rewrite bind_run.
  destruct (m h) as [[a|e] h1]; simpl; [apply Hk|discriminate].
Qed.

Lemma returns_only_ret (s : loc) : returns_only s (mret s).
Proof. intros h l Hl. simpl in Hl. congruence. Qed.

Ltac returns_only_chain :=
  repeat (apply returns_only_bind; intros ?); apply returns_only_ret.

(** An object made by [alloc] and then worked on alone: the store it
    started from is untouched. *)
Lemma alloc_then_writes (o : pyobj) (k : loc -> M loc) (h : store) :
  (forall s, writes_only s (k s)) -> (forall s, returns_only s (k s)) ->
  leaves_inputs_unchanged (alloc o ≫= k) h.
Proof.
  intros Hw Hr. unfold leaves_inputs_unchanged. rewrite bind_run.
  unfold alloc. cbv beta iota zeta.
  set (s := fresh (dom h)).
  destruct (Hw s (<[s := o]> h)) as [Hw1 Hw2].
  pose proof (fresh_loc_None h) as Hfresh. fold s in Hfresh. split.
  - apply map_subseteq_spec. intros l x Hl.
    assert (l <> s) as Hne by congruence.
    by rewrite Hw1, lookup_insert_ne.
  - intros l Hl. apply Hr in Hl as ->. split; [done|].
    apply Hw2. rewrite lookup_insert_eq. by eexists.
Qed.

Lemma leaves_inputs_unchanged_keep (m : M loc) (h : store) :
  snd (m h) = h -> (forall l, fst (m h) <> Ok l) -> leaves_inputs_unchanged m h.
Proof.
  intros Hs Hf. split; [by rewrite Hs|]. intros l Hl. by destruct (Hf l).
Qed.

Lemma strategy_momentum_leaves_inputs (h : store) (df : loc) (lookback : nat) (cap : Q) :
  leaves_inputs_unchanged (strategy_momentum df lookback cap) h.
Proof.
  unfold strategy_momentum, df_copy.
  destruct (get_frame df h) as [[f|e] h1] eqn:Hg.
  - pose proof (get_frame_keep df h) as Hk. rewrite Hg in Hk. simpl in Hk. subst h1.
    unfold leaves_inputs_unchanged. rewrite !bind_run, Hg. cbv beta iota.
    rewrite <- bind_run. apply alloc_then_writes.
    + intros s. writes_only_chain.
    + intros s. returns_only_chain.
  - pose proof (get_frame_keep df h) as Hk. rewrite Hg in Hk. simpl in Hk. subst h1.
    apply leaves_inputs_unchanged_keep; rewrite !bind_run, Hg; simpl; [done|discriminate].
Qed.

Lemma add_ma_leaves_inputs (h : store) (df : loc) (windows : list nat) :
  leaves_inputs_unchanged (add_ma df windows) h.
Proof.
  unfold add_ma.
  pose proof (get_frame_keep df h) as Hk.
  destruct (get_frame df h) as [[f|e] h1] eqn:Hg; simpl in Hk; subst h1.
  - destruct (decide (is_Some (df_cols f !! "close"))) as [Hc|Hc].
    + unfold leaves_inputs_unchanged, df_copy.
      rewrite bind_run, Hg. cbv beta iota. rewrite decide_True by done.
      rewrite !bind_run, Hg. cbv beta iota.
      rewrite <- bind_run. apply alloc_then_writes.
      * intros s. writes_only_chain.
        apply writes_only_bind; [|intros; auto with store_frame].
        apply writes_only_for_each. intros w. writes_only_chain.
      * intros s. returns_only_chain.
    + apply leaves_inputs_unchanged_keep; rewrite bind_run, Hg; cbv beta iota;
        rewrite decide_False by done; simpl; [done|discriminate].
  - apply leaves_inputs_unchanged_keep; rewrite bind_run, Hg; simpl; [done|discriminate].
Qed.

Lemma alloc_leaves_inputs (o : pyobj) (h : store) :
  leaves_inputs_unchanged (alloc o) h.
Proof.
  unfold leaves_inputs_unchanged, alloc; simpl.
  pose proof (fresh_loc_None h) as Hfresh. split.
  - by apply insert_subseteq.
  - intros l [= <-]. split; [done|]. rewrite lookup_insert_eq. by eexists.
Qed.

Lemma compute_strategy_returns_leaves_inputs (h : store) (price signal : loc) :
  leaves_inputs_unchanged (compute_strategy_returns price signal) h.
Proof.
  unfold compute_strategy_returns.
  pose proof (get_series_keep price h) as Hk1.
  destruct (get_series price h) as [[p|e] h1] eqn:Hg1; simpl in Hk1; subst h1.
  2:{ apply leaves_inputs_unchanged_keep; rewrite bind_run, Hg1; simpl;
        [done|discriminate]. }
  pose proof (get_series_keep signal h) as Hk2.
  destruct (get_series signal h) as [[sg|e] h1] eqn:Hg2; simpl in Hk2; subst h1.
  2:{ apply leaves_inputs_unchanged_keep; rewrite !bind_run, Hg1; cbv beta iota;
        rewrite bind_run, Hg2; simpl; [done|discriminate]. }
  cbn [s_index].
  destruct (reindex sg (s_index p)) as [s'|e] eqn:Hre.
  - unfold leaves_inputs_unchanged.
    rewrite bind_run, Hg1; cbv beta iota. rewrite bind_run, Hg2; cbv beta iota.
    rewrite bind_run. unfold lift. rewrite Hre. cbv beta iota.
    apply alloc_leaves_inputs.
  - apply leaves_inputs_unchanged_keep;
      rewrite bind_run, Hg1; cbv beta iota; rewrite bind_run, Hg2; cbv beta iota;
      rewrite bind_run; unfold lift; rewrite Hre; simpl; [done|discriminate].
Qed.

(** C9.  From any store, and whether they return or raise, the momentum
    strategy, the moving-average calculator and the strategy-return
    computation leave every object of the store as it was (the table or
    series they were given included), and what they return is an object
    that was not in the store before. *)
Theorem transformations_leave_inputs_unchanged (h : store) :
  (forall df lookback cap,
      leaves_inputs_unchanged (strategy_momentum df lookback cap) h)
  /\ (forall df windows, leaves_inputs_unchanged (add_ma df windows) h)
  /\ (forall price signal,
        leaves_inputs_unchanged (compute_strategy_returns price signal) h).
Proof.
  split; [|split].
  - intros. apply strategy_momentum_leaves_inputs.
  - intros. apply add_ma_leaves_inputs.
  - intros. apply compute_strategy_returns_leaves_inputs.
Qed.

Lemma transformations_leave_inputs_unchanged_witness :
  (snd (strategy_momentum 1%positive 2 100000 table_store) !! 1%positive
   = Some (OFrame sample_table)
   /\ fst (strategy_momentum 1%positive 2 100000 table_store) = Ok 2%positive)
  /\ (snd (add_ma 1%positive [2%nat] table_store) !! 1%positive
      = Some (OFrame sample_table)
      /\ fst (add_ma 1%positive [2%nat] table_store) = Ok 2%positive)
  /\ (snd (compute_strategy_returns 1%positive 2%positive series_store) !! 1%positive
      = Some (OSeries sample_price)
      /\ snd (compute_strategy_returns 1%positive 2%positive series_store) !! 2%positive
         = Some (OSeries sample_signal)
      /\ fst (compute_strategy_returns 1%positive 2%positive series_store)
         = Ok 3%positive).
Proof.
  destruct (transformations_leave_inputs_unchanged table_store) as (Hm & Ha & _).
  destruct (transformations_leave_inputs_unchanged series_store) as (_ & _ & Hc).
  split; [|split].
  - split; [|reflexivity].
    apply (lookup_weaken table_store); [reflexivity|].
    apply (Hm 1%positive 2%nat 100000).
  - split; [|reflexivity].
    apply (lookup_weaken table_store); [reflexivity|].
    apply (Ha 1%positive [2%nat]).
  - split; [|split; [|reflexivity]].
    + apply (lookup_weaken series_store); [reflexivity|].
      apply (Hc 1%positive 2%positive).
    + apply (lookup_weaken series_store); [reflexivity|].
      apply (Hc 1%positive 2%positive).
Defined.

(* ===================================================================== *)
(** ** Breadth signal *)
(* ===================================================================== *)

Lemma map_M_run {A B} (f : A -> M B) (g : A -> B) (l : list A) :
  (forall a, a ∈ l -> forall h, exists h', f a h = (Ok (g a), h') /\ h ⊆ h') ->
  forall h, exists h', map_M f l h = (Ok (map g l), h') /\ h ⊆ h'.
Proof.
  induction l as [|a l IH]; intros Hf h.
  - exists h. by split.
  - destruct (Hf a (list_elem_of_here a l) h) as (h1 & Ha & Hsub1).
    destruct (IH (fun b Hb => Hf b (list_elem_of_further _ _ _ Hb)) h1)
      as (h2 & Hl & Hsub2).
    exists h2. split; [|by transitivity h1].
    cbn [map_M map]. rewrite bind_run, Ha. cbv beta iota.
    rewrite bind_run, Hl. reflexivity.
Qed.

Lemma load_price_csv_run (files : string -> pyres DataFrame) (path : string)
    (f : DataFrame) (h : store) :
  files path = Ok f ->
  load_price_csv files path h
  = (Ok (fresh (dom h)), <[fresh (dom h) := OFrame f]> h).
Proof.
  intros Hfile. unfold load_price_csv. rewrite bind_run. unfold lift.
  by rewrite Hfile.
Qed.

Lemma risk_flag_run (files : string -> pyres DataFrame) (sym : string)
    (f : DataFrame) (close : column) (h : store) :
  files (faang_path sym) = Ok f ->
  df_cols f !! "close" = Some close ->
  exists h', risk_flag files sym h = (Ok (above_flags f close), h') /\ h ⊆ h'.
Proof.
  intros Hfile Hc. unfold risk_flag. cbv zeta. fold (faang_path sym).
  run_step (load_price_csv_run files (faang_path sym) f h Hfile).
  set (l1 := fresh (dom h)). set (h1 := <[l1 := OFrame f]> h).
  run_step (add_ma_run h1 l1 f close [200%nat]);
    [|apply lookup_insert_eq ..].
  set (l2 := fresh (dom h1)).
  run_step (df_getitem_ins h1 l2 _ "close" close);
    [|simpl; by apply add_ma_cols_close ..].
  run_step (df_getitem_ins h1 l2 _ "ma200" (rolling_mean 200 close));
    [|simpl; apply (add_ma_cols_ma close [200%nat] (df_cols f) 200); left;
      apply list_elem_of_here ..].
  run_step df_get_index_ins.
  eexists. split; [reflexivity|].
  transitivity h1.
  - apply insert_subseteq, fresh_loc_None.
  - apply insert_subseteq, fresh_loc_None.
Qed.

(** Reading a series back on its own index gives its cells. *)
Lemma values_by_date (idx : list Date) (vals : column) :
  NoDup idx -> length vals = length idx ->
  map (fun d => default NaN (assoc_date d idx vals)) idx = vals.
Proof.
  intros Hnd Hlen. apply list_eq. intros i.
  change (map ?f idx) with (f <$> idx). rewrite list_lookup_fmap.
  destruct (idx !! i) as [d|] eqn:Hd; simpl.
  - rewrite (assoc_date_lookup idx vals i d Hnd Hlen Hd).
    destruct (lookup_lt_is_Some_2 vals i) as [x Hx].
    { rewrite Hlen. by apply lookup_lt_Some in Hd. }
    by rewrite Hx.
  - symmetry. apply lookup_ge_None. rewrite Hlen. by apply lookup_ge_None.
Qed.

Lemma index_union_elem (a b : list Date) (d : Date) :
  d ∈ index_union a b <-> d ∈ a \/ d ∈ b.
Proof.
  unfold index_union. rewrite elem_of_app, list_elem_of_difference.
  destruct (decide (d ∈ a)); tauto.
Qed.

Lemma index_union_NoDup (a b : list Date) :
  NoDup a -> NoDup b -> NoDup (index_union a b).
Proof.
  intros Ha Hb. unfold index_union. apply NoDup_app. split; [done|]. split.
  - intros d Hd. rewrite list_elem_of_difference. tauto.
  - by apply NoDup_list_difference.
Qed.

Lemma foldl_index_union_elem (bs : list (list Date)) (a : list Date) (d : Date) :
  d ∈ foldl index_union a bs <-> d ∈ a \/ exists b, b ∈ bs /\ d ∈ b.
Proof.
  revert a. induction bs as [|b bs IH]; intros a; simpl.
  - split; [by left|]. intros [?|(b & Hb & _)]; [done|]. by apply elem_of_nil in Hb.
  - rewrite IH, index_union_elem. split.
    + intros [[?|?]|(b' & Hb' & ?)]; [by left| |].
      * right. exists b. split; [apply list_elem_of_here|done].
      * right. exists b'. split; [by apply list_elem_of_further|done].
    + intros [?|(b' & Hb' & ?)]; [by left; left|].
      apply elem_of_cons in Hb' as [->|Hb']; [by left; right|].
      right. by exists b'.
Qed.

Lemma foldl_index_union_NoDup (bs : list (list Date)) (a : list Date) :
  NoDup a -> Forall NoDup bs -> NoDup (foldl index_union a bs).
Proof.
  intros Ha Hbs. revert a Ha. induction Hbs as [|b bs Hb Hbs IH]; intros a Ha; simpl.
  - done.
  - apply IH. by apply index_union_NoDup.
Qed.

(** [pd.concat(axis=1)] of series with their cells on all their dates and
    no repeated date: the index holds exactly the dates of the series, once
    each, and every column is its series read date by date. *)
Lemma concat_axis1_spec (l : list Series) :
  l <> [] ->
  Forall (fun s => series_wf s /\ NoDup (s_index s)) l ->
  exists idx,
    concat_axis1 l
    = Ok (idx, map (fun s => map (fun d => default NaN (ser_at s d)) idx) l)
    /\ NoDup idx
    /\ forall d, d ∈ idx <-> exists s, s ∈ l /\ d ∈ s_index s.
Proof.
  intros Hne Hall. destruct l as [|s0 rest]; [done|]. unfold concat_axis1.
  inversion Hall as [|? ? [Hwf0 Hnd0] Hrest]; subst.
  destruct (forallb (fun s => bool_decide (s_index s = s_index s0)) rest) eqn:Hsame.
  - exists (s_index s0). split; [|split; [done|]].
    + f_equal. f_equal. apply map_ext_in. intros s Hs.
      assert (s_index s = s_index s0 /\ series_wf s /\ NoDup (s_index s))
        as (Heq & Hwf & Hnd).
      { destruct Hs as [<-|Hs]; [done|].
        rewrite forallb_forall in Hsame. specialize (Hsame s Hs).
        apply bool_decide_eq_true in Hsame. split; [done|].
        rewrite Forall_forall in Hrest. apply Hrest. by apply list_elem_of_In. }
      rewrite <- Heq. unfold ser_at. symmetry. by apply values_by_date.
    + intros d. split.
      * intros Hd. exists s0. split; [apply list_elem_of_here|done].
      * intros (s & Hs & Hd). apply elem_of_cons in Hs as [->|Hs]; [done|].
        rewrite forallb_forall in Hsame.
        apply list_elem_of_In in Hs. specialize (Hsame s Hs).
        apply bool_decide_eq_true in Hsame. by rewrite <- Hsame.
  - assert (forallb (fun s => bool_decide (NoDup (s_index s))) (s0 :: rest) = true)
      as ->.
    { apply forallb_forall. intros s Hs. apply bool_decide_eq_true.
      rewrite Forall_forall in Hall. apply Hall. by apply list_elem_of_In. }
    eexists. split; [reflexivity|]. split.
    + apply foldl_index_union_NoDup; [done|].
      apply Forall_forall. intros b Hb.
      change (map s_index rest) with (s_index <$> rest) in Hb.
      apply list_elem_of_fmap in Hb as (s & -> & Hs).
      rewrite Forall_forall in Hrest. by apply Hrest.
    + intros d. rewrite foldl_index_union_elem. split.
      * intros [Hd|(b & Hb & Hd)].
        -- exists s0. split; [apply list_elem_of_here|done].
        -- change (map s_index rest) with (s_index <$> rest) in Hb.
           apply list_elem_of_fmap in Hb as (s & -> & Hs).
           exists s. split; [by apply list_elem_of_further|done].
      * intros (s & Hs & Hd). apply elem_of_cons in Hs as [->|Hs]; [by left|].
        right. exists (s_index s). split; [|done].
        change (map s_index rest) with (s_index <$> rest).
        by apply list_elem_of_fmap_2.
Qed.

Lemma assoc_date_flags (d : Date) (idx : list Date) (a b : column) :
  length a = length idx -> length b = length idx ->
  assoc_date d idx (map of_bool (zip_with fgtb a b))
  = match assoc_date d idx a, assoc_date d idx b with
    | Some c, Some m => Some (of_bool (fgtb c m))
    | _, _ => None
    end.
Proof.
  revert a b. induction idx as [|d0 idx IH]; intros a b Ha Hb.
  - destruct a; [|discriminate]. destruct b; [|discriminate]. reflexivity.
  - destruct a as [|x a]; [discriminate|]. destruct b as [|y b]; [discriminate|].
    simpl in *. destruct (decide (d0 = d)); [done|]. apply IH; lia.
Qed.

Lemma above_flags_wf (f : DataFrame) (close : column) :
  length close = length (df_index f) -> series_wf (above_flags f close).
Proof.
  intros Hlen. unfold series_wf, above_flags, col_gt; simpl.
  rewrite length_map, length_zip_with, rolling_mean_length. lia.
Qed.

(** After [fillna(0)], the cell of an asset's series on a date tells
    whether the asset is above its average on that date. *)
Lemma above_flags_cell (f : DataFrame) (close : column) (d : Date) :
  length close = length (df_index f) ->
  (if isna (default NaN (ser_at (above_flags f close) d)) then Fin 0
   else default NaN (ser_at (above_flags f close) d))
  = of_bool (above_ma200 f close d).
Proof.
  intros Hlen. unfold ser_at, above_flags, above_ma200, col_gt; simpl.
  rewrite assoc_date_flags by (by rewrite ?rolling_mean_length).
  destruct (assoc_date d (df_index f) close) as [c|]; [|done].
  destruct (assoc_date d (df_index f) (rolling_mean 200 close)) as [m|]; [|done].
  simpl. by destruct (fgtb c m).
Qed.

(** A sum of 0/1 cells counts the ones. *)
Lemma foldl_fadd_of_bool (bs : list bool) (a : Q) :
  exists q, foldl fadd (Fin a) (map of_bool bs) = Fin q
    /\ q == a + inject_Z (Z.of_nat (length (List.filter id bs))).
Proof.
  revert a. induction bs as [|b bs IH]; intros a.
  - exists a. split; [done|]. simpl. ring.
  - cbn [map foldl]. destruct b; cbn [of_bool fadd List.filter id].
    + destruct (IH (a + 1)) as (q & -> & Hq). exists q. split; [done|].
      rewrite Hq. cbn [length]. rewrite Nat2Z.inj_succ. unfold Z.succ.
      rewrite inject_Z_plus. ring.
    + destruct (IH (a + 0)) as (q & -> & Hq). exists q. split; [done|].
      rewrite Hq. ring.
Qed.

Lemma dropna_of_bool (bs : list bool) :
  dropna (map of_bool bs) = map of_bool bs.
Proof. induction bs as [|[] bs IH]; simpl; by rewrite ?IH. Qed.

Lemma filter_id_map {A} (p : A -> bool) (l : list A) :
  length (List.filter id (map p l)) = length (List.filter p l).
Proof.
  induction l as [|a l IH]; [done|]. cbn [map List.filter]. unfold id at 1.
  destruct (p a); cbn [length]; by rewrite IH.
Qed.

(** The quorum test on a row of 0/1 cells. *)
Lemma quorum_of_bool (bs : list bool) :
  of_bool (fgeb (fsum (dropna (map of_bool bs))) (Fin 3))
  = of_bool (3 <=? length (List.filter id bs))%nat.
Proof.
  rewrite dropna_of_bool. unfold fsum.
  destruct (foldl_fadd_of_bool bs 0) as (q & -> & Hq).
  unfold fgeb, fleb. f_equal.
  apply eq_true_iff_eq. rewrite Qle_bool_iff, Nat.leb_le, Hq.
  unfold Qle; simpl. lia.
Qed.

(** The run of [build_faang_risk_on_signal] once the five tables load. *)
Lemma build_faang_risk_on_signal_run
    (files : string -> pyres DataFrame)
    (T : string -> DataFrame) (C : string -> column) (h : store) :
  (forall sym, sym ∈ FAANG_TICKERS ->
     files (faang_path sym) = Ok (T sym)
     /\ df_cols (T sym) !! "close" = Some (C sym)
     /\ length (C sym) = length (df_index (T sym))
     /\ NoDup (df_index (T sym))) ->
  exists h1 idx,
    h ⊆ h1 /\ NoDup idx
    /\ (forall d, d ∈ idx <-> exists sym, sym ∈ FAANG_TICKERS /\ d ∈ df_index (T sym))
    /\ build_faang_risk_on_signal files h
       = (Ok (fresh (dom h1)),
          <[fresh (dom h1) :=
              OSeries (mkSeries idx
                (map (fun c => of_bool (fgeb c (Fin 3)))
                   (sum_axis1 idx
                      (map (fillna (Fin 0))
                         (map (fun s => map (fun d => default NaN (ser_at s d)) idx)
                            (map (fun sym => above_flags (T sym) (C sym))
                               FAANG_TICKERS))))))]> h1).
Proof.
  intros Hin. unfold build_faang_risk_on_signal.
  destruct (map_M_run (risk_flag files) (fun sym => above_flags (T sym) (C sym))
              FAANG_TICKERS) with (h := h) as (h1 & Hmap & Hsub).
  { intros sym Hsym h0. destruct (Hin sym Hsym) as (Hf & Hc & _).
    by apply risk_flag_run. }
  rewrite bind_run, Hmap. cbv beta iota.
  set (flags := map (fun sym => above_flags (T sym) (C sym)) FAANG_TICKERS).
  destruct (concat_axis1_spec flags) as (idx & Hcat & Hnd & Hmem).
  { discriminate. }
  { apply Forall_forall. intros s Hs. unfold flags in Hs.
    change (map ?g ?l) with (g <$> l) in Hs.
    apply list_elem_of_fmap in Hs as (sym & -> & Hsym).
    destruct (Hin sym Hsym) as (_ & _ & Hlen & Hnd).
    split; [by apply above_flags_wf|done]. }
  rewrite bind_run. unfold lift. rewrite Hcat. cbv beta iota. cbn [fst snd].
  exists h1, idx. split; [done|]. split; [done|]. split; [|reflexivity].
  intros d. rewrite Hmem. unfold flags. split.
  - intros (s & Hs & Hd). change (map ?g ?l) with (g <$> l) in Hs.
    apply list_elem_of_fmap in Hs as (sym & -> & Hsym). by exists sym.
  - intros (sym & Hsym & Hd). exists (above_flags (T sym) (C sym)).
    split; [|done]. change (map ?g ?l) with (g <$> l).
    by apply (list_elem_of_fmap_2 (fun sym => above_flags (T sym) (C sym))).
Qed.



(* ===================================================================== *)
(** * Further properties *)
(* ===================================================================== *)

(** ** Returns and equity: the round trip *)

Lemma zip_with_take_r {A B C} (f : A -> B -> C) (l : list A) (k : list B) :
  zip_with f l (take (length l) k) = zip_with f l k.
Proof.
  revert k. induction l as [|a l IH]; intros k; [done|].
  destruct k as [|b k]; [done|]. simpl. by rewrite IH.
Qed.

Lemma pct_change_cons (x : fl) (l : column) :
  pct_change (x :: l) = fsub (fdiv x NaN) (Fin 1) :: pct_from x l.
Proof.
  unfold pct_change, col_sub_scalar, col_div, shift1, pct_from.
  cbn [length take zip_with map]. f_equal.
  rewrite zip_with_take_r. generalize (x :: l). intros k.
  revert k. induction l as [|a l IH]; intros k; [done|].
  destruct k as [|b k]; [done|]. simpl. by rewrite IH.
Qed.

Lemma pct_from_cons (prev y : fl) (l : column) :
  pct_from prev (y :: l) = fsub (fdiv y prev) (Fin 1) :: pct_from y l.
Proof. reflexivity. Qed.

(** Compounding the daily returns from a capital that stands for [k]
    times the previous close gives [k] times each close. *)
Lemma cumprod_pct_from (ps : list Q) (prev a k : Q) :
  ~ prev == 0 -> Forall (fun p => ~ p == 0) ps -> a == k * prev ->
  Forall2 (fun cell p => exists e, cell = Fin e /\ e == k * p)
    (cumprod_from (Fin a)
       (col_radd_scalar (Fin 1) (fillna (Fin 0) (pct_from (Fin prev) (map Fin ps)))))
    ps.
Proof.
  intros Hprev Hps. revert prev a Hprev.
  induction Hps as [|p ps Hp Hps IH]; intros prev a Hprev Ha; [constructor|].
  cbn [map]. rewrite pct_from_cons. rewrite fdiv_Fin by (by apply Qeq_bool_false).
  cbn [fsub fopp fadd fillna map isna col_radd_scalar cumprod_from fmul].
  constructor.
  - eexists. split; [reflexivity|]. rewrite Ha. field. done.
  - apply IH; [done|]. rewrite Ha. field. done.
Qed.

Lemma bh_equity_cells (p0 : Q) (ps : list Q) :
  ~ p0 == 0 -> Forall (fun p => ~ p == 0) ps ->
  Forall2 (fun cell p => exists e, cell = Fin e /\ e == initial_capital * (p / p0))
    (bh_equity (pct_change (map Fin (p0 :: ps)))) (p0 :: ps).
Proof.
  intros Hp0 Hps. unfold bh_equity, cumprod. cbn [map]. rewrite pct_change_cons.
  cbn [fdiv fsub fopp fadd fillna map isna col_radd_scalar cumprod_from fmul
       col_mul_scalar].
  constructor.
  - eexists. split; [reflexivity|]. field. done.
  - pose proof (cumprod_pct_from ps p0 (1 * (1 + 0)) (1 / p0) Hp0 Hps) as Hcells.
    unfold col_radd_scalar, fillna in Hcells. rewrite !map_map in Hcells.
    rewrite !map_map.
    assert (1 * (1 + 0) == 1 / p0 * p0) as Ha by (by field).
    specialize (Hcells Ha). clear Ha.
    set (curve := cumprod_from _ _) in *. clearbody curve.
    induction Hcells as [|cell p curve ps' (e & -> & He) _ IH]; [constructor|].
    inversion Hps as [|? ? Hp Hps']; subst. cbn [map fmul]. constructor; [|by apply IH].
    eexists. split; [reflexivity|]. rewrite He. field. done.
Qed.

(** X1.  On finite non-zero closes, the buy-and-hold equity the script
    computes from the daily returns is, on every day, the initial capital
    times the close of the day over the first close: compounding the
    percentage changes gives the price ratio back. *)
Theorem bh_equity_tracks_price (p0 : Q) (ps : list Q) (t : nat) (p : Q) :
  ~ p0 == 0 -> Forall (fun p => ~ p == 0) ps ->
  (p0 :: ps) !! t = Some p ->
  exists e, bh_equity (pct_change (map Fin (p0 :: ps))) !! t = Some (Fin e)
    /\ e == initial_capital * (p / p0).
Proof.
  intros Hp0 Hps Ht.
  destruct (Forall2_lookup_r _ _ _ t p (bh_equity_cells p0 ps Hp0 Hps) Ht)
    as (cell & Hcell & e & -> & He).
  by exists e.
Qed.

Lemma bh_equity_tracks_price_witness :
  exists e, bh_equity (pct_change (map Fin (100 :: [110; 121]))) !! 2%nat = Some (Fin e)
    /\ e == initial_capital * (121 / 100).
Proof.
  apply (bh_equity_tracks_price 100 [110; 121] 2 121).
  - discriminate.
  - repeat constructor; discriminate.
  - reflexivity.
Defined.

(** ** Maximum drawdown: peak to trough, and scale *)

(** The running maximum of finite cells, started from the maximum [a] of
    the cells [pre] seen so far: each cell of it is one of the cells seen
    up to there and is above them all. *)
Lemma cummax_from_Fin (es : list Q) (a : Q) (pre : list Q) :
  a ∈ pre -> (forall x, x ∈ pre -> x <= a) ->
  exists ms, cummax_from (Fin a) (map Fin es) = map Fin ms
    /\ length ms = length es
    /\ forall j m, ms !! j = Some m ->
         m ∈ pre ++ take (S j) es
         /\ forall x, x ∈ pre ++ take (S j) es -> x <= m.
Proof.
  revert a pre. induction es as [|e es IH]; intros a pre Ha Hmax.
  - exists []. split; [done|]. split; [done|]. intros j m Hj; discriminate.
  - cbn [map cummax_from isna]. cbv zeta.
    assert (exists m0, fmax (Fin a) (Fin e) = Fin m0
              /\ m0 ∈ pre ++ [e] /\ forall x, x ∈ pre ++ [e] -> x <= m0)
      as (m0 & -> & Hin0 & Hmax0).
    { unfold fmax, fleb. destruct (Qle_bool a e) eqn:Hae.
      - exists e. apply Qle_bool_iff in Hae. split; [done|]. split.
        + apply elem_of_app. right. apply list_elem_of_here.
        + intros x [Hx|Hx]%elem_of_app.
          * specialize (Hmax x Hx). lra.
          * apply list_elem_of_singleton in Hx as ->. lra.
      - exists a. assert (~ a <= e) by (rewrite <- Qle_bool_iff; congruence).
        split; [done|]. split.
        + apply elem_of_app. by left.
        + intros x [Hx|Hx]%elem_of_app; [by apply Hmax|].
          apply list_elem_of_singleton in Hx as ->. lra. }
    destruct (IH m0 (pre ++ [e]) Hin0 Hmax0) as (ms & -> & Hlen & Hms).
    exists (m0 :: ms). split; [done|]. split; [simpl; by rewrite Hlen|].
    intros [|j] m Hj; simpl in Hj.
    + injection Hj as <-. cbn [take]. split; [done|done].
    + destruct (Hms j m Hj) as [Hin Hle]. cbn [take].
      rewrite <- app_assoc in Hin, Hle. cbn [app] in Hin, Hle.
      change (e :: take (S j) es) with ([e] ++ take (S j) es) in *.
      cbn [app] in *. split; [exact Hin|exact Hle].
Qed.

Lemma cummax_Fin (e0 : Q) (es : list Q) :
  exists ms, cummax (map Fin (e0 :: es)) = map Fin ms
    /\ length ms = length (e0 :: es)
    /\ forall j m, ms !! j = Some m ->
         m ∈ take (S j) (e0 :: es)
         /\ forall x, x ∈ take (S j) (e0 :: es) -> x <= m.
Proof.
  unfold cummax. cbn [map cummax_from isna fmax fleb]. cbv zeta.
  destruct (cummax_from_Fin es e0 [e0]) as (ms & Hms & Hlen & Hspec).
  { apply list_elem_of_here. }
  { intros x Hx. apply list_elem_of_singleton in Hx as ->. lra. }
  exists (e0 :: ms). rewrite Hms. split; [done|]. split; [simpl; by rewrite Hlen|].
  intros [|j] m Hj; simpl in Hj.
  - injection Hj as <-. cbn [take]. split; [apply list_elem_of_here|].
    intros x Hx. apply list_elem_of_singleton in Hx as ->. lra.
  - exact (Hspec j m Hj).
Qed.

Lemma col_div_Fin (es ms : list Q) :
  Forall2 (fun e m => 0 < e /\ e <= m) es ms ->
  col_sub_scalar (col_div (map Fin es) (map Fin ms)) (Fin 1)
  = map Fin (zip_with (fun e m => e / m + - (1)) es ms).
Proof.
  induction 1 as [|e m es ms [He Hm] _ IH]; [done|].
  cbn [map col_div zip_with col_sub_scalar]. rewrite fdiv_Fin.
  - cbn [fsub fopp fadd]. f_equal. exact IH.
  - apply Qeq_bool_false. lra.
Qed.

(** The minimum of finite cells is one of them, below them all. *)
Lemma col_min_Fin (ds : list Q) :
  ds <> [] ->
  exists d, col_min (map Fin ds) = Fin d /\ d ∈ ds /\ forall x, x ∈ ds -> d <= x.
Proof.
  intros Hne. unfold col_min.
  rewrite (dropna_finite _ (forallb_isfinite_Fin ds)).
  destruct ds as [|d0 ds]; [done|]. cbn [map].
  destruct (foldl_fmin_spec (map Fin ds) (Fin d0)) as [Hin Hall].
  { change (Fin d0 :: map Fin ds) with (map Fin (d0 :: ds)).
    apply Forall_forall. intros y Hy. change (map Fin ?l) with (Fin <$> l) in Hy.
    by apply list_elem_of_fmap in Hy as (q & -> & _). }
  change (Fin d0 :: map Fin ds) with (Fin <$> (d0 :: ds)) in Hin, Hall.
  apply list_elem_of_In, list_elem_of_fmap in Hin as (d & Hd & Hin).
  exists d. split; [done|]. split; [done|]. intros x Hx.
  rewrite Forall_forall in Hall. specialize (Hall (Fin x)).
  rewrite Hd in Hall. apply Qle_bool_iff, Hall. by apply list_elem_of_fmap_2.
Qed.

(** On a non-empty curve of positive finite cells the maximum drawdown is
    the least of the ratios [E[j] / E[i] - 1] over [i <= j]. *)
Lemma max_drawdown_ratio_spec (es : list Q) :
  es <> [] -> Forall (fun e => 0 < e) es ->
  exists d, max_drawdown (map Fin es) = Fin d
    /\ -1 < d /\ d <= 0
    /\ (forall i j ei ej, (i <= j)%nat -> es !! i = Some ei -> es !! j = Some ej ->
          d <= ej / ei - 1)
    /\ (exists i j ei ej, (i <= j)%nat /\ es !! i = Some ei /\ es !! j = Some ej
          /\ d == ej / ei - 1).
Proof.
  intros Hne Hpos. destruct es as [|e0 es]; [done|].
  destruct (cummax_Fin e0 es) as (ms & Hms & Hlen & Hspec).
  set (E := e0 :: es) in *.
  assert (Forall2 (fun e m => 0 < e /\ e <= m) E ms) as HEm.
  { apply Forall2_same_length_lookup. split; [done|]. intros j e m He Hm.
    split; [by apply (Forall_lookup_1 _ _ _ _ Hpos He)|].
    apply (Hspec j m Hm). apply list_elem_of_lookup. exists j.
    rewrite lookup_take_lt by lia. done. }
  unfold max_drawdown, drawdown. rewrite Hms, (col_div_Fin E ms HEm).
  destruct (col_min_Fin (zip_with (fun e m => e / m + - (1)) E ms))
    as (d & -> & Hd & Hmin).
  { intros Hnil. apply (f_equal length) in Hnil.
    rewrite length_zip_with, Hlen in Hnil. simpl in Hnil. lia. }
  exists d. split; [done|].
  assert (forall i j ei ej, (i <= j)%nat -> E !! i = Some ei -> E !! j = Some ej ->
            d <= ej / ei - 1) as Hall.
  { intros i j ei ej Hij Hi Hj.
    destruct (lookup_lt_is_Some_2 ms j) as [m Hm].
    { rewrite Hlen. by apply lookup_lt_Some in Hj. }
    assert (d <= ej / m + - (1)) as Hdj.
    { apply Hmin. apply list_elem_of_lookup. exists j.
      by rewrite lookup_zip_with, Hj, Hm. }
    assert (0 < ei) as Hei by (by apply (Forall_lookup_1 _ _ _ _ Hpos Hi)).
    assert (0 < ej) as Hej by (by apply (Forall_lookup_1 _ _ _ _ Hpos Hj)).
    assert (ei <= m) as Hle.
    { apply (Hspec j m Hm). apply list_elem_of_lookup. exists i.
      rewrite lookup_take_lt by lia. done. }
    assert (ej / m <= ej / ei); [|lra].
    apply Qle_shift_div_l; [lra|].
    assert (ej / m * ei == (ej * ei) / m) as -> by (field; lra).
    apply Qle_shift_div_r; [lra|]. nra. }
  assert (exists i j ei ej, (i <= j)%nat /\ E !! i = Some ei /\ E !! j = Some ej
            /\ d == ej / ei - 1) as Hex.
  { apply list_elem_of_lookup in Hd as (j & Hj).
    rewrite lookup_zip_with in Hj.
    destruct (E !! j) as [ej|] eqn:Hej; [|discriminate]. simpl in Hj.
    destruct (ms !! j) as [m|] eqn:Hm; [|discriminate]. simpl in Hj.
    injection Hj as <-.
    destruct (Hspec j m Hm) as [Hin _].
    apply list_elem_of_lookup in Hin as (i & Hi).
    apply lookup_take_Some in Hi as [Hi Hlt].
    exists i, j, m, ej. split; [lia|]. split; [done|]. split; [done|].
    unfold Qminus. reflexivity. }
  split; [|split; [|split; [exact Hall|exact Hex]]].
  - destruct Hex as (i & j & ei & ej & _ & Hi & Hj & ->).
    assert (0 < ei) as Hei by (by apply (Forall_lookup_1 _ _ _ _ Hpos Hi)).
    assert (0 < ej) as Hej by (by apply (Forall_lookup_1 _ _ _ _ Hpos Hj)).
    assert (0 < ej / ei); [|lra]. apply Qlt_shift_div_l; lra.
  - specialize (Hall 0%nat 0%nat e0 e0 (le_n _) eq_refl eq_refl).
    assert (e0 / e0 == 1) as He; [|lra].
    inversion Hpos; subst. field. lra.
Qed.

(** X2.  On a non-empty curve of positive finite cells the maximum
    drawdown is the largest relative fall from an earlier cell to a later
    one: it is [E[j] / E[i] - 1] for some [i <= j], it is at most
    [E[j] / E[i] - 1] for every [i <= j], and it lies in (-1, 0]. *)
Theorem max_drawdown_peak_to_trough (es : list Q) :
  es <> [] -> Forall (fun e => 0 < e) es ->
  exists d, max_drawdown (map Fin es) = Fin d
    /\ -1 < d /\ d <= 0
    /\ (forall i j ei ej, (i <= j)%nat -> es !! i = Some ei -> es !! j = Some ej ->
          d <= ej / ei - 1)
    /\ (exists i j ei ej, (i <= j)%nat /\ es !! i = Some ei /\ es !! j = Some ej
          /\ d == ej / ei - 1).
Proof. exact (max_drawdown_ratio_spec es). Qed.

Lemma max_drawdown_peak_to_trough_witness :
  exists d, max_drawdown (map Fin [100; 120; 90; 110]) = Fin d
    /\ -1 < d /\ d <= 0
    /\ (forall i j ei ej, (i <= j)%nat ->
          [100; 120; 90; 110] !! i = Some ei -> [100; 120; 90; 110] !! j = Some ej ->
          d <= ej / ei - 1)
    /\ (exists i j ei ej, (i <= j)%nat /\ [100; 120; 90; 110] !! i = Some ei
          /\ [100; 120; 90; 110] !! j = Some ej /\ d == ej / ei - 1).
Proof.
  apply (max_drawdown_peak_to_trough [100; 120; 90; 110]).
  - discriminate.
  - repeat constructor.
Defined.

(** Curves that are proportional, cell by cell, have the same maximum
    drawdown. *)
Lemma max_drawdown_proportional (c : Q) (curve : column) (es : list Q) :
  0 < c -> es <> [] -> Forall (fun e => 0 < e) es ->
  Forall2 (fun cell e => exists e', cell = Fin e' /\ e' == c * e) curve es ->
  max_drawdown curve ≡ max_drawdown (map Fin es).
Proof.
  intros Hc Hne Hpos Hcells.
  assert (exists es', curve = map Fin es' /\ Forall2 (fun e' e => e' == c * e) es' es)
    as (es' & -> & Hprop).
  { clear Hne Hpos. induction Hcells as [|cell e curve es (e' & -> & He) _ (es' & -> & IH)].
    - by exists [].
    - exists (e' :: es'). split; [done|]. by constructor. }
  assert (Forall (fun e => 0 < e) es') as Hpos'.
  { apply Forall_lookup. intros i e' Hi.
    destruct (Forall2_lookup_l _ _ _ _ _ Hprop Hi) as (e & He & ->).
    pose proof (Forall_lookup_1 _ _ _ _ Hpos He). simpl in *. nra. }
  assert (es' <> []) as Hne'.
  { intros ->. inversion Hprop; subst. done. }
  assert (forall i j ei ej ei' ej', es !! i = Some ei -> es !! j = Some ej ->
            es' !! i = Some ei' -> es' !! j = Some ej' ->
            ej' / ei' - 1 == ej / ei - 1) as Hratio.
  { intros i j ei ej ei' ej' Hi Hj Hi' Hj'.
    destruct (Forall2_lookup_l _ _ _ _ _ Hprop Hi') as (x & Hx & ->).
    destruct (Forall2_lookup_l _ _ _ _ _ Hprop Hj') as (y & Hy & ->).
    assert (x = ei) as -> by congruence. assert (y = ej) as -> by congruence.
    pose proof (Forall_lookup_1 _ _ _ _ Hpos Hi). simpl in *.
    field. split; lra. }
  destruct (max_drawdown_ratio_spec es Hne Hpos)
    as (d & -> & _ & _ & Hall & i & j & ei & ej & Hij & Hi & Hj & Hd).
  destruct (max_drawdown_ratio_spec es' Hne' Hpos')
    as (d' & -> & _ & _ & Hall' & i' & j' & ei' & ej' & Hij' & Hi' & Hj' & Hd').
  change (d' == d). apply Qle_antisym.
  - destruct (Forall2_lookup_r _ _ _ _ _ Hprop Hi) as (xi & Hxi & _).
    destruct (Forall2_lookup_r _ _ _ _ _ Hprop Hj) as (xj & Hxj & _).
    rewrite Hd, <- (Hratio i j ei ej xi xj Hi Hj Hxi Hxj).
    by apply (Hall' i j).
  - destruct (Forall2_lookup_l _ _ _ _ _ Hprop Hi') as (xi & Hxi & _).
    destruct (Forall2_lookup_l _ _ _ _ _ Hprop Hj') as (xj & Hxj & _).
    rewrite Hd', (Hratio i' j' xi xj ei' ej' Hxi Hxj Hi' Hj').
    by apply (Hall i' j').
Qed.

(** X3.  The maximum drawdown does not depend on the scale of the curve:
    multiplying a non-empty curve of positive finite cells by a positive
    constant (the initial capital, say) leaves it unchanged. *)
Theorem max_drawdown_scale_invariant (es : list Q) (c : Q) :
  0 < c -> es <> [] -> Forall (fun e => 0 < e) es ->
  max_drawdown (col_mul_scalar (map Fin es) (Fin c)) ≡ max_drawdown (map Fin es).
Proof.
  intros Hc Hne Hpos. apply (max_drawdown_proportional c); [done..|].
  clear. unfold col_mul_scalar. induction es as [|e es IH]; [constructor|].
  cbn [map fmul]. constructor; [|exact IH].
  eexists. split; [reflexivity|]. ring.
Qed.

Lemma max_drawdown_scale_invariant_witness :
  max_drawdown (col_mul_scalar (map Fin [100; 120; 90]) (Fin 1000))
  ≡ max_drawdown (map Fin [100; 120; 90]).
Proof.
  apply (max_drawdown_scale_invariant [100; 120; 90] 1000).
  - reflexivity.
  - discriminate.
  - repeat constructor.
Defined.

(** X4.  On positive finite closes, the maximum drawdown the script
    reports for buy and hold is the maximum drawdown of the close prices
    themselves: going through daily returns and compounding loses
    nothing. *)
Theorem bh_drawdown_is_price_drawdown (p0 : Q) (ps : list Q) :
  Forall (fun p => 0 < p) (p0 :: ps) ->
  max_drawdown (bh_equity (pct_change (map Fin (p0 :: ps))))
  ≡ max_drawdown (map Fin (p0 :: ps)).
Proof.
  intros Hpos. inversion Hpos as [|? ? Hp0 Hps]; subst.
  apply (max_drawdown_proportional (initial_capital / p0)); [|done|done|].
  - apply Qlt_shift_div_l; [done|]. reflexivity.
  - eapply Forall2_impl.
    + apply bh_equity_cells; [lra|]. eapply Forall_impl; [exact Hps|].
      intros p Hp. simpl in Hp. lra.
    + intros cell p (e & -> & He). exists e. split; [done|].
      rewrite He. field. lra.
Qed.

Lemma bh_drawdown_is_price_drawdown_witness :
  max_drawdown (bh_equity (pct_change (map Fin (100 :: [120; 90]))))
  ≡ max_drawdown (map Fin (100 :: [120; 90])).
Proof.
  apply (bh_drawdown_is_price_drawdown 100 [120; 90]).
  repeat constructor.
Defined.

(* ===================================================================== *)
(** ** Volatility and Sharpe ratio: sign and edge cases *)
(* ===================================================================== *)

(** A sum of non-negative terms is at least its start, and equals it
    only when every term is 0. *)
Lemma foldl_Qplus_nonneg (f : Q -> Q) (qs : list Q) (a : Q) :
  (forall q, 0 <= f q) ->
  a <= foldl Qplus a (map f qs)
  /\ (foldl Qplus a (map f qs) == a <-> forall q, q ∈ qs -> f q == 0).
Proof.
  intros Hf. revert a. induction qs as [|q qs IH]; intros a; cbn [map foldl].
  - split; [lra|]. split; [|reflexivity]. intros _ q Hq. by apply elem_of_nil in Hq.
  - destruct (IH (a + f q)) as [Hle Hiff]. pose proof (Hf q) as Hq.
    split; [lra|]. split.
    + intros Heq. assert (f q == 0) as Hq0 by lra.
      intros x [->|Hx]%elem_of_cons; [done|]. apply Hiff; [|done]. lra.
    + intros Hall. assert (f q == 0) as Hq0 by (apply Hall; left).
      transitivity (a + f q); [|lra]. apply Hiff. intros x Hx. apply Hall. by right.
Qed.

Lemma foldl_Qplus_const (qs : list Q) (a c : Q) :
  (forall q, q ∈ qs -> q == c) ->
  foldl Qplus a qs == a + inject_Z (Z.of_nat (length qs)) * c.
Proof.
  revert a. induction qs as [|q qs IH]; intros a Hall.
  - simpl. ring.
  - cbn [foldl length]. rewrite IH by (intros x Hx; apply Hall; by right).
    rewrite (Hall q) by left. rewrite Nat2Z.inj_succ. unfold Z.succ.
    rewrite inject_Z_plus. ring.
Qed.

Lemma Qsq_nonneg (t : Q) : 0 <= t * t.
Proof.
  destruct (Qlt_le_dec t 0) as [Hneg|Hpos].
  - assert (t * t == (- t) * (- t)) as -> by ring.
    apply Qmult_le_0_compat; lra.
  - by apply Qmult_le_0_compat.
Qed.

Lemma Qsq_zero (t : Q) : t * t == 0 -> t == 0.
Proof.
  intros Hz. destruct (Qmult_integral _ _ Hz); done.
Qed.

Lemma map_sq_dev_Fin (a : Q) (qs : list Q) :
  map (fun x => fmul (fsub (Fin a) x) (fsub (Fin a) x)) (map Fin qs)
  = map Fin (map (fun q => (a + - q) * (a + - q)) qs).
Proof. rewrite !map_map. reflexivity. Qed.

Section Volatility.
Context `{FloatSqrt}.

Lemma sqrtQ_nonneg (x : Q) : 0 <= x -> 0 <= sqrtQ x /\ (sqrtQ x == 0 <-> x == 0).
Proof.
  intros Hx. destruct (Qlt_le_dec 0 x) as [Hpos|Hle].
  - pose proof (sqrtQ_pos x Hpos). split; [lra|]. split; intros; lra.
  - assert (x == 0) as H0 by lra. pose proof (sqrtQ_zero x H0). split; [lra|]. done.
Qed.

(** The sample standard deviation of finite cells, two or more. *)
Lemma col_std_Fin (qs : list Q) :
  (2 <= length qs)%nat ->
  exists s, col_std (map Fin qs) = Fin s /\ 0 <= s
    /\ (s == 0 <-> forall x y, x ∈ qs -> y ∈ qs -> x == y).
Proof.
  intros Hn. unfold col_std. cbv zeta.
  rewrite (dropna_finite _ (forallb_isfinite_Fin qs)), length_map.
  destruct (Nat.leb_spec (length qs) 1) as [?|_]; [lia|].
  unfold fsum. rewrite (foldl_fadd_Fin qs 0). unfold fnat.
  rewrite (fdiv_Fin (foldl Qplus 0 qs)) by (apply inject_nat_nonzero; lia).
  set (n := inject_Z (Z.of_nat (length qs))).
  assert (0 < n) as Hnpos.
  { unfold n. unfold Qlt; simpl. lia. }
  set (a := foldl Qplus 0 qs / n).
  rewrite map_sq_dev_Fin, foldl_fadd_Fin.
  rewrite fdiv_Fin by (apply inject_nat_nonzero; lia).
  set (k := inject_Z (Z.of_nat (length qs - 1))).
  assert (0 < k) as Hkpos.
  { unfold k. unfold Qlt; simpl. lia. }
  set (f := fun q => (a + - q) * (a + - q)).
  destruct (foldl_Qplus_nonneg f qs 0) as [Hss Hiff].
  { intros q. unfold f. apply Qsq_nonneg. }
  set (ss := foldl Qplus 0 (map f qs)) in *.
  assert (0 <= ss / k) as Hvar by (apply Qle_shift_div_l; lra).
  unfold fsqrt. assert (Qltb (ss / k) 0 = false) as -> by (by apply Qltb_false).
  destruct (sqrtQ_nonneg (ss / k) Hvar) as [Hs Hs0].
  eexists. split; [reflexivity|]. split; [done|].
  rewrite Hs0.
  assert (ss / k == 0 <-> ss == 0) as ->.
  { split; intros Hz.
    - assert (ss == ss / k * k) as -> by (field; lra). rewrite Hz. ring.
    - rewrite Hz. field. lra. }
  rewrite Hiff. unfold f. split.
  - intros Hall x y Hx Hy.
    pose proof (Hall x Hx) as Hx0. pose proof (Hall y Hy) as Hy0.
    apply Qsq_zero in Hx0, Hy0. lra.
  - intros Hall q Hq.
    assert (a == q) as ->; [|ring].
    unfold a. rewrite (foldl_Qplus_const qs 0 q) by (intros x Hx; by apply Hall).
    fold n. field. lra.
Qed.

(** X5.  On two or more finite returns and a positive number of periods
    per year, the annualized volatility is a finite number, never
    negative, and positive as soon as two of the returns differ. *)
Theorem annualized_volatility_sign (qs : list Q) (p : nat) :
  (2 <= length qs)%nat -> p <> 0%nat ->
  exists v, annualized_volatility (map Fin qs) p = Fin v /\ 0 <= v
    /\ ((exists x y, x ∈ qs /\ y ∈ qs /\ ~ x == y) -> 0 < v).
Proof.
  intros Hn Hp. unfold annualized_volatility.
  destruct (col_std_Fin qs Hn) as (s & -> & Hs & Hs0).
  assert (0 < inject_Z (Z.of_nat p)) as Hppos.
  { unfold Qlt; simpl. lia. }
  unfold fsqrt, fnat.
  assert (Qltb (inject_Z (Z.of_nat p)) 0 = false) as -> by (apply Qltb_false; lra).
  pose proof (sqrtQ_pos _ Hppos) as Hsp.
  eexists. split; [reflexivity|]. split; [nra|].
  intros (x & y & Hx & Hy & Hxy).
  assert (0 < s) as Hspos; [|nra].
  destruct (Qlt_le_dec 0 s) as [?|Hle]; [done|]. exfalso.
  apply Hxy. apply Hs0; [lra|done..].
Qed.

Lemma dropna_sub_scalar_length (l : column) (c : Q) :
  length (dropna (col_sub_scalar l (Fin c))) = length (dropna l).
Proof.
  unfold dropna, col_sub_scalar. induction l as [|x l IH]; [done|].
  destruct x; cbn [map List.filter fsub fopp fadd isna negb length]; by rewrite ?IH.
Qed.

(** X6.  With fewer than two returns present (an empty table, a table of
    one row, or all cells missing) the volatility is NaN, and so is the
    Sharpe ratio: nothing is raised. *)
Theorem metrics_undefined_below_two_returns (returns : column) (rf : Q) (p : nat) :
  (length (dropna returns) <= 1)%nat -> p <> 0%nat ->
  annualized_volatility returns p = NaN /\ sharpe_ratio returns rf p = Ok NaN.
Proof.
  intros Hlen Hp. split.
  - unfold annualized_volatility, col_std. cbv zeta.
    destruct (Nat.leb_spec (length (dropna returns)) 1) as [_|?]; [done|lia].
  - rewrite sharpe_ratio_formula by done. cbv zeta. f_equal.
    set (excess := col_sub_scalar _ _).
    assert (col_std excess = NaN) as ->.
    { unfold col_std. cbv zeta. unfold excess. rewrite dropna_sub_scalar_length.
      destruct (Nat.leb_spec (length (dropna returns)) 1) as [_|?]; [done|lia]. }
    by destruct (col_mean excess).
Qed.




End Volatility.

Lemma annualized_volatility_sign_witness :
  exists v, annualized_volatility (map Fin [1 # 100; - (1 # 50); 3 # 100]) 252 = Fin v
    /\ 0 <= v
    /\ ((exists x y, x ∈ [1 # 100; - (1 # 50); 3 # 100]
                     /\ y ∈ [1 # 100; - (1 # 50); 3 # 100] /\ ~ x == y) -> 0 < v).
Proof.
  apply (annualized_volatility_sign [1 # 100; - (1 # 50); 3 # 100] 252).
  - simpl. lia.
  - discriminate.
Defined.

Lemma metrics_undefined_below_two_returns_witness :
  annualized_volatility [NaN; Fin (1 # 100)] 252 = NaN
  /\ sharpe_ratio [NaN; Fin (1 # 100)] 0 252 = Ok NaN.
Proof.
  apply (metrics_undefined_below_two_returns [NaN; Fin (1 # 100)] 0 252).
  - simpl. lia.
  - discriminate.
Defined.


(* ===================================================================== *)
(** ** summarize_performance *)
(* ===================================================================== *)

Lemma foldl_Qmult_start (qs : list Q) (a : Q) :
  foldl Qmult a qs == a * foldl Qmult 1 qs.
Proof.
  revert a. induction qs as [|q qs IH]; intros a.
  - simpl. ring.
  - cbn [foldl]. rewrite (IH (a * q)), (IH (1 * q)). ring.
Qed.

Lemma growth_cons (q : Q) (qs : list Q) : growth (q :: qs) == (1 + q) * growth qs.
Proof.
  unfold growth, qprod. cbn [map foldl]. rewrite foldl_Qmult_start. ring.
Qed.

(** Compounding finite returns from [a]: the last cell is [a] times the
    growth factor. *)
Lemma cumprod_from_last (qs : list Q) (a : Q) :
  exists e, last (Fin a :: cumprod_from (Fin a) (col_radd_scalar (Fin 1) (map Fin qs)))
            = Some (Fin e)
    /\ e == a * growth qs.
Proof.
  revert a. induction qs as [|q qs IH]; intros a.
  - exists a. split; [done|]. unfold growth, qprod. simpl. ring.
  - cbn [map col_radd_scalar cumprod_from fadd isna fmul].
    destruct (IH (a * (1 + q))) as (e & He & Heq).
    exists e. split.
    + rewrite last_cons in *. cbn [last] in *. rewrite last_cons.
      destruct (last (cumprod_from _ _)); [done|]. done.
    + rewrite Heq, growth_cons. ring.
Qed.

Lemma last_map {A B} (f : A -> B) (l : list A) : last (map f l) = f <$> last l.
Proof.
  induction l as [|x [|y l] IH]; [done..|].
  change (map f (x :: y :: l)) with (f x :: map f (y :: l)).
  by rewrite !last_cons_cons.
Qed.

Section Summary.
Context `{FloatSqrt}.

(** X8.  [summarize_performance] raises IndexError on an empty return
    series, at [equity.iloc[-1]], and on no other series: whatever the
    cells are, a non-empty series gets its five statistics. *)
Theorem summarize_performance_raises_iff_empty (daily_ret : column) :
  (summarize_performance daily_ret = Raise IndexError <-> daily_ret = [])
  /\ ((exists r, summarize_performance daily_ret = Ok r) <-> daily_ret <> []).
Proof.
  destruct daily_ret as [|x l].
  - split; split; try done. by intros [r Hr].
  - destruct (summarize_performance_sharpe (x :: l)) as (r & Hr & _); [done|].
    rewrite Hr. split; split; try done. by exists r.
Qed.

(** X9.  On a non-empty series of finite returns, the final equity is
    100000 times the compounded growth factor of the returns, and the
    total return is the growth factor minus 1. *)
Theorem summarize_performance_compounds (qs : list Q) :
  qs <> [] ->
  exists r e, summarize_performance (map Fin qs) = Ok r
    /\ final_equity r = Fin e /\ e == 100000 * growth qs
    /\ total_return r ≡ Fin (growth qs - 1).
Proof.
  intros Hne. unfold summarize_performance, cumprod, col_mul_scalar. cbv zeta.
  destruct qs as [|q qs]; [done|].
  change (col_radd_scalar (Fin 1) (map Fin (q :: qs)))
    with (fadd (Fin 1) (Fin q) :: col_radd_scalar (Fin 1) (map Fin qs)).
  cbn [cumprod_from fadd isna fmul].
  destruct (cumprod_from_last qs (1 * (1 + q))) as (e & He & Heq).
  unfold iloc_last. rewrite last_map, He. cbn [fmap option_fmap option_map fmul mbind pyres_bind].
  eexists _, _. split; [reflexivity|]. cbn [final_equity total_return].
  split; [reflexivity|]. split.
  - rewrite Heq, growth_cons. ring.
  - rewrite fdiv_Fin by done. cbn [fsub fopp fadd].
    change (e * 100000 / 100000 + - (1) == growth (q :: qs) - 1).
    rewrite Heq, growth_cons. field.
Qed.


End Summary.

Lemma summarize_performance_compounds_witness :
  exists r e, summarize_performance (map Fin [1 # 10; - (1 # 2)]) = Ok r
    /\ final_equity r = Fin e /\ e == 100000 * growth [1 # 10; - (1 # 2)]
    /\ total_return r ≡ Fin (growth [1 # 10; - (1 # 2)] - 1).
Proof.
  apply (summarize_performance_compounds [1 # 10; - (1 # 2)]). discriminate.
Defined.


(* ===================================================================== *)
(** ** strategy_momentum: warm-up and missing columns *)
(* ===================================================================== *)

Lemma df_getitem_ins_None (h : store) (l : loc) (f : DataFrame) (c : string) :
  df_cols f !! c = None ->
  df_getitem l c (<[l := OFrame f]> h) = (Raise KeyError, <[l := OFrame f]> h).
Proof.
  intros Hc. unfold df_getitem. rewrite bind_run, get_frame_ins. cbv beta iota.
  by rewrite Hc.
Qed.

(** Until [lookback] closes are there, the position is 0. *)
Lemma momentum_position_warm (n lookback : nat) (close : column) (t : nat) :
  length close = n -> (t < n)%nat -> (S t < lookback)%nat ->
  momentum_position n lookback close !! t = Some (Fin 0).
Proof.
  intros Hn Ht Hlb.
  destruct (lookup_lt_is_Some_2 close t) as [c Hc]; [lia|].
  destruct (momentum_position_lookup n lookback close t c Hn Hc) as (m & Hm & ->).
  unfold momentum_ma in Hm. rewrite (rolling_mean_lookup lookback close t c Hc) in Hm.
  destruct (Nat.ltb_spec (S t) lookback) as [_|?]; [|lia].
  injection Hm as <-. by destruct c.
Qed.

Lemma momentum_return_warm (n lookback : nat) (close ret : column) (t : nat) :
  length close = n -> length ret = n -> (t < n)%nat ->
  t = 0%nat \/ (t < lookback)%nat ->
  exists z, momentum_return n lookback close ret !! t = Some (Fin z) /\ z == 0.
Proof.
  intros Hc Hr Ht Hwarm.
  destruct (momentum_return_lookup n lookback close ret Hc Hr) as [H0 HS].
  destruct (lookup_lt_is_Some_2 ret t) as [r Hrt]; [lia|].
  destruct t as [|t].
  - exists 0. split; [by apply (H0 r)|reflexivity].
  - destruct Hwarm as [?|Hlb]; [done|].
    destruct (HS t r Hrt) as (p & Hp & ->).
    rewrite momentum_position_warm in Hp by (done || lia). injection Hp as <-.
    destruct r as [a| | |]; simpl.
    + exists (0 * a). split; [done|ring].
    + by exists 0.
    + by exists 0.
    + by exists 0.
Qed.

(** Compounding returns of 0 keeps the starting value. *)
Lemma cumprod_from_prefix_zero (l : column) (a : Q) (k : nat) :
  (forall t, (t < k)%nat -> exists z, l !! t = Some (Fin z) /\ z == 0) ->
  forall t, (t < k)%nat ->
    exists e, cumprod_from (Fin a) (col_radd_scalar (Fin 1) l) !! t = Some (Fin e)
      /\ e == a.
Proof.
  revert a k. induction l as [|x l IH]; intros a k Hzero t Ht.
  - destruct (Hzero t Ht) as (z & Hz & _). discriminate.
  - destruct (Hzero 0%nat ltac:(lia)) as (z & Hz & Hz0).
    injection Hz as ->.
    cbn [col_radd_scalar map cumprod_from fadd isna fmul].
    destruct t as [|t].
    + eexists. split; [reflexivity|]. rewrite Hz0. ring.
    + destruct (IH (a * (1 + z)) (pred k)) with (t := t) as (e & He & Heq).
      * intros u Hu. apply (Hzero (S u)). lia.
      * lia.
      * exists e. split; [exact He|]. rewrite Heq, Hz0. ring.
Qed.

(** X11.  During the warm-up of the moving average [strategy_momentum]
    stays in cash: on the first row and on every row before [lookback]
    the strategy return is 0 and the equity is the initial capital,
    whatever the closes and returns of the table are. *)
Theorem strategy_momentum_warm_up (h : store) (df : loc) (f : DataFrame)
    (close ret : column) (lookback : nat) (cap : Q) :
  h !! df = Some (OFrame f) ->
  df_cols f !! "close" = Some close ->
  df_cols f !! "return" = Some ret ->
  length close = length (df_index f) ->
  length ret = length (df_index f) ->
  exists g sr equity,
    returns_frame (strategy_momentum df lookback cap) h g
    /\ df_cols g !! "strategy_return" = Some sr
    /\ df_cols g !! "strategy_equity" = Some equity
    /\ forall t, (t < length (df_index f))%nat ->
         t = 0%nat \/ (t < lookback)%nat ->
         exists y e, sr !! t = Some (Fin y) /\ y == 0
           /\ equity !! t = Some (Fin e) /\ e == cap.
Proof.
  intros Hdf Hc Hr Hlc Hlr. eexists _, _, _. split.
  { apply returns_frame_intro,
      (strategy_momentum_run h df f lookback cap close ret Hdf Hc Hr). }
  unfold momentum_frame; cbn [df_cols]. split; [by simplify_map_eq|].
  split; [by simplify_map_eq|].
  set (n := length (df_index f)) in *. intros t Ht Hwarm.
  destruct (momentum_return_warm n lookback close ret t Hlc Hlr Ht Hwarm)
    as (y & Hy & Hy0).
  exists y. unfold momentum_equity, cumprod, col_mul_scalar.
  set (k := if decide (t = 0%nat) then 1%nat else Nat.min lookback n).
  destruct (cumprod_from_prefix_zero (momentum_return n lookback close ret) 1 k)
    with (t := t) as (e & He & Heq).
  { intros u Hu. apply momentum_return_warm; try done.
    - unfold k in Hu. destruct (decide (t = 0%nat)); lia.
    - unfold k in Hu. destruct (decide (t = 0%nat)); lia. }
  { unfold k. destruct (decide (t = 0%nat)); lia. }
  exists (e * cap). split; [done|]. split; [done|]. split.
  - change (map ?g ?l) with (g <$> l). by rewrite list_lookup_fmap, He.
  - rewrite Heq. ring.
Qed.

(** X12.  [strategy_momentum] needs the close and the return column: on
    a table without a close column, or with a close but no return
    column, it raises KeyError.  The table it was given is as it was. *)
Theorem strategy_momentum_missing_column (h : store) (df : loc) (f : DataFrame)
    (lookback : nat) (cap : Q) :
  h !! df = Some (OFrame f) ->
  df_cols f !! "close" = None \/ df_cols f !! "return" = None ->
  (strategy_momentum df lookback cap h).1 = Raise KeyError
  /\ (strategy_momentum df lookback cap h).2 !! df = Some (OFrame f).
Proof.
  intros Hdf Hmiss. unfold strategy_momentum.
  run_step (df_copy_run h df f Hdf).
  set (s := fresh (dom h)).
  assert (s <> df) as Hne.
  { intros Heq. pose proof (fresh_loc_None h) as Hn. fold s in Hn. congruence. }
  destruct (df_cols f !! "close") as [close|] eqn:Hclose.
  - destruct Hmiss as [?|Hret]; [done|].
    run_step (df_getitem_ins h s f "close" close).
    run_step df_setitem_ins.
    run_step df_setitem_scalar_ins.
    run_step (df_getitem_ins h s _ "close" close).
    run_step (df_getitem_ins h s _ "ma" (rolling_mean lookback close)).
    run_step (df_loc_setitem_ins h s _ _ "position" (Fin 1)
                (replicate (length (df_index f)) (Fin 0))).
    run_step (df_getitem_ins h s _ "position"
                (momentum_position (length (df_index f)) lookback close)).
    rewrite bind_run, df_getitem_ins_None by (simpl; by simplify_map_eq).
    split; [done|]. cbn [snd]. by rewrite lookup_insert_ne.
  - rewrite bind_run, df_getitem_ins_None by done.
    split; [done|]. cbn [snd]. by rewrite lookup_insert_ne.
Qed.

Lemma strategy_momentum_warm_up_witness :
  exists g sr equity,
    returns_frame (strategy_momentum 1%positive 2 100000) table_store g
    /\ df_cols g !! "strategy_return" = Some sr
    /\ df_cols g !! "strategy_equity" = Some equity
    /\ forall t, (t < length (df_index sample_table))%nat ->
         t = 0%nat \/ (t < 2)%nat ->
         exists y e, sr !! t = Some (Fin y) /\ y == 0
           /\ equity !! t = Some (Fin e) /\ e == 100000.
Proof.
  apply (strategy_momentum_warm_up table_store 1%positive sample_table
           (map Fin sample_closes) (pct_change (map Fin sample_closes)) 2 100000);
    reflexivity.
Defined.

Lemma strategy_momentum_missing_column_witness :
  (strategy_momentum 1%positive 50 100000 {[ 1%positive := OFrame one_month_table ]}).1
  = Raise KeyError
  /\ (strategy_momentum 1%positive 50 100000
        {[ 1%positive := OFrame one_month_table ]}).2 !! 1%positive
     = Some (OFrame one_month_table).
Proof.
  apply (strategy_momentum_missing_column {[ 1%positive := OFrame one_month_table ]}
           1%positive one_month_table 50 100000).
  - reflexivity.
  - right. reflexivity.
Defined.

(* ===================================================================== *)
(** ** strategy_momentum: the equity compounds the strategy returns *)
(* ===================================================================== *)

Lemma finite_column (l : column) :
  Forall (fun x => exists q, x = Fin q) l -> exists qs, l = map Fin qs.
Proof.
  induction 1 as [|x l (q & ->) _ (qs & ->)]; [by exists []|]. by exists (q :: qs).
Qed.

(** Compounding finite returns from [a]: each cell is [a] times the
    growth factor of the returns up to it. *)
Lemma cumprod_from_growth (qs : list Q) (a : Q) (t : nat) :
  (t < length qs)%nat ->
  exists e, cumprod_from (Fin a) (col_radd_scalar (Fin 1) (map Fin qs)) !! t
            = Some (Fin e)
    /\ e == a * growth (take (S t) qs).
Proof.
  revert a t. induction qs as [|q qs IH]; intros a t Ht; [simpl in Ht; lia|].
  cbn [map col_radd_scalar cumprod_from fadd isna fmul].
  destruct t as [|t].
  - eexists. split; [reflexivity|]. cbn [take]. rewrite growth_cons.
    unfold growth, qprod. simpl. ring.
  - destruct (IH (a * (1 + q)) t) as (e & He & Heq); [simpl in Ht; lia|].
    exists e. split; [exact He|].
    rewrite Heq. change (take (S (S t)) (q :: qs)) with (q :: take (S t) qs).
    rewrite growth_cons. ring.
Qed.

(** With returns that are finite or missing, the strategy returns are
    finite. *)
Lemma momentum_return_finite (n lookback : nat) (close ret : column) :
  length close = n -> length ret = n ->
  Forall (fun r => r = NaN \/ exists q, r = Fin q) ret ->
  exists rs, momentum_return n lookback close ret = map Fin rs.
Proof.
  intros Hc Hr Hret. apply finite_column, Forall_lookup. intros t y Hy.
  destruct (momentum_return_lookup n lookback close ret Hc Hr) as [H0 HS].
  assert (t < n)%nat as Ht.
  { apply lookup_lt_Some in Hy. by rewrite momentum_return_length in Hy. }
  destruct (lookup_lt_is_Some_2 ret t) as [r Hrt]; [lia|].
  destruct t as [|t].
  - rewrite (H0 r Hrt) in Hy. injection Hy as <-. by eexists.
  - destruct (HS t r Hrt) as (p & Hp & Hcell). rewrite Hcell in Hy. injection Hy as <-.
    destruct (lookup_lt_is_Some_2 close t) as [c Hct]; [lia|].
    destruct (momentum_position_lookup n lookback close t c Hc Hct) as (m & _ & Hp').
    rewrite Hp' in Hp. injection Hp as <-.
    rewrite Forall_forall in Hret.
    destruct (Hret r) as [->|(q & ->)]; [by eapply list_elem_of_lookup_2| |].
    + destruct (fgtb c m); simpl; by eexists.
    + destruct (fgtb c m); simpl; by eexists.
Qed.

(** X13.  On returns that are finite or missing, the strategy returns of
    [strategy_momentum] are finite numbers, and its equity on each row is
    the initial capital times the growth factor of the strategy returns
    up to that row. *)
Theorem strategy_momentum_equity_compounds (h : store) (df : loc) (f : DataFrame)
    (close ret : column) (lookback : nat) (cap : Q) :
  h !! df = Some (OFrame f) ->
  df_cols f !! "close" = Some close ->
  df_cols f !! "return" = Some ret ->
  length close = length (df_index f) ->
  length ret = length (df_index f) ->
  Forall (fun r => r = NaN \/ exists q, r = Fin q) ret ->
  exists g rs equity,
    returns_frame (strategy_momentum df lookback cap) h g
    /\ df_cols g !! "strategy_return" = Some (map Fin rs)
    /\ df_cols g !! "strategy_equity" = Some equity
    /\ length rs = length (df_index f)
    /\ forall t, (t < length (df_index f))%nat ->
         exists e, equity !! t = Some (Fin e) /\ e == cap * growth (take (S t) rs).
Proof.
  intros Hdf Hc Hr Hlc Hlr Hret.
  destruct (momentum_return_finite (length (df_index f)) lookback close ret Hlc Hlr Hret)
    as (rs & Hrs).
  assert (length rs = length (df_index f)) as Hlen.
  { apply (f_equal length) in Hrs.
    by rewrite momentum_return_length, length_map in Hrs. }
  eexists _, rs, _. split.
  { apply returns_frame_intro,
      (strategy_momentum_run h df f lookback cap close ret Hdf Hc Hr). }
  unfold momentum_frame; cbn [df_cols].
  split; [rewrite <- Hrs; by simplify_map_eq|].
  split; [by simplify_map_eq|]. split; [done|].
  intros t Ht. unfold momentum_equity, cumprod, col_mul_scalar. rewrite Hrs.
  destruct (cumprod_from_growth rs 1 t) as (e & He & Heq); [lia|].
  exists (e * cap). split.
  - change (map ?g ?l) with (g <$> l). rewrite list_lookup_fmap.
    change (Fin <$> rs) with (map Fin rs). by rewrite He.
  - rewrite Heq. ring.
Qed.

Lemma strategy_momentum_equity_compounds_witness :
  exists g rs equity,
    returns_frame (strategy_momentum 1%positive 2 100000) table_store g
    /\ df_cols g !! "strategy_return" = Some (map Fin rs)
    /\ df_cols g !! "strategy_equity" = Some equity
    /\ length rs = length (df_index sample_table)
    /\ forall t, (t < length (df_index sample_table))%nat ->
         exists e, equity !! t = Some (Fin e) /\ e == 100000 * growth (take (S t) rs).
Proof.
  apply (strategy_momentum_equity_compounds table_store 1%positive sample_table
           (map Fin sample_closes) (pct_change (map Fin sample_closes)) 2 100000);
    try reflexivity.
  apply Forall_forall. intros r Hr. apply list_elem_of_In in Hr.
  vm_compute in Hr. destruct Hr as [<-|[<-|[<-|[]]]]; (by left) || (right; by eexists).
Defined.

(* ===================================================================== *)
(** ** add_ma: what it adds, what it keeps, what it needs *)
(* ===================================================================== *)

(** Every column of the result is the moving average of a window that
    names it, or the column the table had. *)
Lemma add_ma_cols_lookup (close : column) (windows : list nat)
    (cols : gmap string column) (c : string) :
  (exists w, w ∈ windows /\ c = "ma" +:+ pretty w
     /\ add_ma_cols close windows cols !! c = Some (rolling_mean w close))
  \/ ((forall w, w ∈ windows -> c <> "ma" +:+ pretty w)
      /\ add_ma_cols close windows cols !! c = cols !! c).
Proof.
  revert cols. induction windows as [|w ws IH]; intros cols.
  - right. split; [|done]. intros w Hw. by apply elem_of_nil in Hw.
  - cbn [add_ma_cols foldl].
    destruct (IH (<["ma" +:+ pretty w := rolling_mean w close]> cols))
      as [(w' & Hw' & Hc & Hl)|[Hno Hl]].
    + left. exists w'. split; [by right|]. done.
    + destruct (decide (c = "ma" +:+ pretty w)) as [->|Hne].
      * left. exists w. split; [left|]. split; [done|].
        unfold add_ma_cols in Hl. by rewrite Hl, lookup_insert_eq.
      * right. split.
        -- intros w' [->|Hw']%elem_of_cons; [done|by apply Hno].
        -- unfold add_ma_cols in Hl. by rewrite Hl, lookup_insert_ne.
Qed.

Lemma add_ma_cols_set (close : column) (ws ws' : list nat) (cols : gmap string column) :
  (forall w, w ∈ ws <-> w ∈ ws') ->
  add_ma_cols close ws cols = add_ma_cols close ws' cols.
Proof.
  intros Hset. apply map_eq. intros c.
  destruct (add_ma_cols_lookup close ws cols c) as [(w & Hw & Hc & ->)|[Hno ->]];
    destruct (add_ma_cols_lookup close ws' cols c) as [(w' & Hw' & Hc' & ->)|[Hno' ->]].
  - rewrite Hc in Hc'. by apply ma_name_inj in Hc' as ->.
  - exfalso. apply (Hno' w); [by apply Hset|done].
  - exfalso. apply (Hno w'); [by apply Hset|done].
  - done.
Qed.

Lemma add_ma_no_close_run (h : store) (df : loc) (f : DataFrame)
    (windows : list nat) :
  h !! df = Some (OFrame f) ->
  df_cols f !! "close" = None ->
  add_ma df windows h = (Raise ValueError, h).
Proof.
  intros Hdf Hc. unfold add_ma. rewrite bind_run, (get_frame_run h df f Hdf).
  cbv beta iota. rewrite decide_False; [done|]. rewrite Hc. by intros [? ?].
Qed.

(** X14.  [add_ma] only adds columns: the table it returns has the index
    of its input, the moving average of each window under the name
    maNN, and every other column of the input as it was. *)
Theorem add_ma_only_adds (h : store) (df : loc) (f : DataFrame) (close : column)
    (windows : list nat) :
  h !! df = Some (OFrame f) ->
  df_cols f !! "close" = Some close ->
  exists g,
    returns_frame (add_ma df windows) h g
    /\ df_index g = df_index f
    /\ (forall w, w ∈ windows ->
          df_cols g !! ("ma" +:+ pretty w) = Some (rolling_mean w close))
    /\ (forall c, (forall w, w ∈ windows -> c <> "ma" +:+ pretty w) ->
          df_cols g !! c = df_cols f !! c).
Proof.
  intros Hdf Hc. eexists. split.
  { apply returns_frame_intro, (add_ma_run h df f close windows Hdf Hc). }
  cbn [df_index df_cols]. split; [done|]. split.
  - intros w Hw. apply add_ma_cols_ma. by left.
  - intros c Hno.
    destruct (add_ma_cols_lookup close windows (df_cols f) c)
      as [(w & Hw & Hcw & _)|[_ Hl]]; [|done].
    by destruct (Hno w Hw).
Qed.

(** X15.  For [add_ma] the windows count as a set: with the same windows
    in another order, or repeated, the table it returns has the same
    index and, under every column name, the same column.  (In which order
    the columns stand in the table is not part of this.) *)
Theorem add_ma_windows_as_set (h : store) (df : loc) (f : DataFrame)
    (close : column) (ws ws' : list nat) :
  h !! df = Some (OFrame f) ->
  df_cols f !! "close" = Some close ->
  (forall w, w ∈ ws <-> w ∈ ws') ->
  exists g g',
    returns_frame (add_ma df ws) h g
    /\ returns_frame (add_ma df ws') h g'
    /\ df_index g = df_index g'
    /\ forall c, df_cols g !! c = df_cols g' !! c.
Proof.
  intros Hdf Hc Hset. eexists _, _. split.
  { apply returns_frame_intro, (add_ma_run h df f close ws Hdf Hc). }
  split.
  { apply returns_frame_intro, (add_ma_run h df f close ws' Hdf Hc). }
  cbn [df_index df_cols]. split; [done|]. intros c.
  by rewrite (add_ma_cols_set close ws ws' (df_cols f) Hset).
Qed.

(** X16.  [add_ma] raises ValueError exactly when the table has no close
    column, and then before it copies anything: the store is as it was. *)
Theorem add_ma_requires_close (h : store) (df : loc) (f : DataFrame)
    (windows : list nat) :
  h !! df = Some (OFrame f) ->
  ((add_ma df windows h).1 = Raise ValueError <-> df_cols f !! "close" = None)
  /\ (df_cols f !! "close" = None -> (add_ma df windows h).2 = h).
Proof.
  intros Hdf. destruct (df_cols f !! "close") as [close|] eqn:Hc.
  - rewrite (add_ma_run h df f close windows Hdf Hc). by split.
  - rewrite (add_ma_no_close_run h df f windows Hdf Hc). by split.
Qed.

Lemma add_ma_only_adds_witness :
  exists g,
    returns_frame (add_ma 1%positive [50%nat; 200%nat]) table_store g
    /\ df_index g = df_index sample_table
    /\ (forall w, w ∈ [50%nat; 200%nat] ->
          df_cols g !! ("ma" +:+ pretty w)
          = Some (rolling_mean w (map Fin sample_closes)))
    /\ (forall c, (forall w, w ∈ [50%nat; 200%nat] -> c <> "ma" +:+ pretty w) ->
          df_cols g !! c = df_cols sample_table !! c).
Proof.
  apply (add_ma_only_adds table_store 1%positive sample_table
           (map Fin sample_closes) [50%nat; 200%nat]); reflexivity.
Defined.

Lemma add_ma_windows_as_set_witness :
  exists g g',
    returns_frame (add_ma 1%positive [50%nat; 200%nat]) table_store g
    /\ returns_frame (add_ma 1%positive [200%nat; 50%nat; 200%nat]) table_store g'
    /\ df_index g = df_index g'
    /\ forall c, df_cols g !! c = df_cols g' !! c.
Proof.
  apply (add_ma_windows_as_set table_store 1%positive sample_table
           (map Fin sample_closes) [50%nat; 200%nat] [200%nat; 50%nat; 200%nat]).
  - reflexivity.
  - reflexivity.
  - intros w. rewrite !elem_of_cons, !elem_of_nil. tauto.
Defined.

Lemma add_ma_requires_close_witness :
  ((add_ma 1%positive [50%nat]
      {[ 1%positive := OFrame (mkFrame sample_dates {[ "open" := map Fin sample_closes ]}) ]}).1
   = Raise ValueError
   <-> df_cols (mkFrame sample_dates {[ "open" := map Fin sample_closes ]}) !! "close" = None)
  /\ (df_cols (mkFrame sample_dates {[ "open" := map Fin sample_closes ]}) !! "close" = None ->
      (add_ma 1%positive [50%nat]
         {[ 1%positive := OFrame (mkFrame sample_dates {[ "open" := map Fin sample_closes ]}) ]}).2
      = {[ 1%positive := OFrame (mkFrame sample_dates {[ "open" := map Fin sample_closes ]}) ]}).
Proof.
  apply (add_ma_requires_close _ 1%positive
           (mkFrame sample_dates {[ "open" := map Fin sample_closes ]}) [50%nat]).
  reflexivity.
Defined.

(* ===================================================================== *)
(** ** strategy_dca: return on investment, months without rows, no close *)
(* ===================================================================== *)

Lemma fsum_NaN (l : column) : NaN ∈ l -> fsum l = NaN.
Proof.
  unfold fsum. generalize (Fin 0). induction l as [|x l IH]; intros a Hin.
  - by apply elem_of_nil in Hin.
  - cbn [foldl]. apply elem_of_cons in Hin as [<-|Hin].
    + assert (fadd a NaN = NaN) as -> by (by destruct a).
      clear. induction l as [|y l IH]; [done|]. exact IH.
    + by apply IH.
Qed.

(** A month of the range without a row has no month-end price. *)
Lemma last_in_bin_no_row (k : Z) (idx : list Date) (col : column) :
  (forall d, d ∈ idx -> month_ord d <> k) -> last_in_bin k idx col = NaN.
Proof.
  intros Hno. unfold last_in_bin.
  assert (List.filter (fun p : Date * fl => (month_ord p.1 =? k)%Z) (zip idx col) = [])
    as ->; [|done].
  revert col. induction idx as [|d idx IH]; intros col; [done|].
  destruct col as [|x col]; [done|]. cbn [zip zip_with List.filter fst].
  destruct (Z.eqb_spec (month_ord d) k) as [Heq|_].
  - destruct (Hno d); [left|done].
  - apply IH. intros d' Hd'. apply Hno. by right.
Qed.

Lemma month_bins_index_nonempty (idx : list Date) (k : Z) :
  k ∈ month_bins idx -> idx <> [].
Proof. intros Hk ->. by apply elem_of_nil in Hk. Qed.

(** X17.  A calendar month between the first and the last date of the
    table that has no row still counts as a month and still costs the
    monthly amount, but its month-end price is missing: the shares, the
    final value, the profit and the return on investment all come out as
    NaN. *)
Theorem strategy_dca_month_without_rows (df : DataFrame) (M : Q) (close : column)
    (k : Z) :
  df_cols df !! "close" = Some close ->
  length close = length (df_index df) ->
  k ∈ month_bins (df_index df) ->
  (forall d, d ∈ df_index df -> month_ord d <> k) ->
  exists r, strategy_dca df M = Ok r
    /\ months r = length (month_bins (df_index df))
    /\ total_cost r ≡ Fin (M * inject_Z (Z.of_nat (months r)))
    /\ shares r = NaN /\ final_value r = NaN /\ profit r = NaN /\ roi r = NaN.
Proof.
  intros Hc Hlen Hk Hno.
  pose proof (month_bins_index_nonempty _ _ Hk) as Hne.
  destruct (strategy_dca_run df M close Hc Hlen Hne) as (cost & x & Hx & Hcost & ->).
  eexists. split; [reflexivity|]. cbn [months total_cost shares final_value profit roi].
  split; [unfold month_end_prices; by rewrite length_map|].
  split; [exact Hcost|].
  assert (fsum (map (fun p => fdiv (Fin M) p) (month_end_prices df close)) = NaN) as ->.
  { apply fsum_NaN. change (map ?g ?l) with (g <$> l).
    apply (list_elem_of_fmap_2' _ _ NaN); [|done].
    unfold month_end_prices. change (map ?g ?l) with (g <$> l).
    apply (list_elem_of_fmap_2' _ _ k); [done|].
    symmetry. by apply last_in_bin_no_row. }
  done.
Qed.

Lemma fsum_map_fdiv (M : Q) (ps : list Q) :
  Forall (fun p => ~ p == 0) ps ->
  exists s, fsum (map (fun p => fdiv (Fin M) p) (map Fin ps)) = Fin s
    /\ s == M * qsum (map Qinv ps).
Proof.
  intros Hps. unfold fsum, qsum.
  assert (forall a b, a == M * b ->
            exists s, foldl fadd (Fin a) (map (fun p => fdiv (Fin M) p) (map Fin ps)) = Fin s
              /\ s == M * foldl Qplus b (map Qinv ps)) as Hgen.
  { induction Hps as [|p ps Hp _ IH]; intros a b Hab.
    - exists a. by split.
    - cbn [map foldl]. rewrite fdiv_Fin by (by apply Qeq_bool_false).
      cbn [fadd]. apply IH. rewrite Hab. field. done. }
  apply Hgen. ring.
Qed.

(** X18.  On month-end prices that are finite and not 0, with a finite
    last close, the return on investment of the plan is
    [last * (1/p1 + ... + 1/pn) / n - 1]: it does not depend on the
    monthly amount. *)
Theorem strategy_dca_roi_formula (df : DataFrame) (M : Q) (close : column)
    (ps : list Q) (l : Q) :
  df_cols df !! "close" = Some close ->
  length close = length (df_index df) ->
  df_index df <> [] ->
  month_end_prices df close = map Fin ps ->
  Forall (fun p => ~ p == 0) ps ->
  last close = Some (Fin l) ->
  ~ M == 0 ->
  exists r, strategy_dca df M = Ok r
    /\ roi r ≡ Fin (l * qsum (map Qinv ps) / inject_Z (Z.of_nat (length ps)) - 1).
Proof.
  intros Hc Hlen Hne Hmp Hps Hl HM.
  destruct (strategy_dca_run df M close Hc Hlen Hne) as (cost & x & Hx & Hcost & ->).
  eexists. split; [reflexivity|]. cbn [roi].
  rewrite Hl in Hx. injection Hx as <-.
  assert (1 <= length ps)%nat as Hn.
  { pose proof (month_bins_nonempty (df_index df) Hne) as Hb.
    apply (f_equal length) in Hmp. unfold month_end_prices in Hmp.
    rewrite !length_map in Hmp. lia. }
  rewrite Hmp, length_map in *.
  destruct (fsum_map_fdiv M ps Hps) as (s & -> & Hs).
  set (n := inject_Z (Z.of_nat (length ps))) in *.
  assert (0 < n) as Hnpos by (unfold n, Qlt; simpl; lia).
  assert (~ cost == 0) as Hcost0.
  { rewrite Hcost. intros Hz. destruct (Qmult_integral _ _ Hz); [done|lra]. }
  cbn [fmul fsub fopp fadd]. rewrite fdiv_Fin by (by apply Qeq_bool_false).
  change ((s * l + - cost) / cost == l * qsum (map Qinv ps) / n - 1).
  rewrite Hs, Hcost. field. split; [lra|done].
Qed.

(** X19.  On a table without a close column [strategy_dca] raises
    KeyError, with rows (at [row["close"]] of the first month) and
    without (at [df["close"]]). *)
Theorem strategy_dca_requires_close (df : DataFrame) (M : Q) :
  df_cols df !! "close" = None ->
  strategy_dca df M = Raise KeyError.
Proof.
  intros Hc. unfold strategy_dca. cbv zeta.
  destruct (df_index df) as [|d idx] eqn:Hidx.
  - unfold resample_ME_last. rewrite Hidx.
    cbn [month_bins map length seq dca_loop df_index mbind pyres_bind].
    unfold frame_col. by rewrite Hc.
  - pose proof (month_bins_nonempty (df_index df)) as Hb.
    rewrite Hidx in Hb. specialize (Hb ltac:(done)).
    assert (length (df_index (resample_ME_last df))
            = length (month_bins (d :: idx))) as ->.
    { unfold resample_ME_last. cbn [df_index]. by rewrite Hidx, length_map. }
    destruct (length (month_bins (d :: idx))) as [|n]; [lia|].
    cbn [seq dca_loop]. unfold row_getitem.
    assert (df_cols (resample_ME_last df) !! "close" = None) as ->; [|done].
    unfold resample_ME_last. cbn [df_cols]. by rewrite lookup_fmap, Hc.
Qed.

Lemma strategy_dca_month_without_rows_witness :
  exists r, strategy_dca gap_table 1000 = Ok r
    /\ months r = length (month_bins (df_index gap_table))
    /\ total_cost r ≡ Fin (1000 * inject_Z (Z.of_nat (months r)))
    /\ shares r = NaN /\ final_value r = NaN /\ profit r = NaN /\ roi r = NaN.
Proof.
  apply (strategy_dca_month_without_rows gap_table 1000 [Fin 100; Fin 110] 24241%Z).
  - reflexivity.
  - reflexivity.
  - apply (bool_decide_unpack _). vm_compute. exact I.
  - intros d Hd. apply elem_of_cons in Hd as [->|Hd]; [discriminate|].
    apply list_elem_of_singleton in Hd as ->. discriminate.
Defined.

Lemma strategy_dca_roi_formula_witness :
  exists r, strategy_dca one_month_table 1000 = Ok r
    /\ roi r ≡ Fin (100 * qsum (map Qinv [100]) / inject_Z (Z.of_nat (length [100])) - 1).
Proof.
  apply (strategy_dca_roi_formula one_month_table 1000 [Fin 90; Fin 100] [100] 100).
  - reflexivity.
  - reflexivity.
  - discriminate.
  - reflexivity.
  - repeat constructor; discriminate.
  - reflexivity.
  - discriminate.
Defined.

Lemma strategy_dca_requires_close_witness :
  strategy_dca (mkFrame sample_dates {[ "open" := map Fin sample_closes ]}) 1000
  = Raise KeyError.
Proof.
  apply (strategy_dca_requires_close
           (mkFrame sample_dates {[ "open" := map Fin sample_closes ]}) 1000).
  reflexivity.
Defined.

(* ===================================================================== *)
(** ** qqq_analysis.py: the script as a whole *)
(* ===================================================================== *)

Lemma momentum_equity_length (n lookback : nat) (close ret : column) (cap : Q) :
  length close = n -> length ret = n ->
  length (momentum_equity n lookback close ret cap) = n.
Proof.
  intros Hc Hr. unfold momentum_equity, col_mul_scalar, cumprod, col_radd_scalar.
  by rewrite length_map, cumprod_from_length, length_map, momentum_return_length.
Qed.

Section Script.
Context `{FloatSqrt}.

(** The run of the script on a table with a row: the table it was given
    gets the return and the buy-and-hold equity column, the momentum
    table is a new object, and the report is made of the two. *)
Lemma qqq_analysis_run (h : store) (df : loc) (f : DataFrame) (close : column) :
  h !! df = Some (OFrame f) ->
  df_cols f !! "close" = Some close ->
  length close = length (df_index f) ->
  df_index f <> [] ->
  let ret := pct_change close in
  let f2 := mkFrame (df_index f)
              (<["bh_equity" := bh_equity ret]> (<["return" := ret]> (df_cols f))) in
  let h2 := <[df := OFrame f2]> h in
  let n := length (df_index f) in
  exists dca s1 s2 final,
    last (momentum_equity n 50 close ret initial_capital) = Some final
    /\ qqq_analysis df h
       = (Ok (mkReport dca
                (max_drawdown (bh_equity ret))
                (annualized_volatility (dropna ret) 252) s1
                final
                (max_drawdown (momentum_equity n 50 close ret initial_capital))
                (annualized_volatility (dropna (momentum_return n 50 close ret)) 252)
                s2),
          <[fresh (dom h2) := OFrame (momentum_frame f2 50 close ret initial_capital)]> h2).
Proof.
  intros Hdf Hc Hlen Hne ret f2 h2 n. unfold qqq_analysis.
  rewrite bind_run, (df_getitem_run h df f "close" close Hdf Hc). cbv beta iota.
  rewrite bind_run, (df_setitem_run h df f _ _ Hdf). cbv beta iota.
  rewrite bind_run, get_frame_ins. cbv beta iota.
  set (f1 := mkFrame (df_index f) (<["return" := pct_change close]> (df_cols f))).
  destruct (strategy_dca_run f1 1000 close) as (cost & x & _ & _ & Hdca);
    [by simplify_map_eq|done|done|].
  rewrite bind_run. unfold lift at 1. rewrite Hdca. cbv beta iota zeta.
  run_step (df_getitem_ins h df f1 "return" ret).
  run_step df_setitem_ins.
  fold ret. change (mkFrame (df_index f1) _) with f2. fold h2.
  unfold h2 at 1. run_step (df_getitem_ins h df f2 "return" ret).
  run_step (df_getitem_ins h df f2 "bh_equity" (bh_equity ret)).
  rewrite bind_run. unfold lift at 1. rewrite (sharpe_ratio_formula _ 0 252) by done.
  cbv beta iota.
  fold h2. rewrite bind_run.
  rewrite (strategy_momentum_run h2 df f2 50 initial_capital close ret);
    [|apply lookup_insert_eq|by simplify_map_eq|by simplify_map_eq].
  cbv beta iota. set (g := momentum_frame f2 50 close ret initial_capital).
  set (l := fresh (dom h2)).
  run_step (df_getitem_ins h2 l g "strategy_return" (momentum_return n 50 close ret)).
  run_step (df_getitem_ins h2 l g "strategy_equity"
              (momentum_equity n 50 close ret initial_capital)).
  rewrite bind_run. unfold lift at 1. rewrite (sharpe_ratio_formula _ 0 252) by done.
  cbv beta iota.
  destruct (iloc_last_nonempty (momentum_equity n 50 close ret initial_capital))
    as (final & Hfinal & Hlast).
  { intros Hnil. apply (f_equal length) in Hnil.
    rewrite momentum_equity_length in Hnil; [|done|unfold ret; by rewrite pct_change_length].
    unfold n in Hnil. destruct (df_index f); [done|discriminate]. }
  rewrite bind_run. unfold lift at 1. rewrite Hfinal. cbv beta iota.
  eexists _, _, _, final. split; [exact Hlast|]. reflexivity.
Qed.

(** X20.  On every table with a row and a close column the script runs
    to completion.  It writes into the table it was given: the table gets
    the return and the buy-and-hold equity column and keeps its other
    columns; the momentum table is a new object, and no other object
    changes. *)
Theorem qqq_analysis_runs_and_writes (h : store) (df : loc) (f : DataFrame)
    (close : column) :
  h !! df = Some (OFrame f) ->
  df_cols f !! "close" = Some close ->
  length close = length (df_index f) ->
  df_index f <> [] ->
  exists rep h' f2 l g,
    qqq_analysis df h = (Ok rep, h')
    /\ h' !! df = Some (OFrame f2)
    /\ df_index f2 = df_index f
    /\ df_cols f2 !! "return" = Some (pct_change close)
    /\ df_cols f2 !! "bh_equity" = Some (bh_equity (pct_change close))
    /\ (forall c, c <> "return" -> c <> "bh_equity" -> df_cols f2 !! c = df_cols f !! c)
    /\ h !! l = None /\ h' !! l = Some (OFrame g)
    /\ (forall l', l' <> df -> l' <> l -> h' !! l' = h !! l').
Proof.
  intros Hdf Hc Hlen Hne.
  destruct (qqq_analysis_run h df f close Hdf Hc Hlen Hne)
    as (dca & s1 & s2 & final & _ & Hrun).
  cbv zeta in Hrun. rewrite Hrun. clear Hrun.
  set (f2 := mkFrame (df_index f) _). set (h2 := <[df := OFrame f2]> h).
  assert (h2 !! fresh (dom h2) = None) as Hfresh by apply fresh_loc_None.
  assert (fresh (dom h2) <> df) as Hneq.
  { intros Heq. rewrite Heq in Hfresh. unfold h2 in Hfresh.
    by rewrite lookup_insert_eq in Hfresh. }
  eexists _, _, f2, (fresh (dom h2)), _. split; [reflexivity|].
  split; [rewrite lookup_insert_ne by done; apply lookup_insert_eq|].
  split; [done|]. cbn [df_cols f2].
  split; [by simplify_map_eq|]. split; [by simplify_map_eq|].
  split; [intros c ? ?; by simplify_map_eq|].
  split; [|split].
  - unfold h2 in Hfresh. by rewrite lookup_insert_ne in Hfresh.
  - apply lookup_insert_eq.
  - intros l' ? ?. unfold h2. by rewrite !lookup_insert_ne.
Qed.

Lemma momentum_equity_warm (n lookback : nat) (close ret : column) (cap : Q) (t : nat) :
  length close = n -> length ret = n -> (t < n)%nat -> (n <= lookback)%nat ->
  exists e, momentum_equity n lookback close ret cap !! t = Some (Fin e) /\ e == cap.
Proof.
  intros Hc Hr Ht Hlb. unfold momentum_equity, cumprod, col_mul_scalar.
  destruct (cumprod_from_prefix_zero (momentum_return n lookback close ret) 1 n)
    with (t := t) as (e & He & Heq); [|done|].
  { intros u Hu. apply momentum_return_warm; try done. right. lia. }
  exists (e * cap). split.
  - change (map ?g ?l) with (g <$> l). by rewrite list_lookup_fmap, He.
  - rewrite Heq. ring.
Qed.

(** X21.  On a table of 50 rows or fewer the 50-day momentum strategy
    of the script never invests: the final equity it reports is the
    initial capital and its maximum drawdown is 0. *)
Theorem qqq_analysis_short_table (h : store) (df : loc) (f : DataFrame)
    (close : column) :
  h !! df = Some (OFrame f) ->
  df_cols f !! "close" = Some close ->
  length close = length (df_index f) ->
  df_index f <> [] ->
  (length (df_index f) <= 50)%nat ->
  exists rep h',
    qqq_analysis df h = (Ok rep, h')
    /\ mom_final_equity rep ≡ Fin initial_capital
    /\ mom_mdd rep ≡ Fin 0.
Proof.
  intros Hdf Hc Hlen Hne Hshort.
  destruct (qqq_analysis_run h df f close Hdf Hc Hlen Hne)
    as (dca & s1 & s2 & final & Hlast & Hrun).
  cbv zeta in Hrun, Hlast. rewrite Hrun. clear Hrun.
  eexists _, _. split; [reflexivity|]. cbn [mom_final_equity mom_mdd].
  set (n := length (df_index f)) in *. set (ret := pct_change close) in *.
  assert (length ret = n) as Hr by (unfold ret; by rewrite pct_change_length).
  set (curve := momentum_equity n 50 close ret initial_capital) in *.
  assert (length curve = n) as Hcl by (by apply momentum_equity_length).
  assert (0 < n)%nat as Hn by (unfold n; destruct (df_index f); [done|simpl; lia]).
  split.
  - rewrite last_lookup, Hcl in Hlast.
    destruct (momentum_equity_warm n 50 close ret initial_capital (pred n))
      as (e & He & Heq); [done|done|lia|done|].
    fold curve in He. rewrite He in Hlast. injection Hlast as <-. exact Heq.
  - transitivity (max_drawdown (map Fin (replicate n 1))).
    + apply (max_drawdown_proportional initial_capital).
      * reflexivity.
      * destruct n; [lia|done].
      * apply Forall_forall. intros x [-> _]%elem_of_replicate. reflexivity.
      * apply Forall2_same_length_lookup. split; [by rewrite length_replicate|].
        intros t cell e Hcell He. apply lookup_replicate in He as [-> Ht].
        destruct (momentum_equity_warm n 50 close ret initial_capital t)
          as (e & He & Heq); [done|done|done|done|].
        fold curve in He. rewrite He in Hcell. injection Hcell as <-.
        exists e. split; [done|]. rewrite Heq. ring.
    + destruct (max_drawdown_ratio_spec (replicate n 1))
        as (d & -> & _ & Hd0 & _ & i & j & ei & ej & _ & Hi & Hj & Hd).
      * destruct n; [lia|done].
      * apply Forall_forall. intros x [-> _]%elem_of_replicate. reflexivity.
      * apply lookup_replicate in Hi as [-> _]. apply lookup_replicate in Hj as [-> _].
        change (d == 0). rewrite Hd. reflexivity.
Qed.

End Script.

Lemma qqq_analysis_runs_and_writes_witness :
  exists rep h' f2 l g,
    qqq_analysis 1%positive {[ 1%positive := OFrame one_month_table ]} = (Ok rep, h')
    /\ h' !! 1%positive = Some (OFrame f2)
    /\ df_index f2 = df_index one_month_table
    /\ df_cols f2 !! "return" = Some (pct_change [Fin 90; Fin 100])
    /\ df_cols f2 !! "bh_equity" = Some (bh_equity (pct_change [Fin 90; Fin 100]))
    /\ (forall c, c <> "return" -> c <> "bh_equity" ->
          df_cols f2 !! c = df_cols one_month_table !! c)
    /\ ({[ 1%positive := OFrame one_month_table ]} : store) !! l = None
    /\ h' !! l = Some (OFrame g)
    /\ (forall l', l' <> 1%positive -> l' <> l ->
          h' !! l' = ({[ 1%positive := OFrame one_month_table ]} : store) !! l').
Proof.
  apply (qqq_analysis_runs_and_writes {[ 1%positive := OFrame one_month_table ]}
           1%positive one_month_table [Fin 90; Fin 100]).
  - reflexivity.
  - reflexivity.
  - reflexivity.
  - discriminate.
Defined.

Lemma qqq_analysis_short_table_witness :
  exists rep h',
    qqq_analysis 1%positive {[ 1%positive := OFrame one_month_table ]} = (Ok rep, h')
    /\ mom_final_equity rep ≡ Fin initial_capital
    /\ mom_mdd rep ≡ Fin 0.
Proof.
  apply (qqq_analysis_short_table {[ 1%positive := OFrame one_month_table ]}
           1%positive one_month_table [Fin 90; Fin 100]).
  - reflexivity.
  - reflexivity.
  - reflexivity.
  - discriminate.
  - simpl. lia.
Defined.

(* ===================================================================== *)
(** ** The baseline signal on the table of add_ma *)
(* ===================================================================== *)

Lemma df_getitem_None_run (h : store) (l : loc) (f : DataFrame) (c : string) :
  h !! l = Some (OFrame f) -> df_cols f !! c = None ->
  df_getitem l c h = (Raise KeyError, h).
Proof.
  intros Hl Hc. unfold df_getitem. rewrite bind_run, (get_frame_run h l f Hl).
  cbv beta iota. by rewrite Hc.
Qed.


(** X23.  Without 50 among the windows (and no ma50 column in the table
    to begin with) the table of [add_ma] has no ma50 column, and
    [build_baseline_momentum_signal] raises KeyError on it. *)
Theorem baseline_signal_needs_window_50 (h : store) (df : loc) (f : DataFrame)
    (close : column) (windows : list nat) :
  h !! df = Some (OFrame f) ->
  df_cols f !! "close" = Some close ->
  df_cols f !! "ma50" = None ->
  50%nat ∉ windows ->
  exists l1 h1,
    add_ma df windows h = (Ok l1, h1)
    /\ build_baseline_momentum_signal l1 h1 = (Raise KeyError, h1).
Proof.
  intros Hdf Hc Hma H50.
  pose proof (add_ma_run h df f close windows Hdf Hc) as Hrun.
  set (g := mkFrame (df_index f) _) in Hrun.
  set (h1 := <[fresh (dom h) := OFrame g]> h) in Hrun.
  exists (fresh (dom h)), h1. split; [done|].
  unfold build_baseline_momentum_signal.
  rewrite bind_run, (df_getitem_run h1 _ g "close" close);
    [|apply lookup_insert_eq|by apply add_ma_cols_close].
  cbv beta iota.
  rewrite bind_run, (df_getitem_None_run h1 _ g "ma50"); [done|apply lookup_insert_eq|].
  cbn [g df_cols].
  destruct (add_ma_cols_lookup close windows (df_cols f) "ma50")
    as [(w & Hw & Hname & _)|[_ ->]]; [|done].
  exfalso. apply H50.
  change "ma50" with ("ma" +:+ pretty 50%nat) in Hname.
  by apply ma_name_inj in Hname as <-.
Qed.

(* ===================================================================== *)
(** ** compute_strategy_returns: when it raises *)
(* ===================================================================== *)

(** X24.  On a price and a signal series, [compute_strategy_returns]
    raises only when the signal cannot be put on the dates of the price:
    it raises ValueError exactly when the signal has a repeated date and
    an index other than the price's, and then the store is as it was;
    in every other case it returns a new series. *)
Theorem compute_strategy_returns_raises_iff (h : store) (price signal : loc)
    (p sg : Series) :
  h !! price = Some (OSeries p) ->
  h !! signal = Some (OSeries sg) ->
  (compute_strategy_returns price signal h = (Raise ValueError, h)
   <-> s_index sg <> s_index p /\ ~ NoDup (s_index sg))
  /\ ((exists s, returns_series (compute_strategy_returns price signal) h s)
      <-> s_index sg = s_index p \/ NoDup (s_index sg)).
Proof.
  intros Hp Hs.
  destruct (decide (s_index sg = s_index p)) as [Heq|Hne];
    [|destruct (decide (NoDup (s_index sg))) as [Hnd|Hdup]].
  - pose proof (compute_strategy_returns_run h price signal p sg Hp Hs (or_introl Heq))
      as Hrun.
    rewrite Hrun. split; split; try done; try tauto.
    intros _. eexists _, _, _. split; [exact Hrun|].
    split; [apply lookup_insert_eq|apply fresh_loc_None].
  - pose proof (compute_strategy_returns_run h price signal p sg Hp Hs (or_intror Hnd))
      as Hrun.
    rewrite Hrun. split; split; try done; try tauto.
    intros _. eexists _, _, _. split; [exact Hrun|].
    split; [apply lookup_insert_eq|apply fresh_loc_None].
  - assert (compute_strategy_returns price signal h = (Raise ValueError, h)) as Hrun.
    { unfold compute_strategy_returns.
      run_step (get_series_run h price p Hp).
      run_step (get_series_run h signal sg Hs).
      rewrite bind_run. unfold lift, reindex. cbn [s_index].
      by rewrite decide_False, decide_False. }
    rewrite Hrun. split; split; try done; try tauto.
    intros (s & l & h' & Hok & _). congruence.
Qed.


Lemma baseline_signal_needs_window_50_witness :
  exists l1 h1,
    add_ma 1%positive [200%nat] table_store = (Ok l1, h1)
    /\ build_baseline_momentum_signal l1 h1 = (Raise KeyError, h1).
Proof.
  apply (baseline_signal_needs_window_50 table_store 1%positive sample_table
           (map Fin sample_closes) [200%nat]).
  - reflexivity.
  - reflexivity.
  - reflexivity.
  - intros Hin. apply list_elem_of_singleton in Hin. discriminate.
Defined.

Lemma compute_strategy_returns_raises_iff_witness :
  (compute_strategy_returns 1%positive 2%positive series_store
   = (Raise ValueError, series_store)
   <-> s_index sample_signal <> s_index sample_price
       /\ ~ NoDup (s_index sample_signal))
  /\ ((exists s, returns_series (compute_strategy_returns 1%positive 2%positive)
                   series_store s)
      <-> s_index sample_signal = s_index sample_price
          \/ NoDup (s_index sample_signal)).
Proof.
  apply (compute_strategy_returns_raises_iff series_store 1%positive 2%positive
           sample_price sample_signal); reflexivity.
Defined.

(* ===================================================================== *)
(** ** The FAANG signal: missing tables and warm-up *)
(* ===================================================================== *)

Lemma risk_flag_load_fails (files : string -> pyres DataFrame) (sym : string)
    (e : pyexc) (h : store) :
  files (faang_path sym) = Raise e -> risk_flag files sym h = (Raise e, h).
Proof.
  intros Hfile. unfold risk_flag. cbv zeta. fold (faang_path sym).
  unfold load_price_csv. rewrite !bind_run. unfold lift. by rewrite Hfile.
Qed.

Lemma risk_flag_no_close (files : string -> pyres DataFrame) (sym : string)
    (f : DataFrame) (h : store) :
  files (faang_path sym) = Ok f -> df_cols f !! "close" = None ->
  exists h', risk_flag files sym h = (Raise ValueError, h').
Proof.
  intros Hfile Hc. unfold risk_flag. cbv zeta. fold (faang_path sym).
  run_step (load_price_csv_run files (faang_path sym) f h Hfile).
  rewrite bind_run, (add_ma_no_close_run _ _ f); [|apply lookup_insert_eq|done].
  by eexists.
Qed.

Lemma map_M_risk_flag_fails (files : string -> pyres DataFrame)
    (pre : list string) (sym : string) (post : list string) (e : pyexc) :
  (forall s, s ∈ pre -> exists f close,
     files (faang_path s) = Ok f /\ df_cols f !! "close" = Some close) ->
  (forall h, exists h', risk_flag files sym h = (Raise e, h')) ->
  forall h, exists h', map_M (risk_flag files) (pre ++ sym :: post) h = (Raise e, h').
Proof.
  intros Hpre Hsym. induction pre as [|s pre IH]; intros h.
  - cbn [app map_M]. destruct (Hsym h) as (h' & Hh'). exists h'.
    by rewrite bind_run, Hh'.
  - destruct (Hpre s) as (f & close & Hf & Hc); [left|].
    destruct (risk_flag_run files s f close h Hf Hc) as (h1 & Hrun & _).
    destruct IH with (h := h1) as (h2 & Hh2).
    { intros s' Hs'. apply Hpre. by right. }
    exists h2. cbn [app map_M]. rewrite bind_run, Hrun. cbv beta iota.
    by rewrite bind_run, Hh2.
Qed.

(** X25.  The FAANG signal needs all five tables.  When the file of a
    ticker cannot be loaded, the exception of the loader comes out of
    [build_faang_risk_on_signal]; when its table has no close column,
    the ValueError of [add_ma] does; the tickers before it having loaded
    makes no difference. *)
Theorem breadth_signal_needs_every_table
    (files : string -> pyres DataFrame)
    (pre : list string) (sym : string) (post : list string) (e : pyexc) (h : store) :
  FAANG_TICKERS = pre ++ sym :: post ->
  (forall s, s ∈ pre -> exists f close,
     files (faang_path s) = Ok f /\ df_cols f !! "close" = Some close) ->
  files (faang_path sym) = Raise e
  \/ (e = ValueError
      /\ exists f, files (faang_path sym) = Ok f /\ df_cols f !! "close" = None) ->
  (build_faang_risk_on_signal files h).1 = Raise e.
Proof.
  intros Htick Hpre Hsym. unfold build_faang_risk_on_signal. rewrite Htick.
  destruct (map_M_risk_flag_fails files pre sym post e Hpre) with (h := h)
    as (h' & Hrun).
  { intros h0. destruct Hsym as [Hfile|(-> & f & Hfile & Hc)].
    - exists h0. by apply risk_flag_load_fails.
    - by apply (risk_flag_no_close files sym f). }
  by rewrite bind_run, Hrun.
Qed.

Lemma breadth_signal_needs_every_table_witness :
  (build_faang_risk_on_signal files_without_goog ∅).1 = Raise FileNotFoundError.
Proof.
  apply (breadth_signal_needs_every_table files_without_goog
           ["AAPL"; "AMZN"] "GOOG" ["META"; "MSFT"] FileNotFoundError ∅).
  - reflexivity.
  - intros s Hs. apply elem_of_cons in Hs as [->|Hs].
    { eexists _, _. split; vm_compute; reflexivity. }
    apply list_elem_of_singleton in Hs as ->.
    eexists _, _. split; vm_compute; reflexivity.
  - left. vm_compute. reflexivity.
Defined.

(** The signal of a run, date by date. *)
Lemma build_faang_risk_on_signal_values
    (files : string -> pyres DataFrame)
    (T : string -> DataFrame) (C : string -> column) (h : store) :
  (forall sym, sym ∈ FAANG_TICKERS ->
     files (faang_path sym) = Ok (T sym)
     /\ df_cols (T sym) !! "close" = Some (C sym)
     /\ length (C sym) = length (df_index (T sym))
     /\ NoDup (df_index (T sym))) ->
  exists risk_on,
    returns_series (build_faang_risk_on_signal files) h risk_on
    /\ (forall d, d ∈ s_index risk_on
                  <-> exists sym, sym ∈ FAANG_TICKERS /\ d ∈ df_index (T sym))
    /\ forall d, d ∈ s_index risk_on ->
         ser_at risk_on d = Some (of_bool (3 <=? count_above T C d)%nat).
Proof.
  intros Hin.
  destruct (build_faang_risk_on_signal_run files T C h Hin)
    as (h1 & idx & Hsub & Hnd & Hmem & Hrun).
  set (cols := map (fillna (Fin 0)) _) in Hrun.
  set (risk_on := mkSeries idx _) in Hrun.
  exists risk_on. split.
  { eexists _, _. split; [exact Hrun|].
    split; [apply lookup_insert_eq|].
    eapply lookup_weaken_None; [apply fresh_loc_None|done]. }
  assert (series_wf risk_on) as Hwf.
  { unfold series_wf, risk_on, sum_axis1; simpl. by rewrite length_map, length_imap. }
  split; [exact Hmem|].
  intros d Hd. simpl in Hd.
  apply list_elem_of_lookup_1 in Hd as (i & Hi).
  unfold ser_at. change (s_index risk_on) with idx.
  rewrite (assoc_date_lookup idx _ i d Hnd Hwf Hi).
  unfold risk_on; cbn [s_values]. change (map ?g ?l) with (g <$> l) at 1.
  unfold sum_axis1. rewrite list_lookup_fmap, list_lookup_imap, Hi.
  cbn [fmap option_fmap option_map].
  assert (map (fun c => default NaN (c !! i)) cols
          = map of_bool
              (map (fun sym => above_ma200 (T sym) (C sym) d) FAANG_TICKERS))
    as ->.
  { unfold cols. rewrite !map_map. apply map_ext_in. intros sym Hsym.
    rewrite fillna_lookup. change (map ?g idx) with (g <$> idx).
    rewrite list_lookup_fmap, Hi. cbn [fmap option_fmap option_map default].
    apply above_flags_cell.
    apply list_elem_of_In in Hsym. by destruct (Hin sym Hsym) as (_ & _ & Hlen & _). }
  rewrite quorum_of_bool, filter_id_map. reflexivity.
Qed.

Lemma assoc_date_in_index (d : Date) (idx : list Date) (vals : column) (x : fl) :
  assoc_date d idx vals = Some x -> d ∈ idx.
Proof.
  revert vals. induction idx as [|d0 idx IH]; intros vals Hx; [done|].
  destruct vals as [|v vals]; [done|]. simpl in Hx.
  destruct (decide (d0 = d)) as [->|_]; [left|]. right. by apply (IH vals).
Qed.

(** An asset with fewer than 200 rows up to a date is not above its
    average there. *)
Lemma above_ma200_warm (f : DataFrame) (close : column) (d : Date) :
  NoDup (df_index f) -> length close = length (df_index f) ->
  (forall i, df_index f !! i = Some d -> (i < 199)%nat) ->
  above_ma200 f close d = false.
Proof.
  intros Hnd Hlen Hwarm. unfold above_ma200.
  destruct (decide (d ∈ df_index f)) as [Hd|Hd].
  - apply list_elem_of_lookup_1 in Hd as (i & Hi).
    rewrite (assoc_date_lookup _ close i d Hnd Hlen Hi).
    rewrite (assoc_date_lookup _ (rolling_mean 200 close) i d Hnd) by
      (done || by rewrite rolling_mean_length).
    destruct (close !! i) as [c|] eqn:Hc; [|done].
    rewrite (rolling_mean_lookup 200 close i c Hc).
    specialize (Hwarm i Hi).
    destruct (Nat.ltb_spec (S i) 200) as [_|?]; [|lia]. by destruct c.
  - destruct (assoc_date d (df_index f) close) as [c|] eqn:Hc; [|done].
    apply assoc_date_in_index in Hc. by destruct Hd.
Qed.

(** At most two assets above where all but two are short of history. *)
Lemma count_above_at_most_two (T : string -> DataFrame) (C : string -> column)
    (a b : string) (d : Date) :
  (forall sym, sym ∈ FAANG_TICKERS ->
     length (C sym) = length (df_index (T sym)) /\ NoDup (df_index (T sym))) ->
  (forall sym i, sym ∈ FAANG_TICKERS -> sym <> a -> sym <> b ->
     df_index (T sym) !! i = Some d -> (i < 199)%nat) ->
  (count_above T C d <= 2)%nat.
Proof.
  intros Hin Hwarm. unfold count_above.
  set (above := List.filter _ FAANG_TICKERS).
  assert (NoDup above) as Hnd.
  { apply NoDup_ListNoDup, List.NoDup_filter, NoDup_ListNoDup.
    apply (bool_decide_unpack _). vm_compute. exact I. }
  assert (forall sym, sym ∈ above -> sym ∈ [a; b]) as Hsub.
  { intros sym Hsym. apply list_elem_of_In, List.filter_In in Hsym as [Hsym Habove].
    apply list_elem_of_In in Hsym.
    destruct (decide (sym = a)) as [->|Ha]; [left|].
    destruct (decide (sym = b)) as [->|Hb]; [right; left|].
    destruct (Hin sym Hsym) as (Hlen & Hndup).
    rewrite above_ma200_warm in Habove; [done..|].
    intros i Hi. by apply (Hwarm sym i). }
  apply (NoDup_submseteq _ _ Hnd), submseteq_length in Hsub. simpl in Hsub. lia.
Qed.

(** X26.  The FAANG signal cannot turn on before three assets have 200
    rows of history: on a date where all assets but two, at most, have
    fewer than 200 rows up to it (or no row at all), the signal is 0. *)
Theorem breadth_signal_warm_up
    (files : string -> pyres DataFrame)
    (T : string -> DataFrame) (C : string -> column) (h : store) (a b : string) :
  (forall sym, sym ∈ FAANG_TICKERS ->
     files (faang_path sym) = Ok (T sym)
     /\ df_cols (T sym) !! "close" = Some (C sym)
     /\ length (C sym) = length (df_index (T sym))
     /\ NoDup (df_index (T sym))) ->
  exists risk_on,
    returns_series (build_faang_risk_on_signal files) h risk_on
    /\ forall d, d ∈ s_index risk_on ->
         (forall sym i, sym ∈ FAANG_TICKERS -> sym <> a -> sym <> b ->
            df_index (T sym) !! i = Some d -> (i < 199)%nat) ->
         ser_at risk_on d = Some (Fin 0).
Proof.
  intros Hin.
  destruct (build_faang_risk_on_signal_values files T C h Hin)
    as (risk_on & Hrun & _ & Hval).
  exists risk_on. split; [done|]. intros d Hd Hwarm.
  rewrite (Hval d Hd). f_equal.
  pose proof (count_above_at_most_two T C a b d
                (fun sym Hsym => proj2 (proj2 (Hin sym Hsym))) Hwarm) as Hcount.
  destruct (Nat.leb_spec 3 (count_above T C d)) as [?|_]; [lia|done].
Qed.

Lemma breadth_signal_warm_up_witness :
  exists risk_on,
    returns_series (build_faang_risk_on_signal faang_files) ∅ risk_on
    /\ forall d, d ∈ s_index risk_on ->
         (forall sym i, sym ∈ FAANG_TICKERS -> sym <> "AAPL" -> sym <> "AMZN" ->
            df_index (faang_tables sym) !! i = Some d -> (i < 199)%nat) ->
         ser_at risk_on d = Some (Fin 0).
Proof.
  apply (breadth_signal_warm_up faang_files faang_tables faang_closes ∅ "AAPL" "AMZN").
  intros sym Hsym.
  repeat (apply elem_of_cons in Hsym as [->|Hsym]);
    [..|by apply elem_of_nil in Hsym];
    (split; [vm_compute; reflexivity|]);
    (split; [vm_compute; reflexivity|]);
    (split; [vm_compute; reflexivity|]);
    apply (bool_decide_unpack _); vm_compute; exact I.
Defined.

(* ===================================================================== *)
(** ** task-3 main: the filtered strategy against the baseline *)
(* ===================================================================== *)

Lemma lookup_alloc (h : store) (l : loc) (o o' : pyobj) :
  h !! l = Some o -> <[fresh (dom h) := o']> h !! l = Some o.
Proof.
  intros Hl. rewrite lookup_insert_ne; [done|].
  intros <-. by rewrite fresh_loc_None in Hl.
Qed.

Lemma alloc_subseteq (h : store) (o : pyobj) : h ⊆ <[fresh (dom h) := o]> h.
Proof. apply insert_subseteq, fresh_loc_None. Qed.

Lemma df_getitem_series_run (h : store) (l : loc) (f : DataFrame) (c : string)
    (v : column) :
  h !! l = Some (OFrame f) -> df_cols f !! c = Some v ->
  df_getitem_series l c h
  = (Ok (fresh (dom h)), <[fresh (dom h) := OSeries (mkSeries (df_index f) v)]> h).
Proof.
  intros Hl Hc. unfold df_getitem_series.
  rewrite bind_run, (df_getitem_run h l f c v Hl Hc). cbv beta iota.
  rewrite bind_run, (df_get_index_run h l f Hl). reflexivity.
Qed.

Lemma build_baseline_momentum_signal_run (h : store) (l : loc) (g : DataFrame)
    (close ma50 : column) :
  h !! l = Some (OFrame g) ->
  df_cols g !! "close" = Some close ->
  df_cols g !! "ma50" = Some ma50 ->
  build_baseline_momentum_signal l h
  = (Ok (fresh (dom h)),
     <[fresh (dom h) := OSeries (mkSeries (df_index g) (map of_bool (col_gt close ma50)))]> h).
Proof.
  intros Hl Hc Hma. unfold build_baseline_momentum_signal.
  rewrite bind_run, (df_getitem_run h l g "close" close Hl Hc). cbv beta iota.
  rewrite bind_run, (df_getitem_run h l g "ma50" ma50 Hl Hma). cbv beta iota.
  rewrite bind_run, (df_get_index_run h l g Hl). reflexivity.
Qed.

Lemma strategy_series_same_index (idx : list Date) (close sig : column) :
  s_values (strategy_series (mkSeries idx close) (mkSeries idx sig))
  = col_mul (fillna (Fin 0) (pct_change close)) (fillna (Fin 0) sig).
Proof.
  unfold strategy_series, reindexed_values. cbn [s_values s_index].
  by rewrite decide_True.
Qed.

Lemma col_gt_length (a b : column) :
  length b = length a -> length (col_gt a b) = length a.
Proof. intros Hb. unfold col_gt. rewrite length_zip_with. lia. Qed.

Lemma reindexed_values_length (sg : Series) (idx : list Date) :
  series_wf sg -> length (reindexed_values sg idx) = length idx.
Proof.
  intros Hwf. unfold reindexed_values.
  destruct (decide (s_index sg = idx)) as [<-|_]; [done|]. by rewrite length_map.
Qed.

Section Main.
Context `{FloatSqrt}.

Lemma summarize_performance_ok (l : column) :
  l <> [] -> exists r, summarize_performance l = Ok r.
Proof.
  intros Hl. destruct (summarize_performance_sharpe l Hl) as (r & Hr & _). by exists r.
Qed.

(** The run of [main] once the six tables load: the two summaries are
    those of the daily returns times the baseline signal, and times the
    baseline signal switched off where the FAANG signal is not 1. *)
Lemma main_run (files : string -> pyres DataFrame)
    (T : string -> DataFrame) (C : string -> column)
    (fq : DataFrame) (close : column) (h : store) :
  files QQQ_DATA_PATH = Ok fq ->
  df_cols fq !! "close" = Some close ->
  length close = length (df_index fq) ->
  df_index fq <> [] ->
  (forall sym, sym ∈ FAANG_TICKERS ->
     files (faang_path sym) = Ok (T sym)
     /\ df_cols (T sym) !! "close" = Some (C sym)
     /\ length (C sym) = length (df_index (T sym))
     /\ NoDup (df_index (T sym))) ->
  exists (risk : column) (s1 s2 : PerformanceSummary) (h' : store),
    let ret := fillna (Fin 0) (pct_change close) in
    let above := col_gt close (rolling_mean 50 close) in
    length risk = length (df_index fq)
    /\ (forall i d, df_index fq !! i = Some d ->
          risk !! i = Some (of_bool (3 <=? count_above T C d)%nat))
    /\ summarize_performance
         (col_mul ret (fillna (Fin 0) (map of_bool above))) = Ok s1
    /\ summarize_performance
         (col_mul ret (fillna (Fin 0)
            (map of_bool (col_and above (col_eq_scalar risk (Fin 1)))))) = Ok s2
    /\ main files h = (Ok (s1, s2), h')
    /\ h ⊆ h'.
Proof.
  intros Hfile Hc Hlen Hne Hin. unfold main.
  set (idx := df_index fq). set (n := length idx).
  assert (0 < n)%nat as Hn by (unfold n, idx; destruct (df_index fq); [done|simpl; lia]).
  (* 1) *)
  rewrite bind_run, (load_price_csv_run files _ fq h Hfile). cbv beta iota.
  set (l0 := fresh (dom h)). set (h0 := <[l0 := OFrame fq]> h).
  assert (h ⊆ h0) as Hs0 by apply alloc_subseteq.
  rewrite bind_run, (add_ma_run h0 l0 fq close [50%nat]);
    [|apply lookup_insert_eq|done].
  cbv beta iota.
  set (g := mkFrame (df_index fq) (add_ma_cols close [50%nat] (df_cols fq))).
  set (l1 := fresh (dom h0)). set (h1 := <[l1 := OFrame g]> h0).
  assert (h0 ⊆ h1) as Hs1 by apply alloc_subseteq.
  assert (h1 !! l1 = Some (OFrame g)) as Hg1 by apply lookup_insert_eq.
  assert (df_cols g !! "close" = Some close) as Hgc by (by apply add_ma_cols_close).
  assert (df_cols g !! "ma50" = Some (rolling_mean 50 close)) as Hgm.
  { apply (add_ma_cols_ma close [50%nat] (df_cols fq) 50). left. left. }
  (* 2) *)
  rewrite bind_run, (build_baseline_momentum_signal_run h1 l1 g _ _ Hg1 Hgc Hgm).
  cbv beta iota. cbn [df_index g]. fold idx.
  set (above := col_gt close (rolling_mean 50 close)).
  set (sgB := mkSeries idx (map of_bool above)).
  set (l2 := fresh (dom h1)). set (h2 := <[l2 := OSeries sgB]> h1).
  assert (h1 ⊆ h2) as Hs2 by apply alloc_subseteq.
  assert (h2 !! l1 = Some (OFrame g)) as Hg2 by (by apply lookup_alloc).
  rewrite bind_run, (df_getitem_series_run h2 l1 g "close" close Hg2 Hgc).
  cbv beta iota. cbn [df_index g]. fold idx.
  set (P := mkSeries idx close).
  set (l3 := fresh (dom h2)). set (h3 := <[l3 := OSeries P]> h2).
  assert (h2 ⊆ h3) as Hs3 by apply alloc_subseteq.
  rewrite bind_run, (compute_strategy_returns_run h3 l3 l2 P sgB);
    [|apply lookup_insert_eq|apply lookup_alloc, lookup_insert_eq|by left].
  cbv beta iota.
  set (l4 := fresh (dom h3)).
  set (h4 := <[l4 := OSeries (strategy_series P sgB)]> h3).
  assert (h3 ⊆ h4) as Hs4 by apply alloc_subseteq.
  rewrite bind_run, (get_series_run h4 l4 _ (lookup_insert_eq _ _ _)). cbv beta iota.
  unfold P at 1, sgB at 1. rewrite strategy_series_same_index.
  set (ret := fillna (Fin 0) (pct_change close)).
  assert (length ret = n) as Hret.
  { unfold ret. by rewrite fillna_length, pct_change_length. }
  assert (length above = n) as Habove.
  { unfold above. rewrite col_gt_length; [done|]. by rewrite rolling_mean_length. }
  destruct (summarize_performance_ok (col_mul ret (fillna (Fin 0) (map of_bool above))))
    as (s1 & Hsum1).
  { intros Hnil. apply (f_equal length) in Hnil. revert Hnil. unfold col_mul.
    rewrite length_zip_with, fillna_length, length_map, Hret, Habove. simpl. lia. }
  rewrite bind_run. unfold lift at 1. rewrite Hsum1. cbv beta iota.
  (* 3) *)
  destruct (build_faang_risk_on_signal_run files T C h4 Hin)
    as (h5 & idxF & Hs5 & HndF & _ & Hrun).
  rewrite bind_run, Hrun. cbv beta iota.
  set (RO := mkSeries idxF _) in *.
  set (l6 := fresh (dom h5)). set (h6 := <[l6 := OSeries RO]> h5).
  assert (h5 ⊆ h6) as Hs6 by apply alloc_subseteq.
  assert (series_wf RO) as Hwf.
  { unfold series_wf, RO, sum_axis1; simpl. by rewrite length_map, length_imap. }
  assert (h6 !! l1 = Some (OFrame g)) as Hg6.
  { apply lookup_alloc. eapply lookup_weaken; [|exact Hs5].
    by do 2 apply lookup_alloc. }
  rewrite bind_run, (get_series_run h6 l6 _ (lookup_insert_eq _ _ _)). cbv beta iota.
  rewrite bind_run, (df_get_index_run h6 l1 g Hg6). cbv beta iota.
  cbn [df_index g]. fold idx.
  destruct (reindex_run RO idx (or_intror HndF)) as (ro' & Hre & Hvals & _).
  rewrite bind_run. unfold lift at 1. rewrite Hre. cbv beta iota. rewrite Hvals.
  set (risk := fillna (Fin 0) (reindexed_values RO idx)).
  (* 4) *)
  rewrite bind_run, (df_getitem_run h6 l1 g "close" close Hg6 Hgc). cbv beta iota.
  rewrite bind_run, (df_getitem_run h6 l1 g "ma50" _ Hg6 Hgm). cbv beta iota.
  fold above.
  set (ta := map of_bool (col_and above (col_eq_scalar risk (Fin 1)))).
  rewrite bind_run. unfold alloc at 1. cbv beta iota zeta.
  set (l7 := fresh (dom h6)). set (h7 := <[l7 := OSeries (mkSeries idx ta)]> h6).
  assert (h6 ⊆ h7) as Hs7 by apply alloc_subseteq.
  assert (h7 !! l1 = Some (OFrame g)) as Hg7 by (by apply lookup_alloc).
  rewrite bind_run, (df_getitem_series_run h7 l1 g "close" close Hg7 Hgc).
  cbv beta iota. cbn [df_index g]. fold idx. fold P.
  set (l8 := fresh (dom h7)). set (h8 := <[l8 := OSeries P]> h7).
  assert (h7 ⊆ h8) as Hs8 by apply alloc_subseteq.
  rewrite bind_run, (compute_strategy_returns_run h8 l8 l7 P (mkSeries idx ta));
    [|apply lookup_insert_eq|apply lookup_alloc, lookup_insert_eq|by left].
  cbv beta iota.
  set (l9 := fresh (dom h8)).
  set (h9 := <[l9 := OSeries (strategy_series P (mkSeries idx ta))]> h8).
  assert (h8 ⊆ h9) as Hs9 by apply alloc_subseteq.
  rewrite bind_run, (get_series_run h9 l9 _ (lookup_insert_eq _ _ _)). cbv beta iota.
  unfold P at 1. rewrite strategy_series_same_index. fold ret.
  assert (length risk = n) as Hrisk.
  { unfold risk. rewrite fillna_length. by apply reindexed_values_length. }
  destruct (summarize_performance_ok (col_mul ret (fillna (Fin 0) ta))) as (s2 & Hsum2).
  { intros Hnil. apply (f_equal length) in Hnil. revert Hnil.
    unfold col_mul, ta, col_and, col_eq_scalar.
    rewrite length_zip_with, fillna_length, length_map, length_zip_with, length_map,
      Hret, Habove, Hrisk. simpl. lia. }
  rewrite bind_run. unfold lift at 1. rewrite Hsum2. cbv beta iota.
  assert (forall i d, idx !! i = Some d ->
            risk !! i = Some (of_bool (3 <=? count_above T C d)%nat)) as Hcells.
  { intros i d Hi. unfold risk. rewrite (reindexed_position RO idx i d Hwf HndF Hi).
    destruct (build_faang_risk_on_signal_values files T C h4 Hin)
      as (ro & (l & hh & Hrun' & Hl & _) & Hmem & Hval).
    rewrite Hrun in Hrun'. injection Hrun' as <- <-.
    fold l6 in Hl. rewrite lookup_insert_eq in Hl. injection Hl as <-.
    f_equal. unfold position_on.
    destruct (decide (d ∈ idxF)) as [Hd|Hd].
    - rewrite (Hval d Hd). by destruct (3 <=? count_above T C d)%nat.
    - destruct (ser_at RO d) as [x|] eqn:Hx.
      { apply assoc_date_in_index in Hx. by destruct Hd. }
      pose proof (count_above_at_most_two T C "" "" d
                    (fun sym Hsym => proj2 (proj2 (Hin sym Hsym)))) as Hcount.
      destruct (Nat.leb_spec 3 (count_above T C d)) as [Hge|_]; [|done].
      exfalso. assert (count_above T C d <= 2)%nat; [|lia].
      apply Hcount. intros sym j Hsym _ _ Hj. destruct Hd.
      apply (Hmem d). exists sym. split; [done|]. by eapply list_elem_of_lookup_2. }
  exists risk, s1, s2, h9. cbv zeta. fold ret above ta.
  split; [done|]. split; [done|]. split; [done|]. split; [done|].
  split; [reflexivity|].
  repeat (etrans; [eassumption|]). done.
Qed.

Lemma feqb_of_bool (b : bool) : feqb (of_bool b) (Fin 1) = b.
Proof. by destruct b. Qed.

Lemma fillna_of_bool (bs : list bool) (i : nat) :
  fillna (Fin 0) (map of_bool bs) !! i = of_bool <$> bs !! i.
Proof.
  rewrite fillna_lookup. change (map of_bool bs) with (of_bool <$> bs).
  rewrite list_lookup_fmap. by destruct (bs !! i) as [[]|].
Qed.

(** X27.  [main], once the six tables load, on finite non-zero QQQ
    closes: the baseline summary is that of the daily return times the
    50-day crossover of the same day, and the TA-enhanced summary is that
    of the same series switched off on the dates where fewer than three
    FAANG names are above their 200-day average (dates the FAANG tables
    do not have among them).  Both series have one cell for each row of
    the QQQ table. *)
Theorem main_filtered_strategy (files : string -> pyres DataFrame)
    (T : string -> DataFrame) (C : string -> column)
    (fq : DataFrame) (qs : list Q) (h : store) :
  files QQQ_DATA_PATH = Ok fq ->
  df_cols fq !! "close" = Some (map Fin qs) ->
  Forall (fun q => ~ q == 0) qs ->
  length qs = length (df_index fq) ->
  df_index fq <> [] ->
  (forall sym, sym ∈ FAANG_TICKERS ->
     files (faang_path sym) = Ok (T sym)
     /\ df_cols (T sym) !! "close" = Some (C sym)
     /\ length (C sym) = length (df_index (T sym))
     /\ NoDup (df_index (T sym))) ->
  exists (B Tr : column) (s1 s2 : PerformanceSummary) (h' : store),
    main files h = (Ok (s1, s2), h')
    /\ summarize_performance B = Ok s1
    /\ summarize_performance Tr = Ok s2
    /\ length B = length (df_index fq)
    /\ length Tr = length (df_index fq)
    /\ forall i d q, df_index fq !! i = Some d -> qs !! i = Some q ->
         exists r,
           fillna (Fin 0) (pct_change (map Fin qs)) !! i = Some (Fin r)
           /\ B !! i = Some (fmul (Fin r) (crossover_spec 50 qs i q))
           /\ Tr !! i = Some (fmul (Fin r)
                               (if (3 <=? count_above T C d)%nat
                                then crossover_spec 50 qs i q else Fin 0)).
Proof.
  intros Hfile Hc Hqs Hlen Hne Hin.
  destruct (main_run files T C fq (map Fin qs) h Hfile Hc) as
    (risk & s1 & s2 & h' & Hrisk & Hcells & Hs1 & Hs2 & Hrun & _);
    [by rewrite length_map|done|done|].
  cbv zeta in Hs1, Hs2.
  eexists _, _, s1, s2, h'. split; [exact Hrun|]. split; [exact Hs1|].
  split; [exact Hs2|].
  split.
  { unfold col_mul, col_gt.
    rewrite length_zip_with, !fillna_length, pct_change_length, !length_map,
      length_zip_with, rolling_mean_length, length_map. lia. }
  split.
  { unfold col_mul, col_gt, col_and, col_eq_scalar.
    rewrite length_zip_with, !fillna_length, pct_change_length, !length_map,
      !length_zip_with, rolling_mean_length, !length_map. lia. }
  intros i d q Hd Hq.
  destruct (pct_change_finite (map Fin qs) i) as (r & Hr).
  { apply Forall_forall. intros x Hx. change (map Fin qs) with (Fin <$> qs) in Hx.
    apply list_elem_of_fmap in Hx as (a & -> & Ha). exists a. split; [done|].
    rewrite Forall_forall in Hqs. by apply Hqs. }
  { rewrite length_map. by apply lookup_lt_Some in Hq. }
  exists r. split; [exact Hr|].
  assert (col_gt (map Fin qs) (rolling_mean 50 (map Fin qs)) !! i
          = Some (fgtb (Fin q) (ma_spec 50 qs i))) as Habove.
  { unfold col_gt. rewrite lookup_zip_with.
    change (map Fin qs) with (Fin <$> qs) at 1. rewrite list_lookup_fmap, Hq.
    cbn [fmap option_fmap option_map mbind option_bind].
    change (Fin <$> qs) with (map Fin qs).
    by rewrite (rolling_mean_Fin 50 qs i q) by (lia || done). }
  unfold col_mul. split.
  - rewrite lookup_zip_with, Hr, fillna_of_bool, Habove.
    cbn [fmap option_fmap option_map mbind option_bind].
    by rewrite crossover_cell.
  - rewrite lookup_zip_with, Hr, fillna_of_bool.
    unfold col_and, col_eq_scalar. rewrite lookup_zip_with, Habove.
    change (map ?g risk) with (g <$> risk).
    rewrite list_lookup_fmap, (Hcells i d Hd).
    cbn [fmap option_fmap option_map mbind option_bind].
    rewrite feqb_of_bool.
    destruct (3 <=? count_above T C d)%nat.
    + by rewrite andb_true_r, crossover_cell.
    + by rewrite andb_false_r.
Qed.

(** X28.  [main] fails before it reads any FAANG file when the QQQ table
    is not there or cannot be used: the exception of the loader comes out
    as it is, with the store untouched; a table without a close column
    gives the ValueError of [add_ma]; a table without rows gives
    IndexError, from the summary of the empty baseline series. *)
Theorem main_needs_qqq_table (files : string -> pyres DataFrame) (h : store) :
  (forall e, files QQQ_DATA_PATH = Raise e -> main files h = (Raise e, h))
  /\ (forall fq, files QQQ_DATA_PATH = Ok fq -> df_cols fq !! "close" = None ->
        (main files h).1 = Raise ValueError)
  /\ (forall fq, files QQQ_DATA_PATH = Ok fq -> df_cols fq !! "close" = Some [] ->
        df_index fq = [] ->
        (main files h).1 = Raise IndexError).
Proof.
  split; [|split].
  - intros e Hfile. unfold main, load_price_csv. rewrite !bind_run. unfold lift.
    by rewrite Hfile.
  - intros fq Hfile Hc. unfold main.
    rewrite bind_run, (load_price_csv_run files _ fq h Hfile). cbv beta iota.
    by rewrite bind_run, (add_ma_no_close_run _ _ fq); [|apply lookup_insert_eq|done].
  - intros fq Hfile Hc Hidx. unfold main.
    rewrite bind_run, (load_price_csv_run files _ fq h Hfile). cbv beta iota.
    set (l0 := fresh (dom h)). set (h0 := <[l0 := OFrame fq]> h).
    rewrite bind_run, (add_ma_run h0 l0 fq [] [50%nat]);
      [|apply lookup_insert_eq|done].
    cbv beta iota.
    set (g := mkFrame (df_index fq) (add_ma_cols [] [50%nat] (df_cols fq))).
    set (l1 := fresh (dom h0)). set (h1 := <[l1 := OFrame g]> h0).
    assert (h1 !! l1 = Some (OFrame g)) as Hg1 by apply lookup_insert_eq.
    assert (df_cols g !! "close" = Some []) as Hgc by (by apply add_ma_cols_close).
    assert (df_cols g !! "ma50" = Some (rolling_mean 50 [])) as Hgm.
    { apply (add_ma_cols_ma [] [50%nat] (df_cols fq) 50). left. left. }
    rewrite bind_run, (build_baseline_momentum_signal_run h1 l1 g _ _ Hg1 Hgc Hgm).
    cbv beta iota. cbn [df_index g]. rewrite Hidx.
    set (sgB := mkSeries [] _).
    set (l2 := fresh (dom h1)). set (h2 := <[l2 := OSeries sgB]> h1).
    assert (h2 !! l1 = Some (OFrame g)) as Hg2 by (by apply lookup_alloc).
    rewrite bind_run, (df_getitem_series_run h2 l1 g "close" [] Hg2 Hgc).
    cbv beta iota. cbn [df_index g]. rewrite Hidx.
    set (P := mkSeries [] []).
    set (l3 := fresh (dom h2)). set (h3 := <[l3 := OSeries P]> h2).
    rewrite bind_run, (compute_strategy_returns_run h3 l3 l2 P sgB);
      [|apply lookup_insert_eq|apply lookup_alloc, lookup_insert_eq|by left].
    cbv beta iota.
    rewrite bind_run, (get_series_run _ _ _ (lookup_insert_eq _ _ _)). cbv beta iota.
    rewrite bind_run. reflexivity.
Qed.

End Main.


(* ===================================================================== *)
(** ** fetch_data.py: the retry loop *)
(* ===================================================================== *)

Import FetchData.

Lemma retry_loop_success (attempt : nat -> outcome) (n k : nat)
    (last_err : option string) (w : world) (out : DataFrame) :
  (k < n)%nat ->
  (forall j, (j < k)%nat -> exists msg, attempt (tries w + j)%nat = RaisesException msg) ->
  attempt (tries w + k)%nat = Returns out ->
  retry_loop attempt n last_err w
  = (inr out, mkWorld (tries w + S k) (sleeps w + k)).
Proof.
  revert n last_err w. induction k as [|k IH]; intros n last_err w Hk Hfail Hok.
  - destruct n as [|n]; [lia|]. cbn [retry_loop].
    rewrite Nat.add_0_r in Hok. rewrite Hok. do 2 f_equal; lia.
  - destruct n as [|n]; [lia|]. cbn [retry_loop].
    destruct (Hfail 0%nat) as (msg & Hmsg); [lia|].
    rewrite Nat.add_0_r in Hmsg. rewrite Hmsg.
    rewrite (IH n (Some msg) _); cbn [tries sleeps].
    + do 2 f_equal; lia.
    + lia.
    + intros j Hj. destruct (Hfail (S j)) as (m & Hm); [lia|].
      exists m. rewrite <- Hm. f_equal. lia.
    + rewrite <- Hok. f_equal. lia.
Qed.

Lemma retry_loop_give_up (attempt : nat -> outcome) (n : nat)
    (last_err : option string) (w : world) (msgs : list string) :
  length msgs = n ->
  (forall j msg, msgs !! j = Some msg -> attempt (tries w + j)%nat = RaisesException msg) ->
  retry_loop attempt n last_err w
  = (inl (YfinanceFailed (from_option Some last_err (last msgs))),
     mkWorld (tries w + n) (sleeps w + n)).
Proof.
  revert n last_err w. induction msgs as [|m msgs IH]; intros n last_err w Hlen Hfail.
  - subst n. cbn [retry_loop length last from_option]. destruct w. simpl.
    by rewrite !Nat.add_0_r.
  - subst n. cbn [length retry_loop].
    pose proof (Hfail 0%nat m eq_refl) as Hm. rewrite Nat.add_0_r in Hm. rewrite Hm.
    rewrite (IH (length msgs) (Some m) _ eq_refl); cbn [tries sleeps].
    + f_equal; [|f_equal; lia]. do 2 f_equal.
      rewrite last_cons. by destruct (last msgs).
    + intros j msg Hj. rewrite <- (Hfail (S j) msg Hj). f_equal. lia.
Qed.

(** X29.  [fetch_with_yfinance_strict] returns the table of the first
    run of the download that raises nothing, provided it is among the
    first [max_retries] runs: it has then tried the download once per
    run, slept once per failure, and tries no more. *)
Theorem fetch_returns_first_success (attempt : nat -> outcome) (max_retries : Z)
    (k : nat) (out : DataFrame) :
  (Z.of_nat k < max_retries)%Z ->
  (forall j, (j < k)%nat -> exists msg, attempt j = RaisesException msg) ->
  attempt k = Returns out ->
  fetch_with_yfinance_strict attempt max_retries (mkWorld 0 0)
  = (inr out, mkWorld (S k) k).
Proof.
  intros Hk Hfail Hok. unfold fetch_with_yfinance_strict.
  rewrite (retry_loop_success attempt _ k None (mkWorld 0 0) out);
    [done|lia|done|done].
Qed.

(** X30.  When the first [max_retries] runs of the download all raise an
    exception, [fetch_with_yfinance_strict] raises RuntimeError with the
    message of the last one, after [max_retries] tries and as many sleeps
    (it sleeps after the last failure too).  With [max_retries] 0 or
    less it raises at once, reporting [None], without trying. *)
Theorem fetch_gives_up (attempt : nat -> outcome) (max_retries : Z)
    (msgs : list string) :
  length msgs = Z.to_nat max_retries ->
  (forall j msg, msgs !! j = Some msg -> attempt j = RaisesException msg) ->
  fetch_with_yfinance_strict attempt max_retries (mkWorld 0 0)
  = (inl (YfinanceFailed (last msgs)),
     mkWorld (Z.to_nat max_retries) (Z.to_nat max_retries)).
Proof.
  intros Hlen Hfail. unfold fetch_with_yfinance_strict.
  rewrite (retry_loop_give_up attempt _ None (mkWorld 0 0) msgs Hlen Hfail).
  cbn [tries sleeps Nat.add]. by destruct (last msgs).
Qed.

Lemma fetch_returns_first_success_witness :
  fetch_with_yfinance_strict
    (fun j => if (j <? 2)%nat then RaisesException "empty dataframe from yfinance"
              else Returns sample_table) 3 (mkWorld 0 0)
  = (inr sample_table, mkWorld 3 2).
Proof.
  apply (fetch_returns_first_success
           (fun j => if (j <? 2)%nat then RaisesException "empty dataframe from yfinance"
                     else Returns sample_table) 3 2 sample_table).
  - reflexivity.
  - intros j Hj. exists "empty dataframe from yfinance".
    by destruct (Nat.ltb_spec j 2) as [_|?]; [|lia].
  - reflexivity.
Defined.

Lemma fetch_gives_up_witness :
  fetch_with_yfinance_strict (fun j => RaisesException (pretty j)) 3 (mkWorld 0 0)
  = (inl (YfinanceFailed (last [pretty 0%nat; pretty 1%nat; pretty 2%nat])),
     mkWorld (Z.to_nat 3) (Z.to_nat 3)).
Proof.
  apply (fetch_gives_up (fun j => RaisesException (pretty j)) 3
           [pretty 0%nat; pretty 1%nat; pretty 2%nat]).
  - reflexivity.
  - intros [|[|[|j]]] msg Hj; simpl in Hj; try discriminate; by injection Hj as <-.
Defined.
